(** * Build server and reconnecting client: a shallow embedding

    The development follows [build-server/project-manager.ts] (class
    [ProjectManager]) and the WebSocket effect of
    [src/hooks/useProjectManager.ts].  JavaScript strings are sequences of
    UTF-16 code units, maps are [gmap], sets are [gset]; every method
    becomes a function on an explicit [State], returning a [Result] where
    the method can throw.

    Conventions.  The server runs its handlers one at a time; a method is
    modelled from its call to its return, and what reaches the manager
    between two methods (a child that closes, a line of output) is an
    event of its own.  What the operating system and the libraries decide
    (random bytes, signals that throw, the template, the parsed manifest)
    is an argument of the function that meets it.  A log callback is a
    listener number and returns normally, as the callback of [index.ts]
    does; the server console is left out. *)

From Stdlib Require Import ZArith Lia List String Ascii Bool.
From Stdlib.Strings Require Import Byte.
From stdpp Require Import gmap strings list fin_maps pretty.

Local Open Scope Z_scope.

(** ** JavaScript strings *)

Abbreviation jsstring := (list Z).

(** A literal written with ASCII characters, as its code units. *)
Definition js (s : string) : jsstring :=
  (fun a => Z.of_N (N_of_ascii a)) <$> list_ascii_of_string s.

Module JS.

Definition inRange (lo hi c : Z) : bool := (lo <=? c) && (c <=? hi).

(** [String.prototype.startsWith] *)
Fixpoint startsWith (s p : jsstring) : bool :=
  match p, s with
  | [], _ => true
  | _ :: _, [] => false
  | a :: p', b :: s' => (a =? b) && startsWith s' p'
  end.

(** [String.prototype.includes] *)
Fixpoint includes (s p : jsstring) : bool :=
  startsWith s p ||
  match s with
  | [] => false
  | _ :: s' => includes s' p
  end.

(** [String.prototype.toLowerCase] on the Basic Latin block: the code
    units of [A-Z] are shifted, every other code unit is kept. *)
Definition lowerUnit (c : Z) : Z := if inRange 65 90 c then c + 32 else c.
Definition toLowerCase (s : jsstring) : jsstring := lowerUnit <$> s.

(** White space and line terminators, as [trim] and the class [\s] see
    them. *)
Definition isSpace (c : Z) : bool :=
  inRange 9 13 c || (c =? 32) || (c =? 160) || (c =? 5760) ||
  inRange 8192 8202 c || (c =? 8232) || (c =? 8233) || (c =? 8239) ||
  (c =? 8287) || (c =? 12288) || (c =? 65279).

(** Line terminators, which [.] does not match. *)
Definition isLineTerminator (c : Z) : bool :=
  (c =? 10) || (c =? 13) || (c =? 8232) || (c =? 8233).

Definition isDigit (c : Z) : bool := inRange 48 57 c.
Definition isAlpha (c : Z) : bool := inRange 65 90 c || inRange 97 122 c.
(** The class [\w]. *)
Definition isWord (c : Z) : bool := isAlpha c || isDigit c || (c =? 95).

Fixpoint dropWhile (f : Z -> bool) (s : jsstring) : jsstring :=
  match s with
  | [] => []
  | c :: t => if f c then dropWhile f t else s
  end.

Fixpoint takeWhile (f : Z -> bool) (s : jsstring) : jsstring :=
  match s with
  | [] => []
  | c :: t => if f c then c :: takeWhile f t else []
  end.

(** [String.prototype.trim] *)
Definition trim (s : jsstring) : jsstring :=
  rev (dropWhile isSpace (rev (dropWhile isSpace s))).

(** [\b] between the code unit before a position and the one after. *)
Definition wordOpt (o : option Z) : bool :=
  match o with Some c => isWord c | None => false end.
Definition boundary (before after : option Z) : bool :=
  xorb (wordOpt before) (wordOpt after).

(** [s.slice(0, n)] *)
Definition slice0 (n : nat) (s : jsstring) : jsstring := take n s.

End JS.

(** ** Log classifier: [cleanLogLine] and [detectLogLevel] *)

Inductive Level := info | error | success | warn.

#[global] Instance Level_eq_dec : EqDecision Level.
Proof. solve_decision. Defined.

Module Classifier.
Import JS.

(** *** The regular expressions, each as the matcher it denotes *)

(** A regular expression without the sticky flag matches when it matches
    at some position; [P] receives the code unit before the position and
    the text from the position on. *)
Fixpoint scan (P : option Z -> jsstring -> bool) (prev : option Z)
  (s : jsstring) : bool :=
  P prev s ||
  match s with
  | [] => false
  | c :: t => scan P (Some c) t
  end.

Definition test (P : option Z -> jsstring -> bool) (s : jsstring) : bool :=
  scan P None s.

(** [/\berr\b/] *)
Definition re_err (prev : option Z) (r : jsstring) : bool :=
  boundary prev (head r) && startsWith r (js "err") &&
  boundary (r !! 2%nat) (r !! 3%nat).

(** [/\d+\s*ms\b/]: the digits and the white space are taken greedily; a
    shorter choice is followed by a digit or a space, never by [m]. *)
Definition re_ms (prev : option Z) (r : jsstring) : bool :=
  match r with
  | c :: t =>
      isDigit c &&
      (let u := dropWhile isSpace (dropWhile isDigit t) in
       startsWith u (js "ms") && boundary (u !! 1%nat) (u !! 2%nat))
  | [] => false
  end.

(** [/a.*b/] for literal [a] and [b] without line terminators *)
Definition re_dotstar (a b : jsstring) (prev : option Z) (r : jsstring) : bool :=
  startsWith r a &&
  includes (takeWhile (fun c => negb (isLineTerminator c)) (drop (length a) r)) b.

(** Length of the match of [/\x1b\[[0-9;]*F/] at the head of [s], for a
    class [F] of final code units disjoint from [[0-9;]]. *)
Definition isParam (c : Z) : bool := isDigit c || (c =? 59).
Definition escape (final : Z -> bool) (s : jsstring) : option nat :=
  match s with
  | e :: b :: t =>
      if (e =? 27) && (b =? 91) then
        match dropWhile isParam t with
        | f :: r => if final f then Some (length s - length r)%nat else None
        | [] => None
        end
      else None
  | _ => None
  end.

(** [s.replace(re, '')] with the global flag: matches are removed from
    left to right and do not overlap; [skip] counts the code units of the
    current match still to drop. *)
Fixpoint removeAll (re : jsstring -> option nat) (skip : nat) (s : jsstring)
  : jsstring :=
  match s with
  | [] => []
  | c :: t =>
      match skip with
      | S k => removeAll re k t
      | O =>
          match re s with
          | Some (S k) => removeAll re k t
          | _ => c :: removeAll re 0 t
          end
      end
  end.

(** [/^[⠋⠙⠹⠸⠼⠴⠦⠧⠇⠏▀▄█]$/] *)
Definition spinnerUnits : list Z :=
  [10251; 10265; 10297; 10296; 10300; 10292; 10278; 10279; 10247; 10255;
   9600; 9604; 9608].
Definition re_spinner (s : jsstring) : bool :=
  match s with
  | [c] => bool_decide (c ∈ spinnerUnits)
  | _ => false
  end.

(** *** [cleanLogLine] *)
Definition cleanLogLine (line : jsstring) : jsstring :=
  let cleaned :=
    trim
      (filter (fun c => c ≠ 13)
         (removeAll (escape isAlpha) 0
            (removeAll (escape (fun c => c =? 109)) 0 line))) in
  if bool_decide (cleaned = []) then []
  else if (length cleaned <? 2)%nat then []
  else if re_spinner cleaned then []
  else cleaned.

(** *** [detectLogLevel] *)
Definition isError (lower : jsstring) : bool :=
  includes lower (js "error") ||
  includes lower (js "failed") ||
  includes lower (js "exception") ||
  includes lower (js "fatal") ||
  test re_err lower ||
  includes lower (js "cannot find") ||
  includes lower (js "not found") && includes lower (js "module").

Definition isWarn (lower : jsstring) : bool :=
  includes lower (js "warn") ||
  includes lower (js "warning") ||
  includes lower (js "deprecated") ||
  includes lower (js "conflict").

Definition isSuccess (lower : jsstring) : bool :=
  includes lower (js "ready") ||
  includes lower (js "compiled") ||
  includes lower (js "success") ||
  includes lower [10003] ||
  includes lower [10004] ||
  test (re_dotstar (js "server") (js "running")) lower ||
  test (re_dotstar (js "local") (js "http")) lower ||
  includes lower (js "hmr") ||
  includes lower (js "updated") &&
    (includes lower (js ".tsx") || includes lower (js ".ts") ||
     includes lower (js ".jsx")) ||
  includes lower (js "page reload") ||
  includes lower (js "reloaded") ||
  test re_ms lower && includes lower (js "vite").

Definition detectLogLevel (message : jsstring) : Level :=
  let lower := toLowerCase message in
  if isError lower then error
  else if isWarn lower then warn
  else if isSuccess lower then success
  else info.

(** The body of the per-line loop of the dev-server stream handlers: a
    line that cleans to the empty string is skipped, any other line is
    logged with its detected level. *)
Definition classify (rawLine : jsstring) : option (Level * jsstring) :=
  let cleaned := cleanLogLine rawLine in
  if bool_decide (cleaned = []) then None
  else Some (detectLogLevel cleaned, cleaned).

(** The corpus of the specification. *)
Definition corpus_error : jsstring := js "Error: cannot find module 'x'".
Definition corpus_warn : jsstring := js "warning: deprecated".
Definition corpus_success : jsstring := 10003 :: js " ready in 120ms".
Definition corpus_info : jsstring := js "hello".

End Classifier.

(** ** Paths: the POSIX functions of Node's [path] module *)

Module Path.
Import JS.

Definition slash : Z := 47.

(** [s.split('/')] *)
Fixpoint split (s : jsstring) : list jsstring :=
  match s with
  | [] => [[]]
  | c :: t =>
      if c =? slash then [] :: split t
      else match split t with
           | h :: r => (c :: h) :: r
           | [] => [[c]]
           end
  end.

(** [segs.join('/')] *)
Fixpoint joinSegments (segs : list jsstring) : jsstring :=
  match segs with
  | [] => []
  | [x] => x
  | x :: r => x ++ slash :: joinSegments r
  end.

(** One step of [normalizeString]: empty and [.] segments are dropped,
    [..] removes the segment before it, or is kept when there is none and
    the path is relative. *)
Definition pushSegment (allowAboveRoot : bool) (stack : list jsstring)
  (seg : jsstring) : list jsstring :=
  if bool_decide (seg = []) || bool_decide (seg = js ".") then stack
  else if bool_decide (seg = js "..") then
    match stack with
    | top :: rest =>
        if bool_decide (top = js "..") then
          (if allowAboveRoot then seg :: stack else stack)
        else rest
    | [] => if allowAboveRoot then [seg] else []
    end
  else seg :: stack.

Definition normalizeString (path : jsstring) (allowAboveRoot : bool) : jsstring :=
  joinSegments (rev (foldl (pushSegment allowAboveRoot) [] (split path))).

Definition isAbsolute (path : jsstring) : bool :=
  match path with
  | c :: _ => c =? slash
  | [] => false
  end.

(** The loop of [path.resolve]: arguments are taken from the right until
    an absolute one is met, the working directory comes last. *)
Fixpoint resolveLoop (argsRev : list jsstring) (cwd : jsstring)
  (resolvedPath : jsstring) : jsstring * bool :=
  match argsRev with
  | [] =>
      if bool_decide (cwd = []) then (resolvedPath, false)
      else (cwd ++ slash :: resolvedPath, isAbsolute cwd)
  | path :: more =>
      if bool_decide (path = []) then resolveLoop more cwd resolvedPath
      else if isAbsolute path then (path ++ slash :: resolvedPath, true)
      else resolveLoop more cwd (path ++ slash :: resolvedPath)
  end.

(** [path.resolve(...args)] *)
Definition resolve (cwd : jsstring) (args : list jsstring) : jsstring :=
  let '(resolvedPath, resolvedAbsolute) := resolveLoop (rev args) cwd [] in
  let normalized := normalizeString resolvedPath (negb resolvedAbsolute) in
  if resolvedAbsolute then slash :: normalized
  else if bool_decide (normalized = []) then js "." else normalized.

(** [path.normalize(path)] *)
Definition normalize (path : jsstring) : jsstring :=
  if bool_decide (path = []) then js "."
  else
    let absolute := isAbsolute path in
    let trailingSeparator :=
      match last path with Some c => c =? slash | None => false end in
    let p := normalizeString path (negb absolute) in
    if bool_decide (p = []) then
      (if absolute then [slash]
       else if trailingSeparator then js "./" else js ".")
    else
      let p' := if trailingSeparator then p ++ [slash] else p in
      if absolute then slash :: p' else p'.

(** [path.join(...args)] *)
Definition join (args : list jsstring) : jsstring :=
  let parts := filter (fun a => a ≠ []) args in
  if bool_decide (parts = []) then js "." else normalize (joinSegments parts).

(** A path lies within a root directory when it is the root or below it. *)
Definition within (root p : jsstring) : bool :=
  bool_decide (p = root) || startsWith p (root ++ [slash]).

(** The non-empty prefixes of a list of segments. *)
Fixpoint prefixes (segs : list jsstring) : list (list jsstring) :=
  match segs with
  | [] => []
  | x :: r => [x] :: (cons x <$> prefixes r)
  end.

(** The directories above a normalized absolute path, the path included:
    what [mkdir] with [recursive] creates. *)
Definition upTo (p : jsstring) : list jsstring :=
  (fun segs => slash :: joinSegments segs) <$>
    prefixes (filter (fun a => a ≠ []) (split p)).

End Path.

(** ** Data model of [project-manager.ts] *)

Abbreviation Child := nat.
Abbreviation Listener := nat.

Definition PORT_RANGE_START : Z := 3002.
Definition PORT_RANGE_END : Z := 3100.

Module Project.
Record t := mk {
  id : jsstring;
  name : jsstring;
  framework : jsstring;
  description : option jsstring;
  path : jsstring;
  createdAt : Z
}.
End Project.

Module LogEntry.
Record t := mk {
  timestamp : Z;
  level : Level;
  message : jsstring;
  projectId : jsstring
}.
End LogEntry.

Inductive Status := creating | installing | starting | ready | errored.

Module ProjectStatus.
Record t := mk {
  id : jsstring;
  name : jsstring;
  framework : jsstring;
  description : option jsstring;
  status : Status;
  running : bool;
  port : option Z;
  url : option jsstring;
  devServerUrl : option jsstring;
  files : list jsstring;
  sentryConfigured : bool
}.
End ProjectStatus.

(** The parts of a parsed [package.json] that the recovery scan reads. *)
Module Manifest.
Record t := mk {
  name : option jsstring;
  description : option jsstring;
  dependencies : gmap jsstring jsstring;
  devDependencies : gmap jsstring jsstring
}.
End Manifest.

(** What the module takes from outside: the working directory of the
    process, the imported [reactTemplate] (its entries in order) and
    [JSON.parse] on manifests. *)
Record Config := {
  cwd : jsstring;
  reactTemplate : list (jsstring * jsstring);
  parseJson : jsstring -> option Manifest.t
}.

Definition PROJECTS_DIR (cfg : Config) : jsstring :=
  Path.resolve (cwd cfg) [cwd cfg; js "projects"].

(** The errors the methods throw, named as the specification names them;
    the message of the source is given with each. *)
Inductive Error :=
| NotFound (projectId : jsstring)           (* Project <id> not found *)
| PathEscape                                (* Invalid file path: outside project directory *)
| PortExhausted                             (* No available ports in range *)
| TemplateMissing (framework : jsstring)    (* Template not found for framework: <f> *)
| TemplateNotImplemented (framework : jsstring) (* Template for <f> not yet implemented *)
| FsError (path : jsstring).                (* a rejected [fs/promises] call *)

Inductive Result (A : Type) :=
| Ok (a : A)
| Throw (e : Error).
Arguments Ok {A} a.
Arguments Throw {A} e.

Inductive Signal := SIGTERM | SIGKILL.

(** A spawned dev server: the project and the port its [close] handler
    captured, and the command it runs. *)
Record ChildInfo := {
  c_projectId : jsstring;
  c_port : Z;
  c_command : jsstring;
  c_args : list jsstring;
  c_cwd : jsstring
}.

(** The five fields of the class, then the world the class acts on: the
    directories (with their birth time) and files of the disk, the children
    whose [close] handler has not run yet, the deliveries made to log
    listeners, the signals and the kill-by-port commands issued, and the
    clock. *)
Record State := {
  projects : gmap jsstring Project.t;
  processes : gmap jsstring Child;
  ports : gmap jsstring Z;
  usedPorts : gset Z;
  logSubscriptions : gmap jsstring (gset Listener);
  dirs : gmap jsstring Z;
  files : gmap jsstring jsstring;
  children : gmap Child ChildInfo;
  spawned : nat;
  delivered : list (Listener * LogEntry.t);
  signals : list (Child * Signal);
  portKills : list Z;
  now : Z
}.

Definition withProjects (f : gmap jsstring Project.t -> gmap jsstring Project.t) (st : State) : State :=
  {| projects := f (projects st); processes := processes st; ports := ports st;
     usedPorts := usedPorts st; logSubscriptions := logSubscriptions st;
     dirs := dirs st; files := files st; children := children st;
     spawned := spawned st; delivered := delivered st; signals := signals st;
     portKills := portKills st; now := now st |}.

Definition withProcesses (f : gmap jsstring Child -> gmap jsstring Child) (st : State) : State :=
  {| projects := projects st; processes := f (processes st); ports := ports st;
     usedPorts := usedPorts st; logSubscriptions := logSubscriptions st;
     dirs := dirs st; files := files st; children := children st;
     spawned := spawned st; delivered := delivered st; signals := signals st;
     portKills := portKills st; now := now st |}.

Definition withPorts (f : gmap jsstring Z -> gmap jsstring Z) (st : State) : State :=
  {| projects := projects st; processes := processes st; ports := f (ports st);
     usedPorts := usedPorts st; logSubscriptions := logSubscriptions st;
     dirs := dirs st; files := files st; children := children st;
     spawned := spawned st; delivered := delivered st; signals := signals st;
     portKills := portKills st; now := now st |}.

Definition withUsedPorts (f : gset Z -> gset Z) (st : State) : State :=
  {| projects := projects st; processes := processes st; ports := ports st;
     usedPorts := f (usedPorts st); logSubscriptions := logSubscriptions st;
     dirs := dirs st; files := files st; children := children st;
     spawned := spawned st; delivered := delivered st; signals := signals st;
     portKills := portKills st; now := now st |}.

Definition withLogSubscriptions
  (f : gmap jsstring (gset Listener) -> gmap jsstring (gset Listener)) (st : State) : State :=
  {| projects := projects st; processes := processes st; ports := ports st;
     usedPorts := usedPorts st; logSubscriptions := f (logSubscriptions st);
     dirs := dirs st; files := files st; children := children st;
     spawned := spawned st; delivered := delivered st; signals := signals st;
     portKills := portKills st; now := now st |}.

Definition withDirs (f : gmap jsstring Z -> gmap jsstring Z) (st : State) : State :=
  {| projects := projects st; processes := processes st; ports := ports st;
     usedPorts := usedPorts st; logSubscriptions := logSubscriptions st;
     dirs := f (dirs st); files := files st; children := children st;
     spawned := spawned st; delivered := delivered st; signals := signals st;
     portKills := portKills st; now := now st |}.

Definition withFiles (f : gmap jsstring jsstring -> gmap jsstring jsstring) (st : State) : State :=
  {| projects := projects st; processes := processes st; ports := ports st;
     usedPorts := usedPorts st; logSubscriptions := logSubscriptions st;
     dirs := dirs st; files := f (files st); children := children st;
     spawned := spawned st; delivered := delivered st; signals := signals st;
     portKills := portKills st; now := now st |}.

Definition withChildren (f : gmap Child ChildInfo -> gmap Child ChildInfo) (st : State) : State :=
  {| projects := projects st; processes := processes st; ports := ports st;
     usedPorts := usedPorts st; logSubscriptions := logSubscriptions st;
     dirs := dirs st; files := files st; children := f (children st);
     spawned := spawned st; delivered := delivered st; signals := signals st;
     portKills := portKills st; now := now st |}.

Definition withSpawned (f : nat -> nat) (st : State) : State :=
  {| projects := projects st; processes := processes st; ports := ports st;
     usedPorts := usedPorts st; logSubscriptions := logSubscriptions st;
     dirs := dirs st; files := files st; children := children st;
     spawned := f (spawned st); delivered := delivered st; signals := signals st;
     portKills := portKills st; now := now st |}.

Definition withDelivered
  (f : list (Listener * LogEntry.t) -> list (Listener * LogEntry.t)) (st : State) : State :=
  {| projects := projects st; processes := processes st; ports := ports st;
     usedPorts := usedPorts st; logSubscriptions := logSubscriptions st;
     dirs := dirs st; files := files st; children := children st;
     spawned := spawned st; delivered := f (delivered st); signals := signals st;
     portKills := portKills st; now := now st |}.

Definition withSignals (f : list (Child * Signal) -> list (Child * Signal)) (st : State) : State :=
  {| projects := projects st; processes := processes st; ports := ports st;
     usedPorts := usedPorts st; logSubscriptions := logSubscriptions st;
     dirs := dirs st; files := files st; children := children st;
     spawned := spawned st; delivered := delivered st; signals := f (signals st);
     portKills := portKills st; now := now st |}.

Definition withPortKills (f : list Z -> list Z) (st : State) : State :=
  {| projects := projects st; processes := processes st; ports := ports st;
     usedPorts := usedPorts st; logSubscriptions := logSubscriptions st;
     dirs := dirs st; files := files st; children := children st;
     spawned := spawned st; delivered := delivered st; signals := signals st;
     portKills := f (portKills st); now := now st |}.

(** A manager just constructed, on a given disk and at a given time. *)
Definition fresh (d : gmap jsstring Z) (f : gmap jsstring jsstring) (t : Z) : State :=
  {| projects := ∅; processes := ∅; ports := ∅; usedPorts := ∅;
     logSubscriptions := ∅; dirs := d; files := f; children := ∅;
     spawned := 0%nat; delivered := []; signals := []; portKills := [];
     now := t |}.

(** *** Methods as state transformers that may throw *)

Definition M (A : Type) : Type := State -> State * Result A.

Definition ret {A} (a : A) : M A := fun st => (st, Ok a).
Definition throw {A} (e : Error) : M A := fun st => (st, Throw e).
Definition bind {A B} (m : M A) (k : A -> M B) : M B :=
  fun st =>
    match m st with
    | (st', Ok a) => k a st'
    | (st', Throw e) => (st', Throw e)
    end.
Definition gets {A} (f : State -> A) : M A := fun st => (st, Ok (f st)).
Definition modify (f : State -> State) : M unit := fun st => (f st, Ok tt).

(** [try { m } catch { }] *)
Definition tryCatch (m : M unit) : M unit :=
  fun st => (fst (m st), Ok tt).

Declare Scope js_scope.
Notation "'let!' x ':=' m 'in' k" := (bind m (fun x => k))
  (at level 10, x name, m at level 100, k at level 200) : js_scope.
Notation "m ';;' k" := (bind m (fun _ => k))
  (at level 100, k at level 200, right associativity) : js_scope.
Local Open Scope js_scope.

(** A [for ... of] loop whose body may throw. *)
Fixpoint forEach {A} (l : list A) (body : A -> M unit) : M unit :=
  match l with
  | [] => ret tt
  | x :: r => body x ;; forEach r body
  end.

Definition stateOf {A} (r : State * Result A) : State := fst r.
Definition resultOf {A} (r : State * Result A) : Result A := snd r.

(** *** The disk *)

Definition existsSync (p : jsstring) (st : State) : bool :=
  bool_decide (is_Some (dirs st !! p)) || bool_decide (is_Some (files st !! p)).

(** [mkdir(p, { recursive: true })]: every missing directory down to [p] is
    created; the call is rejected when a file is in the way. *)
Definition mkdir (p : jsstring) : M unit := fun st =>
  if forallb (fun d => bool_decide (files st !! d = None)) (Path.upTo p) then
    (withDirs (fun ds =>
       foldl (fun acc d => if acc !! d is Some _ then acc else <[d := now st]> acc)
             ds (Path.upTo p)) st, Ok tt)
  else (st, Throw (FsError p)).

(** [writeFile(p, content, 'utf-8')] of [fs/promises]: rejected on a
    directory, and when the directory of [p] is missing. *)
Definition fsWriteFile (p content : jsstring) : M unit := fun st =>
  if bool_decide (is_Some (dirs st !! p)) then (st, Throw (FsError p))
  else if bool_decide (is_Some (dirs st !! Path.join [p; js ".."])) then
    (withFiles <[p := content]> st, Ok tt)
  else (st, Throw (FsError p)).

(** *** Identifiers *)

Definition hexDigit (n : Z) : Z := if n <? 10 then 48 + n else 87 + n.

(** [buffer.toString('hex')] *)
Definition toHex (bytes : list byte) : jsstring :=
  flat_map (fun b => let n := Z.of_N (Byte.to_N b) in
                     [hexDigit (n / 16); hexDigit (n mod 16)]) bytes.

(** [generateId], given the bytes that [randomBytes(8)] returned. *)
Definition generateId (randomBytes : list byte) : jsstring := toHex randomBytes.

(** [name.toLowerCase().replace(/[^a-z0-9-]/g, '-')] *)
Definition sanitize (name : jsstring) : jsstring :=
  (fun c => if JS.inRange 97 122 c || JS.isDigit c || (c =? 45) then c else 45)
    <$> JS.toLowerCase name.

(** The directory name that [createProject] gives a project. *)
Definition directoryName (name id : jsstring) : jsstring :=
  sanitize name ++ js "-" ++ JS.slice0 6 id.

(** [entryName.match(/-([a-f0-9]+)$/)], its first group: the match starts
    at the leftmost dash that only lower-case hexadecimal digits follow. *)
Definition isHex (c : Z) : bool := JS.isDigit c || JS.inRange 97 102 c.
Fixpoint matchIdSuffix (entryName : jsstring) : option jsstring :=
  match entryName with
  | [] => None
  | c :: t =>
      if (c =? 45) && negb (bool_decide (t = [])) && forallb isHex t then Some t
      else matchIdSuffix t
  end.

(** The id the recovery scan gives the directory [entryName]; [randomBytes]
    feeds the [generateId] of the fallback. *)
Definition recoveredId (entryName : jsstring) (randomBytes : list byte) : jsstring :=
  match matchIdSuffix entryName with
  | Some suffix => suffix
  | None => generateId randomBytes
  end.

(** *** Ports *)

Definition portRange : list Z :=
  seqZ PORT_RANGE_START (PORT_RANGE_END - PORT_RANGE_START + 1).

Definition allocatePort : M Z := fun st =>
  match list_find (fun port => port ∉ usedPorts st) portRange with
  | Some (_, port) => (withUsedPorts (union {[port]}) st, Ok port)
  | None => (st, Throw PortExhausted)
  end.

Definition releasePort (port : Z) : M unit :=
  modify (withUsedPorts (fun used => used ∖ {[port]})).

(** *** Log fan-out *)

(** [log]: every callback subscribed to [projectId] is called once with the
    entry; a call is recorded in [delivered].  The order in which the
    callbacks of one entry run and the server console are not modelled. *)
Definition log (projectId : jsstring) (level : Level) (message : jsstring) : M unit :=
  fun st =>
    let logEntry := LogEntry.mk (now st) level message projectId in
    match logSubscriptions st !! projectId with
    | Some subscribers =>
        (withDelivered
           (fun d => d ++ ((fun callback => (callback, logEntry)) <$> elements subscribers))
           st, Ok tt)
    | None => (st, Ok tt)
    end.

Definition subscribeToLogs (projectId : jsstring) (callback : Listener) : M unit :=
  modify (fun st =>
    let st1 :=
      if logSubscriptions st !! projectId is Some _ then st
      else withLogSubscriptions <[projectId := ∅]> st in
    withLogSubscriptions (alter (union {[callback]}) projectId) st1).

Definition unsubscribeFromLogs (projectId : jsstring) (callback : Listener) : M unit :=
  modify (fun st =>
    match logSubscriptions st !! projectId with
    | Some subscribers =>
        withLogSubscriptions <[projectId := subscribers ∖ {[callback]}]> st
    | None => st
    end).

(** The deliveries a listener received among the calls recorded in [d]. *)
Definition deliveriesTo (callback : Listener) (d : list (Listener * LogEntry.t))
  : list LogEntry.t :=
  snd <$> filter (fun x => fst x = callback) d.

(** The deliveries made by one step from [st] to [st']. *)
Definition newDeliveries (st st' : State) : list (Listener * LogEntry.t) :=
  drop (length (delivered st)) (delivered st').

(** *** Creating a project *)

Record CreateParams := {
  param_name : jsstring;
  param_framework : jsstring;
  param_description : option jsstring
}.

(** [getTemplate]: the result is [null] for an unknown framework. *)
Definition getTemplate (cfg : Config) (framework : jsstring)
  : M (option (list (jsstring * jsstring))) :=
  let f := JS.toLowerCase framework in
  if bool_decide (f = js "react") then ret (Some (reactTemplate cfg))
  else if bool_decide (f ∈ [js "vue"; js "svelte"; js "angular"; js "laravel"])
       then throw (TemplateNotImplemented framework)
  else ret None.

(** [content.replace(/literal/g, replacement)], for a replacement without
    [$] patterns. *)
Fixpoint replaceAll (pattern replacement : jsstring) (skip : nat) (s : jsstring)
  : jsstring :=
  match s with
  | [] => []
  | c :: t =>
      match skip with
      | S k => replaceAll pattern replacement k t
      | O =>
          if JS.startsWith s pattern && negb (bool_decide (pattern = [])) then
            replacement ++ replaceAll pattern replacement (length pattern - 1) t
          else c :: replaceAll pattern replacement 0 t
      end
  end.

Definition orElse (o : option jsstring) (default : jsstring) : jsstring :=
  match o with
  | Some s => if bool_decide (s = []) then default else s
  | None => default
  end.

Definition generateProjectFiles (cfg : Config) (project : Project.t) : M unit :=
  log (Project.id project) info
    (js "Generating " ++ Project.framework project ++ js " template files...") ;;
  let! template := getTemplate cfg (Project.framework project) in
  match template with
  | None => throw (TemplateMissing (Project.framework project))
  | Some entries =>
      forEach entries (fun '(filePath, content) =>
        let processedContent :=
          replaceAll (js "{{DESCRIPTION}}")
            (orElse (Project.description project) (js "A new application")) 0
            (replaceAll (js "{{PROJECT_NAME}}") (Project.name project) 0 content) in
        let fullPath := Path.join [Project.path project; filePath] in
        let dir := Path.join [fullPath; js ".."] in
        mkdir dir ;;
        fsWriteFile fullPath processedContent) ;;
      log (Project.id project) success (js "Template files generated")
  end.

(** [createProject], given the bytes drawn by [generateId]. *)
Definition createProject (cfg : Config) (randomBytes : list byte)
  (params : CreateParams) : M Project.t :=
  let id := generateId randomBytes in
  let projectPath :=
    Path.join [PROJECTS_DIR cfg; directoryName (param_name params) id] in
  log id info (js "Creating project: " ++ param_name params) ;;
  mkdir projectPath ;;
  let! createdAt := gets now in
  let project :=
    Project.mk id (param_name params) (param_framework params)
      (param_description params) projectPath createdAt in
  modify (withProjects <[id := project]>) ;;
  generateProjectFiles cfg project ;;
  log id success (js "Project created at " ++ projectPath) ;;
  ret project.

(** *** Writing a file *)

Definition writeFile (cfg : Config) (projectId filePath content : jsstring) : M unit :=
  let! found := gets (fun st => projects st !! projectId) in
  match found with
  | None => throw (NotFound projectId)
  | Some project =>
      let fullPath := Path.resolve (cwd cfg) [Project.path project; filePath] in
      if negb (JS.startsWith fullPath (Project.path project)) then throw PathEscape
      else
        log projectId info (js "Writing file: " ++ filePath) ;;
        let dir := Path.join [fullPath; js ".."] in
        mkdir dir ;;
        fsWriteFile fullPath content ;;
        log projectId success (js "File written: " ++ filePath)
  end.

(** *** Dev servers *)

Definition showPort (port : option Z) : jsstring :=
  match port with
  | Some p => js (pretty p)
  | None => js "undefined"
  end.

Definition localhost (port : option Z) : jsstring :=
  js "http://localhost:" ++ showPort port.

Definition getStartCommand (framework : jsstring) (port : Z)
  : jsstring * list jsstring :=
  let f := JS.toLowerCase framework in
  let p := showPort (Some port) in
  if bool_decide (f ∈ [js "react"; js "vue"; js "svelte"]) then
    (js "npm", [js "run"; js "dev"; js "--"; js "--port"; p])
  else if bool_decide (f = js "angular") then
    (js "npm", [js "start"; js "--"; js "--port"; p])
  else if bool_decide (f = js "laravel") then
    (js "php", [js "artisan"; js "serve"; js "--port"; p])
  else (js "npm", [js "run"; js "dev"]).

(** [spawn]: the new child is numbered by the count of earlier spawns and
    recorded with what its [close] handler captures.  A spawn that fails
    returns a child as well: the failure is the [error] event that this
    child emits afterwards. *)
Definition spawn (captured : ChildInfo) : M Child := fun st =>
  let child := spawned st in
  (withSpawned S (withChildren <[child := captured]> st), Ok child).

(** [startDevServer], from its entry to its return, taken as one step:
    [port] is [undefined] in the result only if a tracked process has no
    recorded port.  The call with what happens during its wait of two
    seconds is [startDevServerAwaited]. *)
Definition startDevServer (projectId : jsstring) : M (option Z * jsstring) :=
  let! found := gets (fun st => projects st !! projectId) in
  match found with
  | None => throw (NotFound projectId)
  | Some project =>
      let! running := gets (fun st => processes st !! projectId) in
      match running with
      | Some _ =>
          let! port := gets (fun st => ports st !! projectId) in
          ret (port, localhost port)
      | None =>
          let! port := allocatePort in
          modify (withPorts <[projectId := port]>) ;;
          log projectId info
            (js "Starting dev server on port " ++ showPort (Some port) ++ js "...") ;;
          let '(command, args) := getStartCommand (Project.framework project) port in
          let! childProcess :=
            spawn {| c_projectId := projectId; c_port := port; c_command := command;
                     c_args := args; c_cwd := Project.path project |} in
          modify (withProcesses <[projectId := childProcess]>) ;;
          log projectId success
            (js "Dev server running at " ++ localhost (Some port)) ;;
          ret (Some port, localhost (Some port))
      end
  end.

(** The handler that [startDevServer] puts on the [close] event of the
    child it spawned, with the [projectId] and the [port] of that call; a
    child closes once. *)
Definition onClose (child : Child) (code : jsstring) : M unit :=
  let! registered := gets (fun st => children st !! child) in
  match registered with
  | None => ret tt
  | Some captured =>
      modify (withChildren (delete child)) ;;
      log (c_projectId captured) info (js "Dev server stopped with code " ++ code) ;;
      modify (withProcesses (delete (c_projectId captured))) ;;
      releasePort (c_port captured) ;;
      modify (withPorts (delete (c_projectId captured)))
  end.

(** The body of the loop that the [data] handlers of a dev server run on
    each complete line. *)
Definition onLine (child : Child) (line : jsstring) : M unit :=
  let! registered := gets (fun st => children st !! child) in
  match registered with
  | None => ret tt
  | Some captured =>
      match Classifier.classify line with
      | Some (level, cleaned) => log (c_projectId captured) level cleaned
      | None => ret tt
      end
  end.

(** What the operating system answers while a dev server is stopped. *)
Record Signals := {
  hasPid : bool;          (* [childProcess.pid] is set *)
  termThrows : bool;      (* [kill('SIGTERM')] throws *)
  killedFlag : bool;      (* [childProcess.killed] after the wait *)
  killThrows : bool;      (* [kill('SIGKILL')] throws *)
  lsofThrows : bool       (* the kill-by-port command is rejected *)
}.

Definition sendSignal (child : Child) (sig : Signal) (throws : bool) : M unit :=
  fun st =>
    if throws then (st, Throw (FsError []))
    else (withSignals (fun l => l ++ [(child, sig)]) st, Ok tt).

(** [lsof -ti:port | xargs kill -9 2>/dev/null || true] *)
Definition killByPort (port : Z) (throws : bool) : M unit :=
  fun st =>
    (withPortKills (fun l => l ++ [port]) st,
     if throws then Throw (FsError []) else Ok tt).

Definition stopDevServer (os : Signals) (projectId : jsstring) : M unit :=
  let! tracked := gets (fun st => processes st !! projectId) in
  match tracked with
  | None => ret tt
  | Some childProcess =>
      log projectId info (js "Stopping dev server...") ;;
      let! port := gets (fun st => ports st !! projectId) in
      (if hasPid os then
         tryCatch
           (sendSignal childProcess SIGTERM (termThrows os) ;;
            if negb (killedFlag os) then sendSignal childProcess SIGKILL (killThrows os)
            else ret tt)
       else ret tt) ;;
      (match port with
       | Some p =>
           if p =? 0 then ret tt
           else
             tryCatch (killByPort p (lsofThrows os)) ;;
             releasePort p ;;
             modify (withPorts (delete projectId))
       | None => ret tt
       end) ;;
      modify (withProcesses (delete projectId)) ;;
      log projectId success (js "Dev server stopped")
  end.

(** *** Status *)

Definition skippedNames : list jsstring :=
  [js "node_modules"; js ".git"; js "dist"; js "build"].

(** [listProjectFiles]: the files below the project directory, relative to
    it, outside the skipped names; the order of [readdir] is not modelled. *)
Definition listProjectFiles (projectPath : jsstring) (st : State) : list jsstring :=
  omap (fun p =>
          if JS.startsWith p (projectPath ++ [Path.slash]) then
            let relative := drop (S (length projectPath)) p in
            if forallb (fun seg => bool_decide (seg ∉ skippedNames)) (Path.split relative)
            then Some relative else None
          else None)
       (elements (dom (files st))).

Definition getProjectStatus (projectId : jsstring) : M ProjectStatus.t :=
  let! found := gets (fun st => projects st !! projectId) in
  match found with
  | None => throw (NotFound projectId)
  | Some project =>
      let! running := gets (fun st => bool_decide (is_Some (processes st !! projectId))) in
      let! port := gets (fun st => ports st !! projectId) in
      let! sentryConfigured := gets (fun st =>
        existsSync (Path.join [Project.path project; js "src"; js "sentry.ts"]) st ||
        existsSync (Path.join [Project.path project; js "sentry.config.ts"]) st) in
      let! files := gets (listProjectFiles (Project.path project)) in
      let truthy := match port with Some p => negb (p =? 0) | None => false end in
      let status := if running && truthy then ready else creating in
      let url := if truthy then Some (localhost port) else None in
      ret (ProjectStatus.mk (Project.id project) (Project.name project)
             (Project.framework project) (Project.description project)
             status running port url url files sentryConfigured)
  end.

(** [Promise.all] over the statuses of the registered ids. *)
Fixpoint mapM {A B} (f : A -> M B) (l : list A) : M (list B) :=
  match l with
  | [] => ret []
  | x :: r => let! y := f x in let! ys := mapM f r in ret (y :: ys)
  end.

Definition listProjects : M (list ProjectStatus.t) :=
  let! ids := gets (fun st => elements (dom (projects st))) in
  mapM getProjectStatus ids.

(** *** Start-up *)

(** The ports that the loop of [cleanupOrphanedProcesses] visits. *)
Definition sweptPorts : list Z :=
  seqZ PORT_RANGE_START
    (Z.min (PORT_RANGE_START + 10) PORT_RANGE_END - PORT_RANGE_START + 1).

Definition cleanupOrphanedProcesses (throws : Z -> bool) : M unit :=
  tryCatch
    (forEach sweptPorts (fun port => tryCatch (killByPort port (throws port)))).

Definition truthyDep (deps : gmap jsstring jsstring) (k : jsstring) : bool :=
  match deps !! k with
  | Some v => negb (bool_decide (v = []))
  | None => false
  end.

Definition detectFramework (packageJson : Manifest.t) : jsstring :=
  let deps := Manifest.devDependencies packageJson ∪ Manifest.dependencies packageJson in
  if truthyDep deps (js "react") then js "react"
  else if truthyDep deps (js "vue") then js "vue"
  else if truthyDep deps (js "svelte") then js "svelte"
  else if truthyDep deps (js "@angular/core") then js "angular"
  else if truthyDep deps (js "laravel") then js "laravel"
  else js "react".

(** The names that [readdir] reports as directories of [root]. *)
Definition directoryEntries (root : jsstring) (st : State) : list jsstring :=
  omap (fun p =>
          if JS.startsWith p (root ++ [Path.slash]) then
            let entryName := drop (S (length root)) p in
            if bool_decide (entryName ≠ []) && bool_decide (Path.slash ∉ entryName)
            then Some entryName else None
          else None)
       (elements (dom (dirs st))).

(** The body of the loop of [loadProjectsFromDisk] for one directory; an
    unreadable manifest is caught and the directory is passed over. *)
Definition loadEntry (cfg : Config) (randomBytes : list byte) (entryName : jsstring)
  : M unit := fun st =>
  let projectPath := Path.join [PROJECTS_DIR cfg; entryName] in
  let packageJsonPath := Path.join [projectPath; js "package.json"] in
  if negb (existsSync packageJsonPath st) then (st, Ok tt)
  else
    match files st !! packageJsonPath ≫= parseJson cfg, dirs st !! projectPath with
    | Some packageJson, Some birthtime =>
        let id := recoveredId entryName randomBytes in
        let project :=
          Project.mk id
            (orElse (Manifest.name packageJson) entryName)
            (detectFramework packageJson)
            (Manifest.description packageJson)
            projectPath birthtime in
        (withProjects <[id := project]> st, Ok tt)
    | _, _ => (st, Ok tt)
    end.

(** [loadProjectsFromDisk]; [random i] is what [randomBytes(8)] would
    return for the [i]-th directory. *)
Definition loadProjectsFromDisk (cfg : Config) (random : nat -> list byte) : M unit :=
  fun st =>
    if negb (existsSync (PROJECTS_DIR cfg) st) then (st, Ok tt)
    else
      forEach (imap (fun i entryName => (i, entryName))
                 (directoryEntries (PROJECTS_DIR cfg) st))
        (fun '(i, entryName) => loadEntry cfg (random i) entryName) st.

(** [init], which the constructor starts. *)
Definition init (cfg : Config) (throws : Z -> bool) (random : nat -> list byte) : M unit :=
  (let! present := gets (existsSync (PROJECTS_DIR cfg)) in
   if present then ret tt else mkdir (PROJECTS_DIR cfg)) ;;
  cleanupOrphanedProcesses throws ;;
  loadProjectsFromDisk cfg random.

(** *** Sequences of dev-server operations *)

Inductive Op :=
| Start (projectId : jsstring)
| Stop (os : Signals) (projectId : jsstring).

Definition runOp (st : State) (op : Op) : State :=
  match op with
  | Start projectId => stateOf (startDevServer projectId st)
  | Stop os projectId => stateOf (stopDevServer os projectId st)
  end.

Definition runOps (ops : list Op) (st : State) : State := foldl runOp st ops.

(** What happens to a manager: one of the two operations is called and
    runs to its end, or a child closes and the handler put on it by
    [startDevServer] runs. *)
Inductive Event :=
| Call (op : Op)
| ChildClosed (child : Child) (code : jsstring).

Definition runEvent (st : State) (e : Event) : State :=
  match e with
  | Call op => runOp st op
  | ChildClosed child code => stateOf (onClose child code st)
  end.

Definition runEvents (events : list Event) (st : State) : State :=
  foldl runEvent st events.

(** No dev server is tracked and no port is taken: the manager as its
    constructor and the start-up leave it. *)
Definition idle (st : State) : Prop :=
  processes st = ∅ ∧ ports st = ∅ ∧ usedPorts st = ∅.

(** The ports held by the process handles: a handle is an entry of
    [processes] together with the entry of [ports] for the same project. *)
Definition heldPorts (st : State) : gset Z :=
  map_img (filter (fun kv => is_Some (processes st !! fst kv)) (ports st)).

Definition holds (st : State) (projectId : jsstring) (port : Z) : Prop :=
  is_Some (processes st !! projectId) ∧ ports st !! projectId = Some port.

(** What the dev-server operations keep true of the three maps: a project
    has a tracked process exactly when it has a recorded port, the ports in
    use are the recorded ones, no two projects record the same port, and
    recorded ports lie in the managed range. *)
Record consistent (st : State) : Prop := {
  tracked_iff_recorded :
    forall projectId, is_Some (processes st !! projectId) <-> is_Some (ports st !! projectId);
  used_iff_recorded :
    forall port, port ∈ usedPorts st <-> exists projectId, ports st !! projectId = Some port;
  recorded_once :
    forall a b port, ports st !! a = Some port -> ports st !! b = Some port -> a = b;
  recorded_in_range :
    forall projectId port, ports st !! projectId = Some port ->
                           PORT_RANGE_START <= port <= PORT_RANGE_END
}.

(** The part of it that every event keeps: processes and ports are
    recorded for the same projects, and recorded ports lie in the managed
    range. *)
Record paired (st : State) : Prop := {
  paired_tracked :
    forall projectId, is_Some (processes st !! projectId) <-> is_Some (ports st !! projectId);
  paired_in_range :
    forall projectId port, ports st !! projectId = Some port ->
                           PORT_RANGE_START <= port <= PORT_RANGE_END
}.

(** The listeners subscribed to a project. *)
Definition subscribers (st : State) (projectId : jsstring) : gset Listener :=
  default ∅ (logSubscriptions st !! projectId).

(** Publishing a list of entries for one project, one [log] call each. *)
Definition publishAll (projectId : jsstring) (entries : list (Level * jsstring))
  (st : State) : State :=
  foldl (fun s e => stateOf (log projectId (fst e) (snd e) s)) st entries.

(** ** The reconnecting client of [useProjectManager.ts] *)

Module Client.

Definition maxReconnectDelay : Z := 10000.

(** The variables of the effect: the counter and the flag, the socket of
    the running [connect] call with the [delay] that call computed, and
    the delays handed to [setTimeout(connect, _)] so far. *)
Record State := {
  reconnectAttempts : nat;
  isCleanup : bool;
  connected : bool;
  socket : option Z;
  scheduled : list Z
}.

(** What can happen: a timer runs [connect] (and [new WebSocket] throws or
    not), the socket opens, the socket closes, the effect is cleaned up. *)
Inductive Event :=
| Timer (constructorThrows : bool)
| Open
| Close
| Cleanup.

(** [Math.min(1000 * Math.pow(2, reconnectAttempts), maxReconnectDelay)] *)
Definition backoff (reconnectAttempts : nat) : Z :=
  Z.min (1000 * 2 ^ Z.of_nat reconnectAttempts) maxReconnectDelay.

(** The effect once mounted: [setTimeout(connect, 500)]. *)
Definition mounted : State :=
  {| reconnectAttempts := 0; isCleanup := false; connected := false;
     socket := None; scheduled := [500] |}.

Definition connect (constructorThrows : bool) (st : State) : State :=
  if isCleanup st then st
  else
    let delay := backoff (reconnectAttempts st) in
    if constructorThrows then
      {| reconnectAttempts := S (reconnectAttempts st); isCleanup := isCleanup st;
         connected := connected st; socket := socket st;
         scheduled := scheduled st ++ [delay] |}
    else
      {| reconnectAttempts := reconnectAttempts st; isCleanup := isCleanup st;
         connected := connected st; socket := Some delay;
         scheduled := scheduled st |}.

Definition onopen (st : State) : State :=
  match socket st with
  | Some delay =>
      {| reconnectAttempts := 0; isCleanup := isCleanup st; connected := true;
         socket := Some delay; scheduled := scheduled st |}
  | None => st
  end.

Definition onclose (st : State) : State :=
  match socket st with
  | Some delay =>
      if isCleanup st then
        {| reconnectAttempts := reconnectAttempts st; isCleanup := true;
           connected := false; socket := None; scheduled := scheduled st |}
      else
        {| reconnectAttempts := S (reconnectAttempts st); isCleanup := false;
           connected := false; socket := None;
           scheduled := scheduled st ++ [delay] |}
  | None => st
  end.

Definition cleanup (st : State) : State :=
  {| reconnectAttempts := reconnectAttempts st; isCleanup := true;
     connected := connected st; socket := socket st; scheduled := scheduled st |}.

Definition step (st : State) (e : Event) : State :=
  match e with
  | Timer constructorThrows => connect constructorThrows st
  | Open => onopen st
  | Close => onclose st
  | Cleanup => cleanup st
  end.

Definition run (events : list Event) (st : State) : State := foldl step st events.

(** The delay of the reconnect that a [close] schedules, if it schedules
    one. *)
Definition closeDelay (st : State) : option Z :=
  match socket st with
  | Some delay => if isCleanup st then None else Some delay
  | None => None
  end.

(** [n] connection attempts in a row that close without opening. *)
Definition failures (n : nat) : list Event :=
  concat (replicate n [Timer false; Close]).

(** Two attempts fail, the third opens. *)
Definition reopened : list Event := failures 2 ++ [Timer false; Open].

End Client.

(** ** Three registered projects

    A manager that knows the projects [alpha], [beta] and [gamma] and runs
    no dev server. *)

Definition registered (projectId : jsstring) : Project.t :=
  Project.mk projectId projectId (js "react") None
    (js "/srv/app/projects/" ++ projectId) 0.

Definition threeProjects : State :=
  withProjects
    (fun _ => {[ js "alpha" := registered (js "alpha");
                 js "beta" := registered (js "beta");
                 js "gamma" := registered (js "gamma") ]})
    (fresh ∅ ∅ 0).

Definition quiet : Signals :=
  {| hasPid := true; termThrows := false; killedFlag := true;
     killThrows := false; lsofThrows := false |}.

Definition failing : Signals :=
  {| hasPid := true; termThrows := true; killedFlag := false;
     killThrows := true; lsofThrows := true |}.

(** [alpha] is started and stopped, [beta] is started, and then the child
    that ran [alpha], the first one spawned, closes. *)
Definition lateClose : list Event :=
  [Call (Start (js "alpha")); Call (Stop quiet (js "alpha"));
   Call (Start (js "beta")); ChildClosed 0%nat (js "0")].

(** Calls on the three projects, with signals that fail. *)
Definition sampleCalls : list Event :=
  [Call (Start (js "alpha")); Call (Start (js "beta"));
   Call (Stop failing (js "alpha")); Call (Start (js "gamma"));
   ChildClosed 1%nat (js "1")].

(** ** A sample run

    A server started in [/srv/app] with a two-file template creates the
    project [Todo]; later the server is restarted on the same disk. *)

Definition sampleManifest : Manifest.t :=
  Manifest.mk (Some (js "Todo")) None {[ js "react" := js "^18.0.0" ]} ∅.

Definition sampleConfig : Config :=
  {| cwd := js "/srv/app";
     reactTemplate :=
       [(js "package.json", js "{ name: {{PROJECT_NAME}} }");
        (js "src/main.tsx", js "render({{PROJECT_NAME}})")];
     parseJson := fun _ => Some sampleManifest |}.

Definition sampleBytes : list byte := [xab; xc1; x23; xde; xf4; x56; x78; x90].

Definition sampleParams (framework : jsstring) : CreateParams :=
  {| param_name := js "Todo"; param_framework := framework;
     param_description := None |}.

Definition sampleId : jsstring := generateId sampleBytes.

Definition afterCreate : State :=
  stateOf (createProject sampleConfig sampleBytes (sampleParams (js "react"))
             (fresh ∅ ∅ 0)).

(** The manager of the restarted server, after its start-up scan. *)
Definition afterRestart : State :=
  stateOf (loadProjectsFromDisk sampleConfig (fun _ => [])
             (fresh (dirs afterCreate) (files afterCreate) 1)).

(** A path that leaves the project directory for a sibling whose name
    extends the name of the project directory. *)
Definition siblingPath : jsstring := js "../todo-abc1234/evil.txt".
Definition siblingTarget : jsstring := js "/srv/app/projects/todo-abc1234/evil.txt".

(** ** The other methods of the manager *)

(** Surrogate code units: a high one followed by a low one encodes a
    character outside the Basic Multilingual Plane. *)
Definition isHighSurrogate (c : Z) : bool := JS.inRange 55296 56319 c.
Definition isLowSurrogate (c : Z) : bool := JS.inRange 56320 57343 c.

(** [String.prototype.isWellFormed]: no surrogate without its partner. *)
Fixpoint isWellFormed (s : jsstring) : bool :=
  match s with
  | [] => true
  | c :: t =>
      if isHighSurrogate c then
        match t with
        | d :: t' => isLowSurrogate d && isWellFormed t'
        | [] => false
        end
      else negb (isLowSurrogate c) && isWellFormed t
  end.

(** What a string is after it was encoded as UTF-8 and decoded again:
    UTF-8 has no encoding for a surrogate without its partner, which is
    written as U+FFFD; every other code unit comes back as it was. *)
Fixpoint throughUtf8 (s : jsstring) : jsstring :=
  match s with
  | [] => []
  | c :: t =>
      if isHighSurrogate c then
        match t with
        | d :: t' =>
            if isLowSurrogate d then c :: d :: throughUtf8 t'
            else 65533 :: throughUtf8 t
        | [] => [65533]
        end
      else if isLowSurrogate c then 65533 :: throughUtf8 t
      else c :: throughUtf8 t
  end.

(** [readFile(p, 'utf-8')] of [fs/promises].  The disk of the model keeps
    for each file the string that was handed to [writeFile(p, _, 'utf-8')];
    what the encoding does to it shows when the file is read. *)
Definition fsReadFile (p : jsstring) : M jsstring := fun st =>
  match files st !! p with
  | Some content => (st, Ok (throughUtf8 content))
  | None => (st, Throw (FsError p))
  end.

(** [readProjectFile]; the message of its path error is
    [Invalid file path], and a failed read is thrown again as
    [Failed to read file: ...]. *)
Definition readProjectFile (cfg : Config) (projectId filePath : jsstring) : M jsstring :=
  let! found := gets (fun st => projects st !! projectId) in
  match found with
  | None => throw (NotFound projectId)
  | Some project =>
      let fullPath :=
        Path.resolve (cwd cfg) [Path.join [Project.path project; filePath]] in
      if negb (JS.startsWith fullPath (Path.resolve (cwd cfg) [Project.path project]))
      then throw PathEscape
      else fsReadFile fullPath
  end.

(** The text that [configureSentry] writes. *)
Definition envContent (sentryDsn : jsstring) : jsstring :=
  js "# Sentry Configuration" ++ [10] ++ js "VITE_SENTRY_DSN=" ++ sentryDsn ++ [10].

Definition configureSentry (projectId sentryDsn : jsstring) : M unit :=
  let! found := gets (fun st => projects st !! projectId) in
  match found with
  | None => throw (NotFound projectId)
  | Some project =>
      log projectId info (js "Configuring Sentry integration...") ;;
      let envFilePath := Path.join [Project.path project; js ".env"] in
      fsWriteFile envFilePath (envContent sentryDsn) ;;
      log projectId success (js "Sentry DSN configured in .env file (gitignored)")
  end.

(** [cleanup]: every tracked process is stopped, and a stop that fails is
    caught; [os] says what the signals do for each project.  The stops,
    which the source starts together, are taken in the order of the keys:
    each works on the entries of its own project. *)
Definition cleanup (os : jsstring -> Signals) : M unit :=
  let! ids := gets (fun st => elements (dom (processes st))) in
  forEach ids (fun projectId => tryCatch (stopDevServer (os projectId) projectId)).

(** A segment that [normalizeString] keeps as it is. *)
Definition plain (seg : jsstring) : Prop :=
  seg <> [] /\ seg <> js "." /\ seg <> js ".." /\ Path.slash ∉ seg.

(** The stack of segments that [normalizeString] builds for an absolute
    path. *)
Definition segmentStack (path : jsstring) : list jsstring :=
  foldl (Path.pushSegment false) [] (Path.split path).

(** An absolute path in the form [path.resolve] returns: a slash, then
    plain segments separated by single slashes. *)
Definition normalized (path : jsstring) : Prop :=
  exists stack, Forall plain stack /\
                path = Path.slash :: Path.joinSegments (rev stack).

(** A method keeps a view [f] of the state when the view is the same
    after it, whether it returns or throws. *)
Definition keeps {B A : Type} (f : State -> B) (m : M A) : Prop :=
  forall st, f (stateOf (m st)) = f st.

(** The status that [getProjectStatus] answers, if it answers. *)
Definition statusOf (projectId : jsstring) (st : State) : option ProjectStatus.t :=
  match resultOf (getProjectStatus projectId st) with
  | Ok status => Some status
  | Throw _ => None
  end.

(** ** Output of child processes *)

(** [s.split(sep)] for a separator of one code unit *)
Fixpoint splitOn (sep : Z) (s : jsstring) : list jsstring :=
  match s with
  | [] => [[]]
  | c :: t =>
      if c =? sep then [] :: splitOn sep t
      else match splitOn sep t with
           | h :: r => (c :: h) :: r
           | [] => [[c]]
           end
  end.

Definition newline : Z := 10.

(** What a [data] handler does with its buffer: the data is appended, the
    text is split at the newlines, the last piece ([lines.pop() || ''])
    is the new buffer and the pieces before it are the complete lines. *)
Definition takeLines (buffer data : jsstring) : list jsstring * jsstring :=
  let lines := splitOn newline (buffer ++ data) in
  (removelast lines, default [] (last lines)).

(** Complete lines put back together, each with its newline. *)
Definition unlines (lines : list jsstring) : jsstring :=
  concat ((fun line => line ++ [newline]) <$> lines).

(** The loop over the complete lines in the handlers of a dev server,
    for [stdout] and for [stderr] alike. *)
Definition logLines (projectId : jsstring) (lines : list jsstring) : M unit :=
  forEach lines (fun line =>
    let cleaned := Classifier.cleanLogLine line in
    if bool_decide (cleaned = []) then ret tt
    else log projectId (Classifier.detectLogLevel cleaned) cleaned).

(** A [data] handler of [startDevServer] from [data.toString()] on; the
    buffer is the variable of the closure, given and returned. *)
Definition onDevServerText (projectId buffer message : jsstring) : M jsstring :=
  let '(lines, rest) := takeLines buffer message in
  logLines projectId lines ;; ret rest.

(** A [data] handler of [startDevServer]: the chunk is a [Buffer], which
    [toString] decodes on its own. *)
Definition onDevServerData (toString : list byte -> jsstring)
  (projectId buffer : jsstring) (data : list byte) : M jsstring :=
  onDevServerText projectId buffer (toString data).

(** Several chunks, one handler call each. *)
Fixpoint onDevServerChunks (toString : list byte -> jsstring)
  (projectId buffer : jsstring) (chunks : list (list byte)) : M jsstring :=
  match chunks with
  | [] => ret buffer
  | data :: more =>
      let! rest := onDevServerData toString projectId buffer data in
      onDevServerChunks toString projectId rest more
  end.

(** *** Decoding as UTF-8 *)

(** The bytes of a [Buffer], written as numbers. *)
Definition octets (l : list Z) : list byte :=
  omap (fun z => Byte.of_N (Z.to_N z)) l.

(** A decoder between two bytes: the code point collected so far, the
    number of continuation bytes still expected and the range allowed for
    the next byte. *)
Record Utf8 := {
  codePoint : Z;
  needed : nat;
  lower : Z;
  upper : Z
}.

Definition utf8Idle : Utf8 :=
  {| codePoint := 0; needed := 0; lower := 128; upper := 191 |}.

(** A code point as UTF-16. *)
Definition codeUnits (cp : Z) : jsstring :=
  if cp <? 65536 then [cp]
  else [55296 + (cp - 65536) / 1024; 56320 + (cp - 65536) mod 1024].

(** A byte read when no character is open. *)
Definition utf8Lead (b : Z) : Utf8 * jsstring :=
  if b <=? 127 then (utf8Idle, [b])
  else if JS.inRange 194 223 b then
    ({| codePoint := b - 192; needed := 1; lower := 128; upper := 191 |}, [])
  else if JS.inRange 224 239 b then
    ({| codePoint := b - 224; needed := 2;
        lower := if b =? 224 then 160 else 128;
        upper := if b =? 237 then 159 else 191 |}, [])
  else if JS.inRange 240 244 b then
    ({| codePoint := b - 240; needed := 3;
        lower := if b =? 240 then 144 else 128;
        upper := if b =? 244 then 143 else 191 |}, [])
  else (utf8Idle, [65533]).

(** One byte: a byte that cannot continue the open character ends it
    with U+FFFD and is read again as a first byte. *)
Definition utf8Step (s : Utf8) (b : Z) : Utf8 * jsstring :=
  match needed s with
  | O => utf8Lead b
  | S n =>
      if JS.inRange (lower s) (upper s) b then
        let cp := codePoint s * 64 + (b - 128) in
        match n with
        | O => (utf8Idle, codeUnits cp)
        | S _ => ({| codePoint := cp; needed := n; lower := 128; upper := 191 |}, [])
        end
      else let '(s', out) := utf8Lead b in (s', 65533 :: out)
  end.

(** A character left open at the end of the bytes gives U+FFFD. *)
Fixpoint utf8Run (s : Utf8) (bytes : list byte) : jsstring :=
  match bytes with
  | [] => match needed s with O => [] | S _ => [65533] end
  | b :: rest =>
      let '(s', out) := utf8Step s (Z.of_N (Byte.to_N b)) in
      out ++ utf8Run s' rest
  end.

(** [buffer.toString()] with its default encoding. *)
Definition utf8Decode (bytes : list byte) : jsstring := utf8Run utf8Idle bytes.

(** *** [installDependencies] *)

Inductive Stream := Stdout | Stderr.

(** What the install process can emit. *)
Inductive InstallEvent :=
| Data (stream : Stream) (message : jsstring)
| Close (code : option Z)
| Failure (message : jsstring).

(** How the promise of [installDependencies] is settled. *)
Inductive InstallOutcome :=
| Resolved (output : jsstring)          (* { success: true, output } *)
| RejectedWithCode (code : option Z)    (* Installation failed with code <code> *)
| RejectedWithError (message : jsstring).

(** The variables of the promise body, and the settlement if there is
    one. *)
Record InstallRun := {
  output : jsstring;
  stdoutBuffer : jsstring;
  stderrBuffer : jsstring;
  settled : option InstallOutcome
}.

Definition showCode (code : option Z) : jsstring :=
  match code with
  | Some z => js (pretty z)
  | None => js "null"
  end.

(** A promise is settled by the first [resolve] or [reject]. *)
Definition settle (run : InstallRun) (outcome : InstallOutcome) : InstallRun :=
  {| output := output run; stdoutBuffer := stdoutBuffer run;
     stderrBuffer := stderrBuffer run;
     settled := match settled run with
                | Some first => Some first
                | None => Some outcome
                end |}.

Definition onInstallEvent (projectId : jsstring) (run : InstallRun) (e : InstallEvent)
  : M InstallRun :=
  match e with
  | Data Stdout message =>
      let '(lines, rest) := takeLines (stdoutBuffer run) message in
      forEach lines (fun line =>
        let cleaned := Classifier.cleanLogLine line in
        if bool_decide (cleaned = []) then ret tt
        else log projectId info cleaned) ;;
      ret {| output := output run ++ message; stdoutBuffer := rest;
             stderrBuffer := stderrBuffer run; settled := settled run |}
  | Data Stderr message =>
      let '(lines, rest) := takeLines (stderrBuffer run) message in
      logLines projectId lines ;;
      ret {| output := output run ++ message; stdoutBuffer := stdoutBuffer run;
             stderrBuffer := rest; settled := settled run |}
  | Close code =>
      if bool_decide (code = Some 0) then
        log projectId success (js "Dependencies installed successfully") ;;
        ret (settle run (Resolved (output run)))
      else
        log projectId error (js "Installation failed with code " ++ showCode code) ;;
        ret (settle run (RejectedWithCode code))
  | Failure message =>
      log projectId error (js "Installation error: " ++ message) ;;
      ret (settle run (RejectedWithError message))
  end.

Fixpoint onInstallEvents (projectId : jsstring) (run : InstallRun)
  (events : list InstallEvent) : M InstallRun :=
  match events with
  | [] => ret run
  | e :: more =>
      let! next := onInstallEvent projectId run e in
      onInstallEvents projectId next more
  end.

(** [installDependencies], with what the spawned package manager emits;
    the result is the settlement of the promise, if the events settle
    it. *)
Definition installDependencies (projectId packageManager : jsstring)
  (events : list InstallEvent) : M (option InstallOutcome) :=
  let! found := gets (fun st => projects st !! projectId) in
  match found with
  | None => throw (NotFound projectId)
  | Some project =>
      log projectId info
        (js "Installing dependencies with " ++ packageManager ++ js "...") ;;
      let! run :=
        onInstallEvents projectId
          {| output := []; stdoutBuffer := []; stderrBuffer := []; settled := None |}
          events in
      ret (settled run)
  end.

(** ** The log buffer of the client *)

Module ClientLogs.

Definition MAX_LOGS : nat := 500.

(** [l.slice(-n)] for a positive [n]: the last [n] elements, or all of
    them when there are fewer. *)
Definition sliceLast {A} (n : nat) (l : list A) : list A :=
  drop (length l - n) l.

(** The logs the hook starts with, from what session storage holds. *)
Definition initialLogs {A} (saved : list A) : list A := sliceLast MAX_LOGS saved.

(** The update of [setLogs] when a [log] message arrives. *)
Definition onLogMessage {A} (prev : list A) (entry : A) : list A :=
  sliceLast MAX_LOGS (prev ++ [entry]).

Definition receive {A} (logs : list A) (entries : list A) : list A :=
  foldl onLogMessage logs entries.

End ClientLogs.

(** ** The WebSocket sessions of [index.ts] *)

Module Session.

(** A socket handed to the [connection] handler, and the objects the
    server creates: both are told apart by the order of their creation. *)
Abbreviation Socket := nat.

(** A value that is no string, as [JSON.parse] can leave it in
    [data.projectId] ([undefined] when the message has no such field),
    taken up to the equality of [Map] keys: whether the value is truthy,
    and a number that tells such values apart.  [undefined], [null],
    [false] and [0] are falsy; [true], the other numbers, the objects and
    the arrays are truthy. *)
Record NonString := {
  truthy : bool;
  which : nat
}.

#[global] Instance NonString_eq_dec : EqDecision NonString.
Proof. solve_decision. Defined.

#[global] Instance NonString_countable : Countable NonString.
Proof.
  refine (inj_countable' (fun v => (truthy v, which v))
            (fun p => {| truthy := fst p; which := snd p |}) _).
  intros []; reflexivity.
Defined.

(** What [data.projectId] can be. *)
Inductive ProjectId :=
| Str (s : jsstring)
| NonStr (v : NonString).

(** Truthiness: of the strings only the empty one is falsy. *)
Definition isTruthy (projectId : ProjectId) : bool :=
  match projectId with
  | Str [] => false
  | Str (_ :: _) => true
  | NonStr v => truthy v
  end.

(** An entry of [wsClients]: [null] is [None]. *)
Record ClientData := {
  ws_projectId : option ProjectId;
  ws_callback : option Listener
}.

(** The server: its project manager, the entries of the manager's
    [logSubscriptions] whose key is no string (the manager itself only
    looks up strings), the map [wsClients], the number of connections
    accepted and the number of callbacks created so far. *)
Record Server := {
  projectManager : State;
  otherKeys : gmap NonString (gset Listener);
  wsClients : gmap Socket ClientData;
  sockets : nat;
  callbacks : nat
}.

(** [projectManager.subscribeToLogs(projectId, callback)] as [index.ts]
    calls it, with whatever value the message carried. *)
Definition subscribe (projectId : ProjectId) (callback : Listener) (srv : Server)
  : Server :=
  match projectId with
  | Str s =>
      {| projectManager := stateOf (subscribeToLogs s callback (projectManager srv));
         otherKeys := otherKeys srv;
         wsClients := wsClients srv; sockets := sockets srv;
         callbacks := callbacks srv |}
  | NonStr v =>
      let present :=
        if otherKeys srv !! v is Some _ then otherKeys srv
        else <[v := ∅]> (otherKeys srv) in
      {| projectManager := projectManager srv;
         otherKeys := alter (union {[callback]}) v present;
         wsClients := wsClients srv; sockets := sockets srv;
         callbacks := callbacks srv |}
  end.

(** [projectManager.unsubscribeFromLogs(projectId, callback)], likewise. *)
Definition unsubscribe (projectId : ProjectId) (callback : Listener) (srv : Server)
  : Server :=
  match projectId with
  | Str s =>
      {| projectManager := stateOf (unsubscribeFromLogs s callback (projectManager srv));
         otherKeys := otherKeys srv;
         wsClients := wsClients srv; sockets := sockets srv;
         callbacks := callbacks srv |}
  | NonStr v =>
      {| projectManager := projectManager srv;
         otherKeys :=
           match otherKeys srv !! v with
           | Some subscribers => <[v := subscribers ∖ {[callback]}]> (otherKeys srv)
           | None => otherKeys srv
           end;
         wsClients := wsClients srv; sockets := sockets srv;
         callbacks := callbacks srv |}
  end.

(** The callbacks subscribed under a key. *)
Definition subscribersOf (srv : Server) (projectId : ProjectId) : gset Listener :=
  match projectId with
  | Str s => subscribers (projectManager srv) s
  | NonStr v => default ∅ (otherKeys srv !! v)
  end.

(** What [JSON.parse(message.toString())] gives: a subscription request
    with its [projectId], or anything else (a value of another shape, or
    text that is no JSON, for which the exception is caught and
    reported). *)
Inductive Message :=
| Subscribe (projectId : ProjectId)
| Other.

(** [clientData.callback && clientData.projectId]: a callback that is not
    [null] and a project id that is truthy. *)
Definition bound (clientData : ClientData) : option (ProjectId * Listener) :=
  match ws_callback clientData, ws_projectId clientData with
  | Some callback, Some projectId =>
      if isTruthy projectId then Some (projectId, callback) else None
  | _, _ => None
  end.

(** [wss.on("connection", ...)]: the socket gets an entry without
    subscription. *)
Definition onConnection (srv : Server) : Server :=
  {| projectManager := projectManager srv;
     otherKeys := otherKeys srv;
     wsClients :=
       <[sockets srv := {| ws_projectId := None; ws_callback := None |}]> (wsClients srv);
     sockets := S (sockets srv);
     callbacks := callbacks srv |}.

(** [wsClients.set(ws, clientData)] *)
Definition setClient (ws : Socket) (clientData : ClientData) (srv : Server) : Server :=
  {| projectManager := projectManager srv;
     otherKeys := otherKeys srv;
     wsClients := <[ws := clientData]> (wsClients srv);
     sockets := sockets srv;
     callbacks := callbacks srv |}.

(** The evaluation of the function expression for [callback]: a new
    function object. *)
Definition newCallback (srv : Server) : Server :=
  {| projectManager := projectManager srv;
     otherKeys := otherKeys srv;
     wsClients := wsClients srv;
     sockets := sockets srv;
     callbacks := S (callbacks srv) |}.

(** [ws.on("message", ...)] *)
Definition onMessage (ws : Socket) (data : Message) (srv : Server) : Server :=
  match data with
  | Subscribe projectId =>
      match wsClients srv !! ws with
      | None => srv
      | Some clientData =>
          let unsubscribed :=
            match bound clientData with
            | Some (previous, callback) => unsubscribe previous callback srv
            | None => srv
            end in
          let callback := callbacks srv in
          setClient ws {| ws_projectId := Some projectId; ws_callback := Some callback |}
            (subscribe projectId callback (newCallback unsubscribed))
      end
  | Other => srv
  end.

(** [wsClients.delete(ws)] *)
Definition deleteClient (ws : Socket) (srv : Server) : Server :=
  {| projectManager := projectManager srv;
     otherKeys := otherKeys srv;
     wsClients := delete ws (wsClients srv);
     sockets := sockets srv;
     callbacks := callbacks srv |}.

(** [ws.on("close", ...)] *)
Definition onClose (ws : Socket) (srv : Server) : Server :=
  let unsubscribed :=
    match wsClients srv !! ws with
    | Some clientData =>
        match bound clientData with
        | Some (projectId, callback) => unsubscribe projectId callback srv
        | None => srv
        end
    | None => srv
    end in
  deleteClient ws unsubscribed.

(** What happens to the server: a client connects, a message arrives on a
    socket, a socket closes, or the manager logs a record. *)
Inductive Event :=
| Connection
| OnMessage (ws : Socket) (data : Message)
| OnClose (ws : Socket)
| Published (projectId : jsstring) (level : Level) (message : jsstring).

Definition step (srv : Server) (e : Event) : Server :=
  match e with
  | Connection => onConnection srv
  | OnMessage ws data => onMessage ws data srv
  | OnClose ws => onClose ws srv
  | Published projectId level message =>
      {| projectManager := stateOf (log projectId level message (projectManager srv));
         otherKeys := otherKeys srv;
         wsClients := wsClients srv;
         sockets := sockets srv;
         callbacks := callbacks srv |}
  end.

Definition run (events : list Event) (srv : Server) : Server := foldl step srv events.

(** The server when it starts to listen, around the manager [st]. *)
Definition listening (st : State) : Server :=
  {| projectManager := st; otherKeys := ∅; wsClients := ∅;
     sockets := 0; callbacks := 0 |}.

(** A request that names a project: its [projectId] is truthy. *)
Definition namesProject (e : Event) : Prop :=
  match e with
  | OnMessage _ (Subscribe projectId) => isTruthy projectId = true
  | _ => True
  end.

(** The subscription of a socket, as its entry of [wsClients] has it. *)
Definition subscription (projectId : ProjectId) (callback : Listener) : ClientData :=
  {| ws_projectId := Some projectId; ws_callback := Some callback |}.

(** What the handlers maintain as long as every request names a project. *)
Record tidy (srv : Server) : Prop := {
  tidy_entry : forall ws clientData,
    wsClients srv !! ws = Some clientData ->
    (ws < sockets srv)%nat /\
    (clientData = {| ws_projectId := None; ws_callback := None |} \/
     exists projectId callback,
       clientData = subscription projectId callback /\ isTruthy projectId = true /\
       (callback < callbacks srv)%nat /\
       callback ∈ subscribersOf srv projectId);
  tidy_subscriber : forall projectId callback,
    callback ∈ subscribersOf srv projectId ->
    exists ws, wsClients srv !! ws = Some (subscription projectId callback);
  tidy_owner : forall ws1 ws2 clientData1 clientData2 callback,
    wsClients srv !! ws1 = Some clientData1 ->
    wsClients srv !! ws2 = Some clientData2 ->
    ws_callback clientData1 = Some callback ->
    ws_callback clientData2 = Some callback ->
    ws1 = ws2
}.

End Session.

(** ** [startDevServer] around its wait *)

(** Where a call of [startDevServer] stands when it first gives way to
    other work: it has answered at once, for a project whose process is
    tracked, or it has spawned a child on [port] and waits two seconds. *)
Inductive Started :=
| Answered (port : option Z) (url : jsstring)
| Waiting (port : Z).

(** [startDevServer] from its entry to its [await]. *)
Definition startDevServerUntilWait (projectId : jsstring) : M Started :=
  let! found := gets (fun st => projects st !! projectId) in
  match found with
  | None => throw (NotFound projectId)
  | Some project =>
      let! running := gets (fun st => processes st !! projectId) in
      match running with
      | Some _ =>
          let! port := gets (fun st => ports st !! projectId) in
          ret (Answered port (localhost port))
      | None =>
          let! port := allocatePort in
          modify (withPorts <[projectId := port]>) ;;
          log projectId info
            (js "Starting dev server on port " ++ showPort (Some port) ++ js "...") ;;
          let '(command, args) := getStartCommand (Project.framework project) port in
          let! childProcess :=
            spawn {| c_projectId := projectId; c_port := port; c_command := command;
                     c_args := args; c_cwd := Project.path project |} in
          modify (withProcesses <[projectId := childProcess]>) ;;
          ret (Waiting port)
      end
  end.

(** [startDevServer] from the end of its wait to its return. *)
Definition startDevServerAfterWait (projectId : jsstring) (port : Z)
  : M (option Z * jsstring) :=
  log projectId success (js "Dev server running at " ++ localhost (Some port)) ;;
  ret (Some port, localhost (Some port)).

(** What can happen while a call waits: an event of the manager, or a
    dev-server child emits [error] (it could not be spawned).  No listener
    is registered for [error] on these children, so the exception ends
    the server process. *)
Inductive Incident :=
| Happens (e : Event)
| ChildError (child : Child).

(** The state after the incidents, if the server process is still there. *)
Fixpoint runIncidents (incidents : list Incident) (st : State) : option State :=
  match incidents with
  | [] => Some st
  | Happens e :: more => runIncidents more (runEvent st e)
  | ChildError _ :: _ => None
  end.

(** A call of [startDevServer] with what happens during its wait: the
    state and the result when the call is settled, if it is. *)
Definition startDevServerAwaited (during : list Incident) (projectId : jsstring)
  (st : State) : option (State * Result (option Z * jsstring)) :=
  match startDevServerUntilWait projectId st with
  | (st1, Ok (Answered port url)) => Some (st1, Ok (port, url))
  | (st1, Ok (Waiting port)) =>
      match runIncidents during st1 with
      | Some st2 => Some (startDevServerAfterWait projectId port st2)
      | None => None
      end
  | (st1, Throw e) => Some (st1, Throw e)
  end.

(** * Properties *)

(** ** Log classifier *)

Section ClassifierFacts.
Import Classifier.

Lemma detectLogLevel_error m :
  isError (JS.toLowerCase m) = true -> detectLogLevel m = error.
Proof. unfold detectLogLevel. intros ->. reflexivity. Qed.

Lemma detectLogLevel_warn m :
  isError (JS.toLowerCase m) = false -> isWarn (JS.toLowerCase m) = true ->
  detectLogLevel m = warn.
Proof. unfold detectLogLevel. intros -> ->. reflexivity. Qed.

Lemma detectLogLevel_success m :
  isError (JS.toLowerCase m) = false -> isWarn (JS.toLowerCase m) = false ->
  isSuccess (JS.toLowerCase m) = true -> detectLogLevel m = success.
Proof. unfold detectLogLevel. intros -> -> ->. reflexivity. Qed.

Lemma detectLogLevel_info m :
  isError (JS.toLowerCase m) = false -> isWarn (JS.toLowerCase m) = false ->
  isSuccess (JS.toLowerCase m) = false -> detectLogLevel m = info.
Proof. unfold detectLogLevel. intros -> -> ->. reflexivity. Qed.

(** C8. The level of a line is decided by the error patterns first, then
    by the warning patterns, then by the success patterns, and is [info]
    when none applies; the four lines of the corpus are classified as
    error, warn, success and info, and a line that matches several
    groups takes the level of the first of them. *)
Theorem classify_precedence_and_corpus :
  (forall m, isError (JS.toLowerCase m) = true -> detectLogLevel m = error) /\
  (forall m, isError (JS.toLowerCase m) = false ->
             isWarn (JS.toLowerCase m) = true -> detectLogLevel m = warn) /\
  (forall m, isError (JS.toLowerCase m) = false ->
             isWarn (JS.toLowerCase m) = false ->
             isSuccess (JS.toLowerCase m) = true -> detectLogLevel m = success) /\
  (forall m, isError (JS.toLowerCase m) = false ->
             isWarn (JS.toLowerCase m) = false ->
             isSuccess (JS.toLowerCase m) = false -> detectLogLevel m = info) /\
  classify corpus_error = Some (error, corpus_error) /\
  classify corpus_warn = Some (warn, corpus_warn) /\
  classify corpus_success = Some (success, corpus_success) /\
  classify corpus_info = Some (info, corpus_info) /\
  detectLogLevel (js "warning: build failed, not ready") = error /\
  detectLogLevel (js "deprecated flag, compiled successfully") = warn.
Proof.
  split; [exact detectLogLevel_error|].
  split; [exact detectLogLevel_warn|].
  split; [exact detectLogLevel_success|].
  split; [exact detectLogLevel_info|].
  repeat split; vm_compute; reflexivity.
Qed.

End ClassifierFacts.

(** ** Start-up sweep *)

Lemma forEach_killByPort throws l st :
  forEach l (fun port => tryCatch (killByPort port (throws port))) st =
  (withPortKills (fun k => k ++ l) st, Ok tt).
Proof.
  revert st. induction l as [|p l IH]; intros st; simpl.
  - unfold ret. destruct st; unfold withPortKills; simpl.
    rewrite app_nil_r. reflexivity.
  - unfold bind, tryCatch, killByPort at 1. simpl. rewrite IH.
    destruct st; unfold withPortKills; simpl.
    rewrite <- app_assoc. reflexivity.
Qed.

Lemma sweptPorts_eq : sweptPorts = seqZ 3002 11.
Proof. reflexivity. Qed.

Lemma cleanupOrphanedProcesses_eq throws st :
  cleanupOrphanedProcesses throws st =
    (withPortKills (fun k => k ++ sweptPorts) st, Ok tt).
Proof.
  unfold cleanupOrphanedProcesses. unfold tryCatch at 1.
  rewrite forEach_killByPort. reflexivity.
Qed.

(** C7, as the code has it. Whenever it runs, and whatever the state of
    the manager and of its allocator is by then, the sweep issues its
    kill-by-port command for the ports from 3002 to 3012, the first eleven
    of the managed range, each once and in increasing order, and for no
    other port; a kill that fails is passed over, and nothing else of the
    state is changed. *)
Theorem cleanupOrphanedProcesses_sweeps_first_eleven throws st :
  cleanupOrphanedProcesses throws st =
    (withPortKills (fun k => k ++ seqZ 3002 11) st, Ok tt) /\
  (forall port, port ∈ seqZ 3002 11 <-> 3002 <= port <= 3012) /\
  (forall port, port ∈ seqZ 3002 11 -> port ∈ portRange).
Proof.
  split; [|split].
  - rewrite cleanupOrphanedProcesses_eq, sweptPorts_eq. reflexivity.
  - intros port. rewrite elem_of_seqZ. lia.
  - intros port. unfold portRange. rewrite !elem_of_seqZ.
    unfold PORT_RANGE_START, PORT_RANGE_END. lia.
Qed.

(** C7, against the claim as written: port 3013 belongs to the managed
    range and no kill is issued for it by the sweep of a manager just
    constructed. *)
Lemma cleanupOrphanedProcesses_skips_3013 :
  3013 ∈ portRange /\
  3013 ∉ portKills (stateOf (cleanupOrphanedProcesses (fun _ => false) (fresh ∅ ∅ 0))).
Proof.
  split.
  - unfold portRange. rewrite elem_of_seqZ.
    unfold PORT_RANGE_START, PORT_RANGE_END. lia.
  - rewrite cleanupOrphanedProcesses_eq, sweptPorts_eq.
    simpl. rewrite elem_of_seqZ. lia.
Qed.

(** ** Reconnecting client *)

Section ClientFacts.
Import Client.

Lemma backoff_values :
  backoff <$> seq 0 5 = [1000; 2000; 4000; 8000; 10000].
Proof. reflexivity. Qed.

Lemma backoff_capped n : (4 <= n)%nat -> backoff n = 10000.
Proof.
  intros Hn. unfold backoff, maxReconnectDelay.
  assert (2 ^ 4 <= 2 ^ Z.of_nat n) by (apply Z.pow_le_mono_r; lia).
  change (2 ^ 4) with 16 in *. lia.
Qed.

(** A connection attempt that closes without having opened schedules the
    reconnect after [backoff] of the counter, and the counter goes up by
    one. *)
Lemma run_failures n st :
  isCleanup st = false -> socket st = None ->
  run (failures n) st =
    {| reconnectAttempts := reconnectAttempts st + n; isCleanup := false;
       connected := if n is O then connected st else false; socket := None;
       scheduled := scheduled st ++ (backoff <$> seq (reconnectAttempts st) n) |}.
Proof.
  revert st. induction n as [|n IH]; intros st Hc Hs.
  - destruct st; simpl in *. subst. rewrite Nat.add_0_r, app_nil_r. reflexivity.
  - change (failures (S n)) with ([Timer false; Close] ++ failures n).
    unfold run in *. rewrite foldl_app. rewrite IH.
    + destruct st; simpl in *. subst. unfold connect, onclose. simpl.
      f_equal; [lia | destruct n; reflexivity | rewrite <- app_assoc; reflexivity].
    + destruct st; simpl in *; subst; reflexivity.
    + destruct st; simpl in *; subst; reflexivity.
Qed.

(** From the mounted effect, the attempts 0 to 4 that fail in a row
    schedule reconnects after 1, 2, 4, 8 and 10 seconds. *)
Lemma first_five_delays :
  scheduled (run (failures 5) mounted) = [500; 1000; 2000; 4000; 8000; 10000].
Proof. reflexivity. Qed.

(** Only [onopen] takes the counter back to zero. *)
Lemma reset_only_on_open st e :
  reconnectAttempts (step st e) = 0%nat ->
  e = Open \/ reconnectAttempts st = 0%nat.
Proof.
  destruct e as [throws| | |]; simpl; auto.
  - unfold connect. destruct (isCleanup st); auto. destruct throws; simpl; auto.
    discriminate.
  - unfold onclose. destruct (socket st); auto.
    destruct (isCleanup st); simpl; auto. discriminate.
Qed.

(** C4, at the failing input. After two failed attempts and a third that
    opens, the counter is back at zero, so the reconnect after the next
    close is due after [backoff 0], one second; the [close] handler
    schedules it after the four seconds that [connect] computed before
    the socket opened. *)
Theorem close_after_open_keeps_old_delay :
  let st := run reopened mounted in
  reconnectAttempts st = 0%nat /\
  connected st = true /\
  backoff (reconnectAttempts st) = 1000 /\
  closeDelay st = Some 4000 /\
  scheduled (step st Close) = scheduled st ++ [4000] /\
  reconnectAttempts (step st Close) = 1%nat.
Proof. repeat split. Qed.

End ClientFacts.

(** ** Identifiers across a restart *)

Lemma isHex_hexDigit n : 0 <= n < 16 -> isHex (hexDigit n) = true.
Proof.
  intros Hn. unfold isHex, hexDigit, JS.isDigit, JS.inRange.
  destruct (n <? 10) eqn:E; [apply Z.ltb_lt in E | apply Z.ltb_ge in E].
  - apply orb_true_iff. left. apply andb_true_iff. split; apply Z.leb_le; lia.
  - apply orb_true_iff. right. apply andb_true_iff. split; apply Z.leb_le; lia.
Qed.

Lemma toHex_isHex bytes : forallb isHex (toHex bytes) = true.
Proof.
  induction bytes as [|b bytes IH]; [reflexivity|].
  unfold toHex in *. simpl.
  assert (0 <= Z.of_N (Byte.to_N b) < 256) as Hb.
  { pose proof (Byte.to_N_bounded b). lia. }
  rewrite !isHex_hexDigit, IH; [reflexivity| |].
  - apply Z.mod_pos_bound. lia.
  - split; [apply Z.div_pos; lia | apply Z.div_lt_upper_bound; lia].
Qed.

Lemma toHex_length bytes : length (toHex bytes) = (2 * length bytes)%nat.
Proof.
  induction bytes as [|b bytes IH]; [reflexivity|].
  unfold toHex in *. simpl. rewrite IH. lia.
Qed.

Lemma forallb_take {A} (f : A -> bool) n l :
  forallb f l = true -> forallb f (take n l) = true.
Proof.
  revert n. induction l as [|x l IH]; intros [|n] H; simpl in *; auto.
  apply andb_true_iff in H as [-> H]. simpl. auto.
Qed.

(** The match of the recovery scan starts at the last dash of the name when
    only hexadecimal digits follow it. *)
Lemma matchIdSuffix_last_dash pre suffix :
  suffix <> [] -> forallb isHex suffix = true ->
  matchIdSuffix (pre ++ 45 :: suffix) = Some suffix.
Proof.
  intros Hne Hhex. induction pre as [|c pre IH]; simpl.
  - rewrite Hhex. rewrite bool_decide_eq_false_2 by exact Hne. reflexivity.
  - rewrite IH.
    assert (forallb isHex (pre ++ 45 :: suffix) = false) as ->.
    { rewrite forallb_app. simpl. apply andb_false_r. }
    rewrite andb_false_r. reflexivity.
Qed.

(** C6, for every project. A project created with the sixteen-digit id
    that [generateId] makes of eight random bytes is given, by the recovery
    scan of its directory, the first six digits of that id, which is not
    the id it was created with. *)
Theorem recoveredId_is_six_digit_prefix name bytes fallback :
  length bytes = 8%nat ->
  recoveredId (directoryName name (generateId bytes)) fallback =
    JS.slice0 6 (generateId bytes) /\
  recoveredId (directoryName name (generateId bytes)) fallback <> generateId bytes.
Proof.
  intros Hlen.
  assert (length (generateId bytes) = 16%nat) as H16.
  { unfold generateId. rewrite toHex_length, Hlen. reflexivity. }
  assert (recoveredId (directoryName name (generateId bytes)) fallback =
            JS.slice0 6 (generateId bytes)) as Heq.
  { unfold recoveredId, directoryName.
    change (js "-" ++ JS.slice0 6 (generateId bytes))
      with (45 :: JS.slice0 6 (generateId bytes)).
    rewrite matchIdSuffix_last_dash; [reflexivity| |].
    - intros Hnil. apply (f_equal length) in Hnil.
      unfold JS.slice0 in Hnil. rewrite length_take, H16 in Hnil. discriminate.
    - apply forallb_take, toHex_isHex. }
  split; [exact Heq|].
  rewrite Heq. intros Hbad. apply (f_equal length) in Hbad.
  unfold JS.slice0 in Hbad. rewrite length_take, H16 in Hbad. discriminate.
Qed.

Lemma recoveredId_is_six_digit_prefix_sample :
  length sampleBytes = 8%nat /\
  recoveredId (directoryName (js "Todo") (generateId sampleBytes)) [] =
    JS.slice0 6 (generateId sampleBytes) /\
  recoveredId (directoryName (js "Todo") (generateId sampleBytes)) [] <>
    generateId sampleBytes.
Proof.
  split; [reflexivity|].
  apply (recoveredId_is_six_digit_prefix (js "Todo") sampleBytes []). reflexivity.
Defined.

(** The same on the sample run: the project is registered under its full
    id when it is created, and after the restart the registry knows the
    six-digit prefix and not the full id. *)
Lemma restart_changes_sample_id :
  sampleId = js "abc123def4567890" /\
  Project.id <$> (projects afterCreate !! sampleId) = Some sampleId /\
  projects afterRestart !! sampleId = None /\
  Project.id <$> (projects afterRestart !! js "abc123") = Some (js "abc123") /\
  Project.path <$> (projects afterRestart !! js "abc123") =
    Project.path <$> (projects afterCreate !! sampleId).
Proof. repeat split; vm_compute; reflexivity. Qed.

(** ** Writing files *)

(** The check of [writeFile]: a resolved path that does not begin with the
    characters of the project path is rejected, and nothing has changed
    when [PathEscape] is thrown. *)
Lemma writeFile_rejects_other_prefix cfg st projectId project filePath content :
  projects st !! projectId = Some project ->
  JS.startsWith (Path.resolve (cwd cfg) [Project.path project; filePath])
    (Project.path project) = false ->
  writeFile cfg projectId filePath content st = (st, Throw PathEscape).
Proof.
  intros Hp Hs. unfold writeFile, bind, gets. rewrite Hp, Hs. reflexivity.
Qed.

Lemma writeFile_PathEscape_unchanged cfg st projectId filePath content :
  resultOf (writeFile cfg projectId filePath content st) = Throw PathEscape ->
  stateOf (writeFile cfg projectId filePath content st) = st.
Proof.
  unfold writeFile, bind, gets. simpl.
  destruct (projects st !! projectId) as [project|]; [|discriminate].
  destruct (JS.startsWith _ _); simpl; [|reflexivity].
  unfold log at 1.
  destruct (logSubscriptions st !! projectId); simpl.
  all: match goal with |- context [mkdir ?d ?s] => destruct (mkdir d s) as [s1 [[]|e1]] eqn:E1 end;
    simpl.
  all: try (unfold mkdir in E1;
            match type of E1 with context [forallb ?f ?l] => destruct (forallb f l) end;
            inversion E1; discriminate).
  all: match goal with |- context [fsWriteFile ?d ?c ?s] =>
         destruct (fsWriteFile d c s) as [s2 [[]|e2]] eqn:E2 end; simpl.
  all: try (unfold log; match goal with |- context [logSubscriptions ?s !! ?k] =>
         destruct (logSubscriptions s !! k) end; discriminate).
  all: unfold fsWriteFile in E2;
    repeat match type of E2 with context [bool_decide ?P] => destruct (bool_decide P) end;
    inversion E2; discriminate.
Qed.

(** C1, at the failing input. The project of the sample run lives in
    [/srv/app/projects/todo-abc123]; the relative path
    [../todo-abc1234/evil.txt] resolves to a file of the sibling directory
    [todo-abc1234], outside the project root, yet the resolved path begins
    with the characters of the project path: [writeFile] does not throw,
    creates the sibling directory and writes the file. *)
Theorem writeFile_accepts_sibling_with_same_prefix :
  let written := writeFile sampleConfig sampleId siblingPath (js "x") afterCreate in
  Project.path <$> (projects afterCreate !! sampleId) =
    Some (js "/srv/app/projects/todo-abc123") /\
  Path.resolve (cwd sampleConfig) [js "/srv/app/projects/todo-abc123"; siblingPath] =
    siblingTarget /\
  Path.within (js "/srv/app/projects/todo-abc123") siblingTarget = false /\
  resultOf written = Ok tt /\
  files afterCreate !! siblingTarget = None /\
  files (stateOf written) !! siblingTarget = Some (js "x") /\
  dirs afterCreate !! js "/srv/app/projects/todo-abc1234" = None /\
  is_Some (dirs (stateOf written) !! js "/srv/app/projects/todo-abc1234").
Proof.
  cbv zeta. repeat split; try (vm_compute; reflexivity).
  vm_compute. eexists. reflexivity.
Qed.

(** A path that leaves the project directory for a directory of another
    name is rejected, and the disk is as before. *)
Lemma writeFile_rejects_sample_escape :
  writeFile sampleConfig sampleId (js "../other/evil.txt") (js "x") afterCreate =
    (afterCreate, Throw PathEscape).
Proof.
  eapply writeFile_rejects_other_prefix; vm_compute; reflexivity.
Qed.

(** ** Port allocator *)

Lemma elem_of_portRange port :
  port ∈ portRange <-> PORT_RANGE_START <= port <= PORT_RANGE_END.
Proof.
  unfold portRange. rewrite elem_of_seqZ.
  unfold PORT_RANGE_START, PORT_RANGE_END. lia.
Qed.

Lemma allocatePort_Ok st st' port :
  allocatePort st = (st', Ok port) ->
  PORT_RANGE_START <= port <= PORT_RANGE_END /\ (port ∉ usedPorts st) /\
  (forall q, PORT_RANGE_START <= q < port -> q ∈ usedPorts st) /\
  st' = withUsedPorts (union {[port]}) st.
Proof.
  unfold allocatePort.
  destruct (list_find _ portRange) as [[i p]|] eqn:E; [|discriminate].
  intros [= <- <-]. apply list_find_Some in E as (Hi & Hfree & Hlow).
  assert (p ∈ portRange) as Hin by (eapply list_elem_of_lookup_2; eauto).
  apply elem_of_portRange in Hin.
  unfold portRange in Hi. apply lookup_seqZ in Hi as [Hp Hlt].
  repeat split; try lia; auto.
  intros q Hq. destruct (decide (q ∈ usedPorts st)) as [|Hn]; [assumption|].
  exfalso. apply (Hlow (Z.to_nat (q - PORT_RANGE_START)) q); [|lia|exact Hn].
  unfold portRange. apply lookup_seqZ. lia.
Qed.

Lemma allocatePort_Throw st st' e :
  allocatePort st = (st', Throw e) ->
  e = PortExhausted /\ st' = st /\
  (forall q, PORT_RANGE_START <= q <= PORT_RANGE_END -> q ∈ usedPorts st).
Proof.
  unfold allocatePort.
  destruct (list_find _ portRange) as [[i p]|] eqn:E; [discriminate|].
  intros [= <- <-]. repeat split.
  intros q Hq. apply list_find_None in E.
  rewrite Forall_forall in E. apply elem_of_portRange in Hq.
  destruct (decide (q ∈ usedPorts st)) as [|Hn]; [assumption|].
  exfalso. apply (E q); [exact Hq | exact Hn].
Qed.

Lemma allocatePort_free st q :
  PORT_RANGE_START <= q <= PORT_RANGE_END -> q ∉ usedPorts st ->
  exists port, allocatePort st = (withUsedPorts (union {[port]}) st, Ok port) /\
               port <= q.
Proof.
  intros Hq Hfree.
  destruct (allocatePort st) as [st' [port|e]] eqn:E.
  - apply allocatePort_Ok in E as (Hr & Hn & Hlow & ->).
    exists port. split; [reflexivity|].
    destruct (Z_le_gt_dec port q); [assumption|].
    exfalso. apply Hfree, Hlow. lia.
  - apply allocatePort_Throw in E as (_ & _ & Hall). exfalso. auto.
Qed.

(** C5. [allocatePort] returns the lowest port of 3002..3100 that is not in
    use and adds it to the ports in use; when every port of the range is
    in use it throws [PortExhausted] and changes nothing; after a port of
    the range has been released the next allocation succeeds with a port
    not above it, and with that very port when all lower ports are in
    use. *)
Theorem allocatePort_lowest_free_or_exhausted st :
  match allocatePort st with
  | (st', Ok port) =>
      3002 <= port <= 3100 /\ (port ∉ usedPorts st) /\
      (forall q, 3002 <= q < port -> q ∈ usedPorts st) /\
      st' = withUsedPorts (union {[port]}) st /\
      port ∈ usedPorts st'
  | (st', Throw e) =>
      e = PortExhausted /\ st' = st /\
      (forall q, 3002 <= q <= 3100 -> q ∈ usedPorts st)
  end /\
  ((forall q, 3002 <= q <= 3100 -> q ∈ usedPorts st) ->
   allocatePort st = (st, Throw PortExhausted)) /\
  (forall released, 3002 <= released <= 3100 ->
   exists port,
     resultOf (allocatePort (stateOf (releasePort released st))) = Ok port /\
     port <= released /\
     ((forall q, 3002 <= q < released -> q ∈ usedPorts st) -> port = released)).
Proof.
  split; [|split].
  - destruct (allocatePort st) as [st' [port|e]] eqn:E.
    + apply allocatePort_Ok in E as (Hr & Hn & Hlow & ->).
      repeat split; auto; try apply Hr.
      simpl. apply elem_of_union_l, elem_of_singleton. reflexivity.
    + apply allocatePort_Throw in E. exact E.
  - intros Hall. destruct (allocatePort st) as [st' [port|e]] eqn:E.
    + apply allocatePort_Ok in E as (Hr & Hn & _). exfalso. apply Hn, Hall, Hr.
    + apply allocatePort_Throw in E as (-> & -> & _). reflexivity.
  - intros released Hr.
    destruct (allocatePort_free (stateOf (releasePort released st)) released)
      as (port & E & Hle).
    + exact Hr.
    + simpl. rewrite elem_of_difference, elem_of_singleton. tauto.
    + exists port. rewrite E. repeat split; [assumption|].
      intros Hlow. apply allocatePort_Ok in E as (Hp & Hn & _).
      destruct (decide (port = released)) as [|Hne]; [assumption|].
      exfalso. apply Hn. destruct st; simpl in *.
      apply elem_of_difference. split; [apply Hlow; unfold PORT_RANGE_START in *; lia|].
      set_solver.
Qed.

(** ** Log fan-out *)

Lemma log_delivered st projectId level message :
  log projectId level message st =
    (withDelivered
       (fun d => d ++ ((fun callback =>
                          (callback, LogEntry.mk (now st) level message projectId))
                       <$> elements (subscribers st projectId))) st, Ok tt).
Proof.
  unfold log, subscribers.
  destruct (logSubscriptions st !! projectId) as [s|]; simpl; [reflexivity|].
  rewrite elements_empty. simpl. destruct st; unfold withDelivered; simpl.
  rewrite app_nil_r. reflexivity.
Qed.

Lemma log_subscribers st projectId level message q :
  subscribers (stateOf (log projectId level message st)) q = subscribers st q.
Proof. rewrite log_delivered. reflexivity. Qed.

Lemma newDeliveries_app st st' extra :
  delivered st' = delivered st ++ extra -> newDeliveries st st' = extra.
Proof. intros H. unfold newDeliveries. rewrite H. apply drop_app_length. Qed.

Lemma deliveriesTo_fanout callback (entry : LogEntry.t) (l : list Listener) :
  NoDup l ->
  deliveriesTo callback ((fun c => (c, entry)) <$> l) =
    if bool_decide (callback ∈ l) then [entry] else [].
Proof.
  unfold deliveriesTo. induction 1 as [|x l Hx Hnd IH]; [reflexivity|].
  rewrite fmap_cons. destruct (decide (x = callback)) as [->|Hne].
  - rewrite filter_cons_True by reflexivity. rewrite fmap_cons, IH.
    rewrite (bool_decide_eq_false_2 _ Hx).
    rewrite bool_decide_eq_true_2 by (left). reflexivity.
  - rewrite filter_cons_False by (simpl; congruence). rewrite IH.
    rewrite (bool_decide_ext (callback ∈ l) (callback ∈ x :: l)); [reflexivity|].
    rewrite elem_of_cons. split; [auto|].
    intros [?|?]; congruence.
Qed.

Lemma deliveriesTo_none callback (d : list (Listener * LogEntry.t)) :
  (forall x, x ∈ d -> fst x <> callback) -> deliveriesTo callback d = [].
Proof.
  unfold deliveriesTo. induction d as [|x d IH]; intros H; [reflexivity|].
  rewrite filter_cons_False by (apply H; left).
  apply IH. intros y Hy. apply H. right. exact Hy.
Qed.

Lemma publishAll_delivered projectId entries st :
  exists extra,
    delivered (publishAll projectId entries st) = delivered st ++ extra /\
    (forall x, x ∈ extra -> fst x ∈ subscribers st projectId).
Proof.
  revert st. induction entries as [|e entries IH]; intros st.
  - exists []. rewrite app_nil_r. split; [reflexivity|]. intros x Hx. inversion Hx.
  - destruct (IH (stateOf (log projectId e.1 e.2 st))) as (extra & Hd & Hin).
    exists (((fun c => (c, LogEntry.mk (now st) e.1 e.2 projectId))
               <$> elements (subscribers st projectId)) ++ extra).
    split.
    + change (publishAll projectId (e :: entries) st)
        with (publishAll projectId entries (stateOf (log projectId e.1 e.2 st))).
      rewrite Hd. rewrite log_delivered. simpl. rewrite <- app_assoc. reflexivity.
    + intros x Hx. apply elem_of_app in Hx as [Hx|Hx].
      * apply list_elem_of_fmap in Hx as (c & -> & Hc). simpl.
        apply elem_of_elements in Hc. exact Hc.
      * rewrite <- (log_subscribers st projectId e.1 e.2). apply Hin, Hx.
Qed.

Lemma subscribers_subscribe st projectId callback :
  subscribers (stateOf (subscribeToLogs projectId callback st)) projectId =
    {[callback]} ∪ subscribers st projectId.
Proof.
  unfold subscribeToLogs, modify, subscribers. simpl.
  destruct (logSubscriptions st !! projectId) as [s|] eqn:E; simpl.
  - rewrite lookup_alter_eq, E. reflexivity.
  - rewrite lookup_alter_eq, lookup_insert_eq. reflexivity.
Qed.

Lemma subscribers_subscribe_other st projectId other callback :
  other <> projectId ->
  subscribers (stateOf (subscribeToLogs other callback st)) projectId =
    subscribers st projectId.
Proof.
  intros Hne. unfold subscribeToLogs, modify, subscribers. simpl.
  destruct (logSubscriptions st !! other) as [s|] eqn:E; simpl.
  - rewrite lookup_alter_ne by exact Hne. reflexivity.
  - rewrite lookup_alter_ne, lookup_insert_ne by exact Hne. reflexivity.
Qed.

Lemma subscribers_unsubscribe st projectId callback :
  subscribers (stateOf (unsubscribeFromLogs projectId callback st)) projectId =
    subscribers st projectId ∖ {[callback]}.
Proof.
  unfold unsubscribeFromLogs, modify, subscribers. simpl.
  destruct (logSubscriptions st !! projectId) as [s|] eqn:E; simpl.
  - rewrite lookup_insert_eq. reflexivity.
  - rewrite E. simpl. symmetry. apply empty_difference_L.
Qed.

Lemma unsubscribe_absent st projectId callback :
  callback ∉ subscribers st projectId ->
  unsubscribeFromLogs projectId callback st = (st, Ok tt).
Proof.
  intros Hn. unfold unsubscribeFromLogs, modify, subscribers in *.
  destruct (logSubscriptions st !! projectId) as [s|] eqn:E; simpl in *; [|reflexivity].
  f_equal. rewrite difference_disjoint_L by (apply disjoint_singleton_r; exact Hn).
  destruct st; unfold withLogSubscriptions; simpl in *.
  rewrite insert_id by exact E. reflexivity.
Qed.

Lemma log_to st projectId level message callback :
  deliveriesTo callback
    (newDeliveries st (stateOf (log projectId level message st))) =
  if bool_decide (callback ∈ subscribers st projectId)
  then [LogEntry.mk (now st) level message projectId] else [].
Proof.
  rewrite log_delivered. simpl.
  erewrite newDeliveries_app by reflexivity.
  rewrite deliveriesTo_fanout by apply NoDup_elements.
  rewrite (bool_decide_ext _ _ (elem_of_elements (subscribers st projectId) callback)).
  reflexivity.
Qed.

(** C3. A call of [log] gives the entry exactly once to every listener
    subscribed to the project of the entry at that moment and to no other
    listener, so a listener subscribed only to another project receives
    nothing; a listener that subscribes is served by the next call; after
    [unsubscribeFromLogs] no later entry of that project reaches the
    listener; and unsubscribing a listener that is not subscribed returns
    normally and leaves the state as it was. *)
Theorem log_delivers_once_to_each_subscriber st projectId level message callback :
  let entry := LogEntry.mk (now st) level message projectId in
  let unsubscribed := stateOf (unsubscribeFromLogs projectId callback st) in
  let subscribed := stateOf (subscribeToLogs projectId callback st) in
  resultOf (log projectId level message st) = Ok tt /\
  deliveriesTo callback
    (newDeliveries st (stateOf (log projectId level message st))) =
    (if bool_decide (callback ∈ subscribers st projectId) then [entry] else []) /\
  (forall other, other <> projectId -> callback ∉ subscribers st projectId ->
     let elsewhere := stateOf (subscribeToLogs other callback st) in
     callback ∈ subscribers elsewhere other /\
     deliveriesTo callback
       (newDeliveries elsewhere (stateOf (log projectId level message elsewhere))) = []) /\
  deliveriesTo callback
    (newDeliveries subscribed (stateOf (log projectId level message subscribed))) =
    [LogEntry.mk (now subscribed) level message projectId] /\
  (forall entries,
     deliveriesTo callback
       (newDeliveries unsubscribed (publishAll projectId entries unsubscribed)) = []) /\
  resultOf (unsubscribeFromLogs projectId callback st) = Ok tt /\
  (callback ∉ subscribers st projectId ->
   unsubscribeFromLogs projectId callback st = (st, Ok tt)).
Proof.
  cbv zeta. repeat split.
  - rewrite log_delivered. reflexivity.
  - apply log_to.
  - rewrite subscribers_subscribe. set_solver.
  - rewrite log_to. rewrite subscribers_subscribe_other by assumption.
    rewrite bool_decide_eq_false_2 by assumption. reflexivity.
  - rewrite log_to. rewrite subscribers_subscribe.
    rewrite bool_decide_eq_true_2 by set_solver. reflexivity.
  - intros entries.
    destruct (publishAll_delivered projectId entries
                (stateOf (unsubscribeFromLogs projectId callback st)))
      as (extra & Hd & Hin).
    rewrite (newDeliveries_app _ _ _ Hd).
    apply deliveriesTo_none. intros x Hx Heq. apply Hin in Hx.
    rewrite subscribers_unsubscribe, Heq in Hx.
    apply elem_of_difference in Hx as [_ Hx]. apply Hx, elem_of_singleton. reflexivity.
  - apply unsubscribe_absent.
Qed.

(** ** Dev servers and their ports *)

(** What [startDevServer] does to the three maps: nothing, or a port that
    was free is recorded for the project together with a new process. *)
Lemma startDevServer_maps projectId st :
  let st' := stateOf (startDevServer projectId st) in
  (processes st' = processes st /\ ports st' = ports st /\
   usedPorts st' = usedPorts st) \/
  (exists port,
     processes st !! projectId = None /\
     PORT_RANGE_START <= port <= PORT_RANGE_END /\ (port ∉ usedPorts st) /\
     processes st' = <[projectId := spawned st]> (processes st) /\
     ports st' = <[projectId := port]> (ports st) /\
     usedPorts st' = {[port]} ∪ usedPorts st).
Proof.
  cbv zeta. unfold startDevServer, bind, gets. simpl.
  destruct (projects st !! projectId) as [project|]; [|left; auto].
  destruct (processes st !! projectId) as [c|] eqn:Ep; [left; auto|].
  destruct (allocatePort st) as [st1 [port|e]] eqn:Ea; simpl.
  - apply allocatePort_Ok in Ea as (Hr & Hfree & _ & ->).
    right. exists port. rewrite log_delivered. simpl.
    destruct (getStartCommand (Project.framework project) port) as [command args].
    simpl. rewrite log_delivered. simpl. repeat split; auto; apply Hr.
  - apply allocatePort_Throw in Ea as (_ & -> & _). left. auto.
Qed.

(** What [stopDevServer] does: nothing when no process is tracked;
    otherwise the process is forgotten and the recorded port, if there is
    one and it is not zero, is released and forgotten.  Neither the result
    nor the three maps depend on what the signals did. *)
Lemma stopDevServer_untracked os projectId st :
  processes st !! projectId = None ->
  stopDevServer os projectId st = (st, Ok tt).
Proof. intros H. unfold stopDevServer, bind, gets. simpl. rewrite H. reflexivity. Qed.

Lemma stopDevServer_maps os projectId st c :
  processes st !! projectId = Some c ->
  let st' := stateOf (stopDevServer os projectId st) in
  resultOf (stopDevServer os projectId st) = Ok tt /\
  processes st' = delete projectId (processes st) /\
  match ports st !! projectId with
  | Some port =>
      if port =? 0 then ports st' = ports st /\ usedPorts st' = usedPorts st
      else ports st' = delete projectId (ports st) /\
           usedPorts st' = usedPorts st ∖ {[port]}
  | None => ports st' = ports st /\ usedPorts st' = usedPorts st
  end.
Proof.
  intros Hc. cbv zeta. unfold stopDevServer, bind, gets. simpl. rewrite Hc.
  rewrite log_delivered. simpl.
  destruct os as [pid term killed kill lsof].
  destruct (ports st !! projectId) as [port|] eqn:Ep; simpl.
  - destruct (port =? 0) eqn:E0;
      destruct pid, term, killed, kill, lsof; simpl;
      rewrite ?log_delivered; simpl; auto.
  - destruct pid, term, killed, kill; simpl; rewrite ?log_delivered; simpl; auto.
Qed.

(** What the [close] handler does: nothing for a child that has closed
    before; otherwise the process and the port recorded for the project of
    the child are forgotten and the port the handler captured is released,
    whichever child is tracked for the project by then. *)
Lemma onClose_unknown child code st :
  children st !! child = None -> onClose child code st = (st, Ok tt).
Proof. intros H. unfold onClose, bind, gets. simpl. rewrite H. reflexivity. Qed.

Lemma onClose_maps child code st captured :
  children st !! child = Some captured ->
  let st' := stateOf (onClose child code st) in
  processes st' = delete (c_projectId captured) (processes st) /\
  ports st' = delete (c_projectId captured) (ports st) /\
  usedPorts st' = usedPorts st ∖ {[c_port captured]}.
Proof.
  intros H. cbv zeta. unfold onClose, bind, gets, modify, releasePort. simpl.
  rewrite H. simpl. rewrite log_delivered. simpl. auto.
Qed.

(** *** Processes and ports go together, whatever happens *)

Lemma paired_idle st : idle st -> paired st.
Proof.
  intros (Hp & Hq & _). split; rewrite ?Hp, ?Hq.
  - intros projectId. rewrite !lookup_empty. split; intros [? ?]; discriminate.
  - intros projectId port H. rewrite lookup_empty in H. discriminate.
Qed.

Lemma paired_delete st st' projectId :
  processes st' = delete projectId (processes st) ->
  ports st' = delete projectId (ports st) ->
  paired st -> paired st'.
Proof.
  intros Hp Hq [H1 H4]. split; rewrite ?Hp, ?Hq.
  - intros k. destruct (decide (projectId = k)) as [->|Hne].
    + rewrite !lookup_delete_eq. split; intros [? ?]; discriminate.
    + rewrite !lookup_delete_ne by exact Hne. apply H1.
  - intros k p Hk. apply lookup_delete_Some in Hk as [_ Hk]. eapply H4; eauto.
Qed.

Lemma paired_startDevServer projectId st :
  paired st -> paired (stateOf (startDevServer projectId st)).
Proof.
  intros [H1 H4]. destruct (startDevServer_maps projectId st)
    as [(Hp & Hq & Hu)|(port & Hnone & Hr & Hfree & Hp & Hq & Hu)].
  - split; rewrite ?Hp, ?Hq; assumption.
  - split; rewrite ?Hp, ?Hq.
    + intros k. destruct (decide (projectId = k)) as [->|Hne].
      * rewrite !lookup_insert_eq. split; eauto.
      * rewrite !lookup_insert_ne by exact Hne. apply H1.
    + intros k p Hk. destruct (decide (projectId = k)) as [->|Hne].
      * rewrite lookup_insert_eq in Hk. congruence.
      * rewrite lookup_insert_ne in Hk by exact Hne. eapply H4; eauto.
Qed.

(** A stop that finds a process finds its port, and afterwards the port is
    free and the project has neither a process nor a port. *)
Lemma stopDevServer_tracked os projectId st c :
  paired st -> processes st !! projectId = Some c ->
  let st' := stateOf (stopDevServer os projectId st) in
  exists port,
    ports st !! projectId = Some port /\
    resultOf (stopDevServer os projectId st) = Ok tt /\
    processes st' = delete projectId (processes st) /\
    ports st' = delete projectId (ports st) /\
    usedPorts st' = usedPorts st ∖ {[port]}.
Proof.
  intros [H1 H4] Hc. cbv zeta.
  assert (is_Some (ports st !! projectId)) as [port Hport] by (apply H1; eauto).
  exists port. split; [exact Hport|].
  destruct (stopDevServer_maps os projectId st c Hc) as (Hres & Hp & Hrest).
  rewrite Hport in Hrest.
  assert ((port =? 0) = false) as E0.
  { apply Z.eqb_neq. apply H4 in Hport. unfold PORT_RANGE_START in Hport. lia. }
  rewrite E0 in Hrest. destruct Hrest as [Hq Hu]. auto.
Qed.

Lemma paired_stopDevServer os projectId st :
  paired st -> paired (stateOf (stopDevServer os projectId st)).
Proof.
  intros Hc. destruct (processes st !! projectId) as [c|] eqn:Ec.
  - destruct (stopDevServer_tracked os projectId st c Hc Ec)
      as (port & _ & _ & Hp & Hq & _).
    eapply paired_delete; eauto.
  - rewrite stopDevServer_untracked by exact Ec. exact Hc.
Qed.

Lemma paired_onClose child code st :
  paired st -> paired (stateOf (onClose child code st)).
Proof.
  intros Hc. destruct (children st !! child) as [captured|] eqn:E.
  - destruct (onClose_maps child code st captured E) as (Hp & Hq & _).
    eapply paired_delete; eauto.
  - rewrite onClose_unknown by exact E. exact Hc.
Qed.

Lemma paired_runEvents events st : paired st -> paired (runEvents events st).
Proof.
  revert st. induction events as [|e events IH]; intros st Hc; [exact Hc|].
  apply IH. destruct e as [[projectId|os projectId]|child code]; simpl.
  - apply paired_startDevServer, Hc.
  - apply paired_stopDevServer, Hc.
  - apply paired_onClose, Hc.
Qed.

(** C9. In any state, [stopDevServer] on a project without a tracked
    process returns normally and changes nothing.  In a state reached from
    a manager without dev servers by calls of [startDevServer] and
    [stopDevServer] and by closing children, whatever the signals and the
    kill-by-port command do (they may throw), a stop returns normally, a
    second stop right after it changes nothing, and a stop that finds a
    process finds its port, releases it and leaves the project without
    process and without port. *)
Theorem stopDevServer_twice_and_always_releases st0 events os os' projectId :
  idle st0 ->
  let st := runEvents events st0 in
  let stopped := stateOf (stopDevServer os projectId st) in
  (forall any, processes any !! projectId = None ->
               stopDevServer os projectId any = (any, Ok tt)) /\
  resultOf (stopDevServer os projectId st) = Ok tt /\
  stopDevServer os' projectId stopped = (stopped, Ok tt) /\
  (is_Some (processes st !! projectId) ->
   exists port,
     holds st projectId port /\
     (port ∉ usedPorts stopped) /\
     ports stopped !! projectId = None /\
     processes stopped !! projectId = None).
Proof.
  intros Hidle. cbv zeta.
  pose proof (paired_runEvents events st0 (paired_idle st0 Hidle)) as Hc.
  split; [intros any; apply stopDevServer_untracked|].
  destruct (processes (runEvents events st0) !! projectId) as [c|] eqn:Ec.
  - destruct (stopDevServer_tracked os projectId _ c Hc Ec)
      as (port & Hport & Hres & Hp & Hq & Hu).
    split; [exact Hres|]. split.
    + apply stopDevServer_untracked. rewrite Hp. apply lookup_delete_eq.
    + intros _. exists port. repeat split.
      * rewrite Ec. eauto.
      * exact Hport.
      * rewrite Hu, elem_of_difference, elem_of_singleton. tauto.
      * rewrite Hq. apply lookup_delete_eq.
      * rewrite Hp. apply lookup_delete_eq.
  - rewrite (stopDevServer_untracked os projectId _ Ec). simpl.
    split; [reflexivity|]. split.
    + apply stopDevServer_untracked, Ec.
    + intros [? ?]. discriminate.
Qed.

Lemma stopDevServer_twice_and_always_releases_sample :
  idle threeProjects /\
  let st := runEvents sampleCalls threeProjects in
  let stopped := stateOf (stopDevServer failing (js "gamma") st) in
  (forall any, processes any !! js "gamma" = None ->
               stopDevServer failing (js "gamma") any = (any, Ok tt)) /\
  resultOf (stopDevServer failing (js "gamma") st) = Ok tt /\
  stopDevServer quiet (js "gamma") stopped = (stopped, Ok tt) /\
  (is_Some (processes st !! js "gamma") ->
   exists port,
     holds st (js "gamma") port /\
     (port ∉ usedPorts stopped) /\
     ports stopped !! js "gamma" = None /\
     processes stopped !! js "gamma" = None).
Proof.
  split; [repeat split|].
  apply (stopDevServer_twice_and_always_releases threeProjects sampleCalls
           failing quiet (js "gamma")).
  repeat split.
Defined.

(** *** Ports in use and ports held *)

Lemma consistent_paired st : consistent st -> paired st.
Proof. intros [H1 H2 H3 H4]. split; assumption. Qed.

Lemma consistent_idle st : idle st -> consistent st.
Proof.
  intros (Hp & Hq & Hu). split; rewrite ?Hp, ?Hq, ?Hu.
  - intros projectId. rewrite !lookup_empty. split; intros [? ?]; discriminate.
  - intros port. split; [intros H; apply elem_of_empty in H; destruct H|].
    intros [projectId H]. rewrite lookup_empty in H. discriminate.
  - intros a b port H. rewrite lookup_empty in H. discriminate.
  - intros projectId port H. rewrite lookup_empty in H. discriminate.
Qed.

Lemma consistent_startDevServer projectId st :
  consistent st -> consistent (stateOf (startDevServer projectId st)).
Proof.
  intros Hc. destruct (startDevServer_maps projectId st)
    as [(Hp & Hq & Hu)|(port & Hnone & Hr & Hfree & Hp & Hq & Hu)].
  - destruct Hc as [H1 H2 H3 H4]. split; rewrite ?Hp, ?Hq, ?Hu; assumption.
  - destruct Hc as [H1 H2 H3 H4].
    assert (ports st !! projectId = None) as Hnoport.
    { destruct (ports st !! projectId) eqn:E; [|reflexivity].
      assert (is_Some (processes st !! projectId)) as [c Hc] by (apply H1; eauto).
      congruence. }
    split; rewrite ?Hp, ?Hq, ?Hu.
    + intros k. destruct (decide (projectId = k)) as [->|Hne].
      * rewrite !lookup_insert_eq. split; eauto.
      * rewrite !lookup_insert_ne by exact Hne. apply H1.
    + intros p. rewrite elem_of_union, elem_of_singleton. split.
      * intros [->|Hin].
        -- exists projectId. apply lookup_insert_eq.
        -- apply H2 in Hin as [k Hk]. exists k.
           rewrite lookup_insert_ne; [exact Hk|congruence].
      * intros [k Hk]. destruct (decide (projectId = k)) as [->|Hne].
        -- rewrite lookup_insert_eq in Hk. left. congruence.
        -- rewrite lookup_insert_ne in Hk by exact Hne. right. apply H2. eauto.
    + intros a b p Ha Hb.
      destruct (decide (projectId = a)) as [<-|Hna];
        destruct (decide (projectId = b)) as [<-|Hnb]; try reflexivity.
      * rewrite lookup_insert_eq in Ha. rewrite lookup_insert_ne in Hb by exact Hnb.
        exfalso. apply Hfree, H2. exists b. congruence.
      * rewrite lookup_insert_eq in Hb. rewrite lookup_insert_ne in Ha by exact Hna.
        exfalso. apply Hfree, H2. exists a. congruence.
      * rewrite lookup_insert_ne in Ha by exact Hna.
        rewrite lookup_insert_ne in Hb by exact Hnb. eapply H3; eauto.
    + intros k p Hk. destruct (decide (projectId = k)) as [->|Hne].
      * rewrite lookup_insert_eq in Hk. congruence.
      * rewrite lookup_insert_ne in Hk by exact Hne. eapply H4; eauto.
Qed.

(** Forgetting a project together with the release of the port recorded for
    it keeps the maps consistent. *)
Lemma consistent_forget st st' projectId port :
  ports st !! projectId = Some port ->
  processes st' = delete projectId (processes st) ->
  ports st' = delete projectId (ports st) ->
  usedPorts st' = usedPorts st ∖ {[port]} ->
  consistent st -> consistent st'.
Proof.
  intros Hport Hp Hq Hu [H1 H2 H3 H4]. split; rewrite ?Hp, ?Hq, ?Hu.
  - intros k. destruct (decide (projectId = k)) as [->|Hne].
    + rewrite !lookup_delete_eq. split; intros [? ?]; discriminate.
    + rewrite !lookup_delete_ne by exact Hne. apply H1.
  - intros p. rewrite elem_of_difference, elem_of_singleton. split.
    + intros [Hin Hne]. apply H2 in Hin as [k Hk]. exists k.
      rewrite lookup_delete_ne; [exact Hk|]. intros <-. congruence.
    + intros [k Hk]. apply lookup_delete_Some in Hk as [Hne Hk].
      split; [apply H2; eauto|]. intros ->. apply Hne. eapply H3; eauto.
  - intros a b p Ha Hb.
    apply lookup_delete_Some in Ha as [_ Ha].
    apply lookup_delete_Some in Hb as [_ Hb]. eapply H3; eauto.
  - intros k p Hk. apply lookup_delete_Some in Hk as [_ Hk]. eapply H4; eauto.
Qed.

Lemma consistent_stopDevServer os projectId st :
  consistent st -> consistent (stateOf (stopDevServer os projectId st)).
Proof.
  intros Hc. destruct (processes st !! projectId) as [c|] eqn:Ec.
  - destruct (stopDevServer_tracked os projectId st c (consistent_paired st Hc) Ec)
      as (port & Hport & _ & Hp & Hq & Hu).
    eapply consistent_forget; eauto.
  - rewrite stopDevServer_untracked by exact Ec. exact Hc.
Qed.

(** The handler of a child keeps the maps consistent when the port it
    captured is still the one recorded for its project. *)
Lemma consistent_onClose_in_time child code st captured :
  consistent st ->
  children st !! child = Some captured ->
  ports st !! c_projectId captured = Some (c_port captured) ->
  consistent (stateOf (onClose child code st)).
Proof.
  intros Hc Hchild Hport.
  destruct (onClose_maps child code st captured Hchild) as (Hp & Hq & Hu).
  eapply consistent_forget; eauto.
Qed.

Lemma consistent_runOps ops st : consistent st -> consistent (runOps ops st).
Proof.
  revert st. induction ops as [|op ops IH]; intros st Hc; [exact Hc|].
  apply IH. destruct op as [projectId|os projectId]; simpl.
  - apply consistent_startDevServer, Hc.
  - apply consistent_stopDevServer, Hc.
Qed.

Lemma consistent_heldPorts st : consistent st -> usedPorts st = heldPorts st.
Proof.
  intros [H1 H2 H3 H4]. apply set_eq. intros port. unfold heldPorts.
  rewrite elem_of_map_img, H2. split.
  - intros [k Hk]. exists k. apply map_lookup_filter_Some. split; [exact Hk|].
    simpl. apply H1. eauto.
  - intros [k Hk]. apply map_lookup_filter_Some in Hk as [Hk _]. eauto.
Qed.

(** As long as no child closes: after any sequence of [startDevServer] and
    [stopDevServer] calls on a manager without dev servers, the ports in
    use are the ports held by the process handles, and no port is held for
    two projects. *)
Lemma calls_keep_used_and_held_ports_equal st0 ops :
  idle st0 ->
  let st := runOps ops st0 in
  usedPorts st = heldPorts st /\
  (forall a b port, holds st a port -> holds st b port -> a = b).
Proof.
  intros Hidle. cbv zeta.
  pose proof (consistent_runOps ops st0 (consistent_idle st0 Hidle)) as Hc.
  split; [apply consistent_heldPorts, Hc|].
  intros a b port [_ Ha] [_ Hb]. eapply recorded_once; eauto.
Qed.

(** C2, at the failing input. [alpha] is started on port 3002 and stopped,
    which releases 3002; [beta] is started and is given 3002; then the
    child that ran [alpha] closes, and its handler releases the port it
    captured, 3002, which is held for [beta]: no port is in use although
    one is held.  The next start, of [gamma], is given 3002 as well, and
    the port is held for two projects. *)
Theorem late_close_releases_a_held_port :
  let before := runEvents (take 3 lateClose) threeProjects in
  let st := runEvents lateClose threeProjects in
  let again := startDevServer (js "gamma") st in
  (usedPorts before = {[3002]} /\ heldPorts before = {[3002]}) /\
  holds st (js "beta") 3002 /\
  usedPorts st = ∅ /\ heldPorts st = {[3002]} /\
  resultOf again = Ok (Some 3002, js "http://localhost:3002") /\
  holds (stateOf again) (js "beta") 3002 /\
  holds (stateOf again) (js "gamma") 3002.
Proof.
  cbv zeta. unfold holds.
  repeat split; try (vm_compute; reflexivity); vm_compute; eexists; reflexivity.
Qed.

(** ** Creating a project whose framework has no template *)

Lemma getTemplate_not_react cfg framework st :
  JS.toLowerCase framework <> js "react" ->
  getTemplate cfg framework st =
    (st, if bool_decide (JS.toLowerCase framework ∈
                           [js "vue"; js "svelte"; js "angular"; js "laravel"])
         then Throw (TemplateNotImplemented framework) else Ok None).
Proof.
  intros Hne. unfold getTemplate.
  rewrite bool_decide_eq_false_2 by exact Hne.
  destruct (bool_decide _); reflexivity.
Qed.

Lemma generateProjectFiles_no_template cfg project st :
  JS.toLowerCase (Project.framework project) <> js "react" ->
  exists e,
    resultOf (generateProjectFiles cfg project st) = Throw e /\
    (e = TemplateMissing (Project.framework project) \/
     e = TemplateNotImplemented (Project.framework project)) /\
    projects (stateOf (generateProjectFiles cfg project st)) = projects st /\
    dirs (stateOf (generateProjectFiles cfg project st)) = dirs st /\
    files (stateOf (generateProjectFiles cfg project st)) = files st.
Proof.
  intros Hne. unfold generateProjectFiles, bind.
  rewrite log_delivered. rewrite getTemplate_not_react by exact Hne.
  destruct (bool_decide _); simpl; eexists; repeat split; auto.
Qed.

Lemma mkdir_withDelivered f p st :
  mkdir p (withDelivered f st) =
    (withDelivered f (stateOf (mkdir p st)), resultOf (mkdir p st)).
Proof. unfold mkdir. cbn. destruct (forallb _ _); reflexivity. Qed.

Lemma mkdir_fields p st :
  projects (stateOf (mkdir p st)) = projects st /\
  files (stateOf (mkdir p st)) = files st /\
  now (stateOf (mkdir p st)) = now st.
Proof. unfold mkdir. destruct (forallb _ _); cbn; auto. Qed.

(** [getProjectStatus] reads the state and answers for every registered
    project. *)
Lemma getProjectStatus_registered projectId project st :
  projects st !! projectId = Some project ->
  exists status,
    getProjectStatus projectId st = (st, Ok status) /\
    ProjectStatus.id status = Project.id project /\
    ProjectStatus.name status = Project.name project /\
    ProjectStatus.framework status = Project.framework project /\
    ProjectStatus.running status = bool_decide (is_Some (processes st !! projectId)).
Proof.
  intros H. unfold getProjectStatus, bind, gets, ret. simpl. rewrite H. simpl.
  eexists. repeat split.
Qed.

Lemma mapM_getProjectStatus ids st :
  (forall k, k ∈ ids -> is_Some (projects st !! k)) ->
  exists statuses,
    mapM getProjectStatus ids st = (st, Ok statuses) /\
    Forall2 (fun k status =>
               exists project, projects st !! k = Some project /\
                               ProjectStatus.id status = Project.id project)
            ids statuses.
Proof.
  induction ids as [|k ids IH]; intros Hall.
  - exists []. split; [reflexivity|constructor].
  - destruct (Hall k) as [project Hk]; [left|].
    destruct (getProjectStatus_registered k project st Hk) as (status & Hs & Hid & _).
    destruct IH as (statuses & Hm & Hf); [intros j Hj; apply Hall; right; exact Hj|].
    exists (status :: statuses). split.
    + simpl. unfold bind. rewrite Hs. rewrite Hm. reflexivity.
    + constructor; [eauto|exact Hf].
Qed.

Lemma listProjects_shows_registered projectId project st :
  projects st !! projectId = Some project ->
  exists statuses,
    listProjects st = (st, Ok statuses) /\
    Project.id project ∈ ProjectStatus.id <$> statuses.
Proof.
  intros Hp. unfold listProjects, bind, gets. simpl.
  destruct (mapM_getProjectStatus (elements (dom (projects st))) st)
    as (statuses & Hm & Hf).
  { intros k Hk. apply elem_of_elements, elem_of_dom in Hk. exact Hk. }
  exists statuses. split; [exact Hm|].
  assert (projectId ∈ elements (dom (projects st))) as Hin.
  { apply elem_of_elements, elem_of_dom. eauto. }
  clear Hm. induction Hf as [|k status ids statuses (pr & Hk & Hid) Hf IH].
  - inversion Hin.
  - rewrite fmap_cons. apply elem_of_cons in Hin as [<-|Hin].
    + apply elem_of_cons. left. rewrite Hid. congruence.
    + apply elem_of_cons. right. apply IH, Hin.
Qed.

(** C10. When the framework asked for is not [react] (no template is
    returned for it) and the project directory can be created,
    [createProject] throws, and by then the directory has been created as
    [mkdir] creates it and the project has been put in the registry under
    its id: [getProjectStatus] answers for it and [listProjects] lists
    it. *)
Theorem createProject_fails_after_registering cfg bytes params st :
  JS.toLowerCase (param_framework params) <> js "react" ->
  let id := generateId bytes in
  let projectPath :=
    Path.join [PROJECTS_DIR cfg; directoryName (param_name params) id] in
  let project :=
    Project.mk id (param_name params) (param_framework params)
      (param_description params) projectPath (now st) in
  let failed := createProject cfg bytes params st in
  resultOf (mkdir projectPath st) = Ok tt ->
  (resultOf failed = Throw (TemplateMissing (param_framework params)) \/
   resultOf failed = Throw (TemplateNotImplemented (param_framework params))) /\
  dirs (stateOf failed) = dirs (stateOf (mkdir projectPath st)) /\
  files (stateOf failed) = files st /\
  projects (stateOf failed) = <[id := project]> (projects st) /\
  (exists status,
     getProjectStatus id (stateOf failed) = (stateOf failed, Ok status) /\
     ProjectStatus.id status = id) /\
  (exists statuses,
     listProjects (stateOf failed) = (stateOf failed, Ok statuses) /\
     id ∈ ProjectStatus.id <$> statuses).
Proof.
  intros Hne. cbv zeta. intros Hmk.
  set (id := generateId bytes).
  set (projectPath := Path.join [PROJECTS_DIR cfg; directoryName (param_name params) id]) in *.
  set (project := Project.mk id (param_name params) (param_framework params)
                    (param_description params) projectPath (now st)).
  change (resultOf (mkdir projectPath st) = Ok tt) in Hmk.
  assert (exists st2 e,
            createProject cfg bytes params st = (st2, Throw e) /\
            (e = TemplateMissing (param_framework params) \/
             e = TemplateNotImplemented (param_framework params)) /\
            dirs st2 = dirs (stateOf (mkdir projectPath st)) /\
            files st2 = files st /\
            projects st2 = <[id := project]> (projects st))
    as (st2 & e & Hrun & He & Hd & Hf & Hp).
  { unfold createProject, bind. fold id. fold projectPath.
    rewrite log_delivered, mkdir_withDelivered.
    destruct (mkdir_fields projectPath st) as (Hmp & Hmf & Hmn).
    destruct (mkdir projectPath st) as [st1 r1] eqn:Em.
    unfold resultOf, stateOf in *. cbn [fst snd] in *. subst r1.
    unfold gets, modify. cbn [fst snd now withDelivered]. rewrite Hmn. fold project.
    match goal with |- context [generateProjectFiles cfg project ?s] =>
      destruct (generateProjectFiles_no_template cfg project s Hne)
        as (e & Hres & He & Hp & Hd & Hf);
      destruct (generateProjectFiles cfg project s) as [st2 r] eqn:Eg end.
    unfold resultOf, stateOf in *. cbn [fst snd] in *. subst r.
    exists st2, e. split; [reflexivity|]. split; [exact He|].
    rewrite Hd, Hf, Hp. cbn. rewrite Hmf, Hmp. auto. }
  rewrite Hrun. unfold resultOf, stateOf. cbn [fst snd].
  split; [destruct He as [->| ->]; auto|].
  split; [exact Hd|]. split; [exact Hf|]. split; [exact Hp|].
  assert (projects st2 !! id = Some project) as Hlook
    by (rewrite Hp; apply lookup_insert_eq).
  split.
  - destruct (getProjectStatus_registered id project st2 Hlook) as (status & Hs & Hid & _).
    exists status. split; [exact Hs|exact Hid].
  - apply (listProjects_shows_registered id project st2 Hlook).
Qed.

Lemma createProject_fails_after_registering_sample :
  JS.toLowerCase (js "Django") <> js "react" /\
  resultOf (mkdir (js "/srv/app/projects/todo-abc123") (fresh ∅ ∅ 0)) = Ok tt /\
  let failed :=
    createProject sampleConfig sampleBytes (sampleParams (js "Django")) (fresh ∅ ∅ 0) in
  resultOf failed = Throw (TemplateMissing (js "Django")) /\
  is_Some (dirs (stateOf failed) !! js "/srv/app/projects/todo-abc123") /\
  is_Some (projects (stateOf failed) !! sampleId) /\
  (exists statuses,
     listProjects (stateOf failed) = (stateOf failed, Ok statuses) /\
     sampleId ∈ ProjectStatus.id <$> statuses).
Proof.
  split; [vm_compute; discriminate|]. split; [vm_compute; reflexivity|].
  pose proof (createProject_fails_after_registering sampleConfig sampleBytes
                (sampleParams (js "Django")) (fresh ∅ ∅ 0)) as H.
  cbv zeta in H. specialize (H ltac:(vm_compute; discriminate) ltac:(vm_compute; reflexivity)).
  destruct H as (_ & _ & _ & _ & _ & Hlist).
  cbv zeta. split; [vm_compute; reflexivity|].
  split; [vm_compute; eexists; reflexivity|].
  split; [vm_compute; eexists; reflexivity|].
  exact Hlist.
Defined.

(** ** The models of the library functions on sample inputs *)

Example resolve_joins_and_normalizes :
  Path.resolve (js "/srv/app") [js "projects"] = js "/srv/app/projects" /\
  Path.resolve (js "/srv/app") [js "/a/b/c"; js "../../x/./y/"] = js "/a/x/y" /\
  Path.resolve (js "/srv/app") [js "/a/b"; js "../../../../x"] = js "/x" /\
  Path.resolve (js "/srv/app") [js "/a/b"; js "/etc/passwd"] = js "/etc/passwd" /\
  Path.join [js "/a/b/c.txt"; js ".."] = js "/a/b" /\
  Path.upTo (js "/a/b/c") = [js "/a"; js "/a/b"; js "/a/b/c"].
Proof. repeat split; vm_compute; reflexivity. Qed.

Example cleanLogLine_strips_and_filters :
  Classifier.cleanLogLine
    ([27; 91; 51; 50; 109] ++ js "  ok done " ++ [27; 91; 50; 75; 13]) = js "ok done" /\
  Classifier.cleanLogLine (js "  x ") = [] /\
  Classifier.cleanLogLine [27; 91; 48; 109; 10251] = [].
Proof. repeat split; vm_compute; reflexivity. Qed.

Example detectLogLevel_word_boundaries :
  Classifier.detectLogLevel (js "npm ERR! code") = error /\
  Classifier.detectLogLevel (js "stderr closed") = info /\
  Classifier.detectLogLevel (js "vite built in 12  ms") = success /\
  Classifier.detectLogLevel (js "vite built in 12 msec") = info /\
  Classifier.detectLogLevel (js "Local:   http://localhost:3002/") = success.
Proof. repeat split; vm_compute; reflexivity. Qed.

Example sample_run_creates_the_template_files :
  resultOf (createProject sampleConfig sampleBytes (sampleParams (js "react"))
              (fresh ∅ ∅ 0)) =
    Ok (Project.mk sampleId (js "Todo") (js "react") None
          (js "/srv/app/projects/todo-abc123") 0) /\
  files afterCreate !! js "/srv/app/projects/todo-abc123/src/main.tsx" =
    Some (js "render(Todo)").
Proof. split; vm_compute; reflexivity. Qed.

(** * Further properties *)

(** A closed decidable statement, settled by evaluation. *)
Ltac by_compute :=
  match goal with
  | |- ?P => apply (bool_decide_eq_true_1 P); vm_compute; reflexivity
  end.

(** ** Paths *)

Lemma split_nonempty s : Path.split s <> [].
Proof.
  induction s as [|c s IH]; simpl; [discriminate|].
  destruct (c =? Path.slash); [discriminate|].
  destruct (Path.split s); discriminate.
Qed.

Lemma split_app a b :
  Path.split (a ++ Path.slash :: b) = Path.split a ++ Path.split b.
Proof.
  induction a as [|c a IH]; simpl.
  - reflexivity.
  - destruct (c =? Path.slash); [rewrite IH; reflexivity|].
    rewrite IH. pose proof (split_nonempty a) as Hne.
    destruct (Path.split a); [congruence|reflexivity].
Qed.

Lemma split_no_slash seg : Path.slash ∉ seg -> Path.split seg = [seg].
Proof.
  induction seg as [|c seg IH]; intros H; simpl; [reflexivity|].
  rewrite not_elem_of_cons in H. destruct H as [Hc H].
  destruct (c =? Path.slash) eqn:E; [apply Z.eqb_eq in E; congruence|].
  rewrite IH by exact H. reflexivity.
Qed.

Lemma split_segments s : Forall (fun seg => Path.slash ∉ seg) (Path.split s).
Proof.
  induction s as [|c s IH]; simpl.
  - constructor; [apply not_elem_of_nil|constructor].
  - destruct (c =? Path.slash) eqn:E.
    + constructor; [apply not_elem_of_nil|exact IH].
    + apply Z.eqb_neq in E. pose proof (split_nonempty s) as Hne.
      destruct (Path.split s) as [|h r]; [congruence|].
      inversion IH; subst. constructor; [|assumption].
      rewrite not_elem_of_cons. split; [congruence|assumption].
Qed.

Lemma joinSegments_cons x l :
  l <> [] -> Path.joinSegments (x :: l) = x ++ Path.slash :: Path.joinSegments l.
Proof. destruct l; [congruence|reflexivity]. Qed.

Lemma joinSegments_snoc l x :
  l <> [] -> Path.joinSegments (l ++ [x]) = Path.joinSegments l ++ Path.slash :: x.
Proof.
  induction l as [|y l IH]; [congruence|]. intros _.
  destruct l as [|z l]; [reflexivity|].
  change ((y :: z :: l) ++ [x]) with (y :: ((z :: l) ++ [x])).
  rewrite joinSegments_cons by (destruct l; discriminate).
  rewrite IH by discriminate.
  rewrite (joinSegments_cons y (z :: l)) by discriminate.
  rewrite <- app_assoc. reflexivity.
Qed.

Lemma split_joinSegments l :
  l <> [] -> Forall (fun seg => Path.slash ∉ seg) l ->
  Path.split (Path.joinSegments l) = l.
Proof.
  induction l as [|x l IH]; [congruence|]. intros _ H.
  inversion H as [|? ? Hx Hl]; subst.
  destruct l as [|y l]; [apply split_no_slash, Hx|].
  rewrite joinSegments_cons by discriminate.
  rewrite split_app, split_no_slash by exact Hx.
  rewrite IH by (discriminate || assumption). reflexivity.
Qed.

Lemma pushSegment_plain stack seg :
  plain seg -> Path.pushSegment false stack seg = seg :: stack.
Proof.
  intros (H1 & H2 & H3 & _). unfold Path.pushSegment.
  rewrite (bool_decide_eq_false_2 _ H1), (bool_decide_eq_false_2 _ H2),
    (bool_decide_eq_false_2 _ H3). reflexivity.
Qed.

Lemma pushSegment_keeps_plain stack seg :
  Forall plain stack -> Path.slash ∉ seg ->
  Forall plain (Path.pushSegment false stack seg).
Proof.
  intros Hs Hseg. unfold Path.pushSegment.
  destruct (bool_decide (seg = [])) eqn:E1; [exact Hs|].
  destruct (bool_decide (seg = js ".")) eqn:E2; [exact Hs|]. simpl.
  destruct (bool_decide (seg = js "..")) eqn:E3.
  - destruct stack as [|top rest]; [constructor|].
    destruct (bool_decide (top = js "..")); [exact Hs|].
    inversion Hs; assumption.
  - constructor; [|exact Hs].
    apply bool_decide_eq_false in E1, E2, E3. repeat split; assumption.
Qed.

Lemma foldl_pushSegment_keeps_plain segs stack :
  Forall plain stack -> Forall (fun seg => Path.slash ∉ seg) segs ->
  Forall plain (foldl (Path.pushSegment false) stack segs).
Proof.
  revert stack. induction segs as [|seg segs IH]; intros stack Hs H; [exact Hs|].
  inversion H; subst. simpl. apply IH; [|assumption].
  apply pushSegment_keeps_plain; assumption.
Qed.

Lemma foldl_pushSegment_plain segs stack :
  Forall plain segs ->
  foldl (Path.pushSegment false) stack segs = rev segs ++ stack.
Proof.
  revert stack. induction segs as [|seg segs IH]; intros stack H; [reflexivity|].
  inversion H; subst. simpl. rewrite pushSegment_plain by assumption.
  rewrite IH by assumption. rewrite <- app_assoc. reflexivity.
Qed.

Lemma segmentStack_plain path : Forall plain (segmentStack path).
Proof.
  apply foldl_pushSegment_keeps_plain; [constructor|apply split_segments].
Qed.

Lemma segmentStack_app a b :
  segmentStack (a ++ Path.slash :: b) =
    foldl (Path.pushSegment false) (segmentStack a) (Path.split b).
Proof. unfold segmentStack. rewrite split_app, foldl_app. reflexivity. Qed.

Lemma segmentStack_trailing a : segmentStack (a ++ [Path.slash]) = segmentStack a.
Proof. rewrite segmentStack_app. reflexivity. Qed.

Lemma plain_no_slash l : Forall plain l -> Forall (fun seg => Path.slash ∉ seg) l.
Proof.
  intros H. eapply Forall_impl; [exact H|].
  intros seg (_ & _ & _ & Hs). exact Hs.
Qed.

Lemma segmentStack_normalized stack :
  Forall plain stack ->
  segmentStack (Path.slash :: Path.joinSegments (rev stack)) = stack.
Proof.
  intros H. change (Path.slash :: Path.joinSegments (rev stack))
    with ([] ++ Path.slash :: Path.joinSegments (rev stack)).
  rewrite segmentStack_app. change (segmentStack []) with (@nil jsstring).
  destruct (decide (stack = [])) as [->|Hne]; [reflexivity|].
  rewrite split_joinSegments.
  - rewrite foldl_pushSegment_plain by (apply Forall_rev, H).
    rewrite rev_involutive, app_nil_r. reflexivity.
  - intros E. apply Hne. apply (f_equal (@rev jsstring)) in E.
    rewrite rev_involutive in E. exact E.
  - apply plain_no_slash, Forall_rev, H.
Qed.

Lemma isAbsolute_cons path :
  Path.isAbsolute path = true -> exists rest, path = Path.slash :: rest.
Proof.
  destruct path as [|c rest]; [discriminate|]. simpl. intros H.
  apply Z.eqb_eq in H. subst. eauto.
Qed.

Lemma normalizeString_segmentStack path :
  Path.normalizeString path false = Path.joinSegments (rev (segmentStack path)).
Proof. reflexivity. Qed.

Lemma joinSegments_nil l : Forall plain l -> Path.joinSegments l = [] -> l = [].
Proof.
  destruct l as [|x l]; [reflexivity|]. intros H E. exfalso.
  inversion H as [|? ? (Hx & _) _]; subst.
  destruct l; simpl in E; [congruence|].
  destruct x; [congruence|discriminate].
Qed.

(** [path.resolve] of one absolute path. *)
Lemma resolve_absolute cwd path :
  Path.isAbsolute path = true ->
  Path.resolve cwd [path] =
    Path.slash :: Path.joinSegments (rev (segmentStack path)).
Proof.
  intros H. destruct (isAbsolute_cons path H) as [rest ->].
  unfold Path.resolve. simpl rev. unfold Path.resolveLoop.
  rewrite bool_decide_eq_false_2 by discriminate. rewrite H.
  rewrite normalizeString_segmentStack. simpl negb. cbv iota beta.
  change (Path.slash :: rest ++ [Path.slash]) with ((Path.slash :: rest) ++ [Path.slash]).
  rewrite segmentStack_trailing. reflexivity.
Qed.

Lemma resolved_is_normalized cwd path :
  Path.isAbsolute path = true -> Path.resolve cwd [path] = path -> normalized path.
Proof.
  intros Ha Hr. exists (segmentStack path). split; [apply segmentStack_plain|].
  rewrite <- Hr at 1. apply resolve_absolute, Ha.
Qed.

Lemma normalized_segmentStack path stack :
  Forall plain stack -> path = Path.slash :: Path.joinSegments (rev stack) ->
  segmentStack path = stack.
Proof. intros H ->. apply segmentStack_normalized, H. Qed.

(** [path.resolve] of an absolute path and a relative one. *)
Lemma resolve_relative cwd path rel :
  Path.isAbsolute path = true -> Path.isAbsolute rel = false ->
  Path.resolve cwd [path; rel] =
    Path.slash ::
      Path.joinSegments
        (rev (foldl (Path.pushSegment false) (segmentStack path) (Path.split rel))).
Proof.
  intros Ha Hr. destruct (isAbsolute_cons path Ha) as [rest ->].
  unfold Path.resolve. simpl rev. unfold Path.resolveLoop.
  destruct (decide (rel = [])) as [->|Hne].
  - rewrite bool_decide_eq_true_2 by reflexivity.
    rewrite bool_decide_eq_false_2 by discriminate. rewrite Ha.
    rewrite normalizeString_segmentStack. simpl negb. cbv iota beta.
    change (Path.slash :: rest ++ [Path.slash]) with ((Path.slash :: rest) ++ [Path.slash]).
    rewrite segmentStack_trailing. reflexivity.
  - rewrite (bool_decide_eq_false_2 _ Hne). rewrite Hr.
    rewrite bool_decide_eq_false_2 by discriminate. rewrite Ha.
    rewrite normalizeString_segmentStack. simpl negb. cbv iota beta.
    rewrite segmentStack_app.
    change (rel ++ [Path.slash]) with (rel ++ Path.slash :: []).
    rewrite split_app, foldl_app. reflexivity.
Qed.

(** [path.normalize] of an absolute path keeps the stack of segments. *)
Lemma normalize_absolute path :
  Path.isAbsolute path = true ->
  Path.isAbsolute (Path.normalize path) = true /\
  segmentStack (Path.normalize path) = segmentStack path.
Proof.
  intros Ha. destruct (isAbsolute_cons path Ha) as [rest Hp].
  unfold Path.normalize. rewrite bool_decide_eq_false_2 by (subst; discriminate).
  rewrite Ha. rewrite normalizeString_segmentStack. simpl negb.
  pose proof (segmentStack_plain path) as Hplain.
  destruct (bool_decide (Path.joinSegments (rev (segmentStack path)) = [])) eqn:E.
  - apply bool_decide_eq_true in E.
    apply joinSegments_nil in E; [|apply Forall_rev, Hplain].
    apply (f_equal (@rev jsstring)) in E. rewrite rev_involutive in E.
    rewrite E. split; reflexivity.
  - destruct (match last path with Some c => c =? Path.slash | None => false end).
    + split; [reflexivity|].
      change (Path.slash :: Path.joinSegments (rev (segmentStack path)) ++ [Path.slash])
        with ((Path.slash :: Path.joinSegments (rev (segmentStack path))) ++ [Path.slash]).
      rewrite segmentStack_trailing. apply segmentStack_normalized, Hplain.
    + split; [reflexivity|]. apply segmentStack_normalized, Hplain.
Qed.

Lemma join_absolute_relative path rel :
  Path.isAbsolute path = true ->
  Path.isAbsolute (Path.join [path; rel]) = true /\
  segmentStack (Path.join [path; rel]) =
    foldl (Path.pushSegment false) (segmentStack path) (Path.split rel).
Proof.
  intros Ha. destruct (isAbsolute_cons path Ha) as [rest Hp].
  unfold Path.join.
  destruct (decide (rel = [])) as [->|Hne].
  - assert (filter (fun a : jsstring => a <> []) [path; []] = [path]) as ->.
    { rewrite filter_cons_True by (subst; discriminate).
      rewrite filter_cons_False by (intros H; apply H; reflexivity). reflexivity. }
    rewrite bool_decide_eq_false_2 by discriminate.
    simpl Path.joinSegments. destruct (normalize_absolute path Ha) as [H1 H2].
    split; [exact H1|]. rewrite H2. reflexivity.
  - assert (filter (fun a : jsstring => a <> []) [path; rel] = [path; rel]) as ->.
    { rewrite filter_cons_True by (subst; discriminate).
      rewrite filter_cons_True by exact Hne. reflexivity. }
    rewrite bool_decide_eq_false_2 by discriminate.
    rewrite joinSegments_cons by discriminate. simpl Path.joinSegments.
    assert (Path.isAbsolute (path ++ Path.slash :: rel) = true) as Ha'
      by (subst; reflexivity).
    destruct (normalize_absolute _ Ha') as [H1 H2].
    split; [exact H1|]. rewrite H2. apply segmentStack_app.
Qed.

(** The two ways in which the manager computes the full path of a file of
    a project agree on relative file paths. *)
Lemma resolve_join cwd path rel :
  Path.isAbsolute path = true -> Path.isAbsolute rel = false ->
  Path.resolve cwd [Path.join [path; rel]] = Path.resolve cwd [path; rel].
Proof.
  intros Ha Hr. destruct (join_absolute_relative path rel Ha) as [H1 H2].
  rewrite (resolve_absolute cwd _ H1), H2.
  symmetry. apply resolve_relative; assumption.
Qed.

(** Joining plain segments to a normalized path appends them. *)
Lemma join_plain path seg :
  normalized path -> path <> [Path.slash] -> plain seg ->
  Path.join [path; seg] = path ++ Path.slash :: seg.
Proof.
  intros (stack & Hplain & Hp) Hroot Hseg.
  assert (stack <> []) as Hstack.
  { intros ->. apply Hroot. subst. reflexivity. }
  assert (Path.isAbsolute path = true) as Ha by (subst; reflexivity).
  destruct Hseg as (Hne & Hdot & Hdots & Hslash).
  unfold Path.join.
  assert (filter (fun a : jsstring => a <> []) [path; seg] = [path; seg]) as ->.
  { rewrite filter_cons_True by (subst; discriminate).
    rewrite filter_cons_True by exact Hne. reflexivity. }
  rewrite bool_decide_eq_false_2 by discriminate.
  rewrite joinSegments_cons by discriminate. simpl Path.joinSegments.
  unfold Path.normalize.
  rewrite bool_decide_eq_false_2 by (subst; discriminate).
  assert (Path.isAbsolute (path ++ Path.slash :: seg) = true) as -> by (subst; reflexivity).
  rewrite normalizeString_segmentStack, segmentStack_app.
  rewrite (normalized_segmentStack path stack Hplain Hp).
  rewrite split_no_slash by exact Hslash. simpl foldl.
  rewrite pushSegment_plain by (repeat split; assumption).
  simpl rev. rewrite joinSegments_snoc.
  2:{ intros E. apply Hstack. apply (f_equal (@rev jsstring)) in E.
      rewrite rev_involutive in E. exact E. }
  rewrite bool_decide_eq_false_2.
  2:{ intros E. apply app_eq_nil in E as [_ E]. discriminate. }
  assert (last (path ++ Path.slash :: seg) = last seg) as Hlast.
  { rewrite last_app. destruct seg as [|c seg]; [congruence|].
    rewrite last_cons. destruct (last (c :: seg)) eqn:E; [reflexivity|].
    apply last_None in E. discriminate. }
  rewrite Hlast.
  assert (match last seg with Some c => c =? Path.slash | None => false end = false) as ->.
  { destruct (last seg) as [c|] eqn:E; [|reflexivity].
    apply Z.eqb_neq. intros ->. apply Hslash.
    apply last_Some in E as [l' ->]. apply elem_of_app. right. left. }
  simpl negb. cbv iota. rewrite Hp. reflexivity.
Qed.

(** ** What a method leaves alone *)

Section Keeps.
Context {B : Type} (f : State -> B).

Lemma keeps_ret {A} (a : A) : keeps f (ret a).
Proof. intros st. reflexivity. Qed.

Lemma keeps_throw {A} e : keeps f (@throw A e).
Proof. intros st. reflexivity. Qed.

Lemma keeps_gets {A} (g : State -> A) : keeps f (gets g).
Proof. intros st. reflexivity. Qed.

Lemma keeps_bind {A C} (m : M A) (k : A -> M C) :
  keeps f m -> (forall a, keeps f (k a)) -> keeps f (bind m k).
Proof.
  intros Hm Hk st. specialize (Hm st). unfold bind, stateOf in *.
  destruct (m st) as [st' [a|e]]; cbn [fst] in *; [|exact Hm].
  rewrite <- Hm. apply Hk.
Qed.


Lemma keeps_forEach {A} (l : list A) (body : A -> M unit) :
  (forall x, keeps f (body x)) -> keeps f (forEach l body).
Proof.
  intros Hb. induction l as [|x l IH]; simpl; [apply keeps_ret|].
  apply keeps_bind; [apply Hb|intros _; exact IH].
Qed.

Lemma keeps_mapM {A C} (g : A -> M C) (l : list A) :
  (forall x, keeps f (g x)) -> keeps f (mapM g l).
Proof.
  intros Hg. induction l as [|x l IH]; simpl; [apply keeps_ret|].
  apply keeps_bind; [apply Hg|intros y].
  apply keeps_bind; [exact IH|intros ys; apply keeps_ret].
Qed.

(** A view that does not read the deliveries is kept by [log]. *)
Lemma keeps_log projectId level message :
  (forall g st, f (withDelivered g st) = f st) ->
  keeps f (log projectId level message).
Proof. intros H st. rewrite log_delivered. apply H. Qed.

Lemma keeps_mkdir p :
  (forall g st, f (withDirs g st) = f st) -> keeps f (mkdir p).
Proof.
  intros H st. unfold mkdir. destruct (forallb _ _); [apply H|reflexivity].
Qed.

Lemma keeps_fsWriteFile p content :
  (forall g st, f (withFiles g st) = f st) -> keeps f (fsWriteFile p content).
Proof.
  intros H st. unfold fsWriteFile.
  repeat destruct (bool_decide _); try reflexivity. apply H.
Qed.

End Keeps.

Lemma keeps_getTemplate {B} (f : State -> B) cfg framework :
  keeps f (getTemplate cfg framework).
Proof.
  intros st. unfold getTemplate. repeat destruct (bool_decide _); reflexivity.
Qed.

Lemma generateProjectFiles_keeps_projects cfg project :
  keeps projects (generateProjectFiles cfg project).
Proof.
  unfold generateProjectFiles.
  apply keeps_bind; [apply keeps_log; reflexivity|intros _].
  apply keeps_bind; [apply keeps_getTemplate|intros [entries|]]; [|apply keeps_throw].
  apply keeps_bind; [|intros _; apply keeps_log; reflexivity].
  apply keeps_forEach. intros [filePath content].
  apply keeps_bind; [apply keeps_mkdir; reflexivity|intros _].
  apply keeps_fsWriteFile. reflexivity.
Qed.

(** ** Where projects and their files live *)

Lemma sanitize_no_slash name : Path.slash ∉ sanitize name.
Proof.
  unfold sanitize. intros H. apply list_elem_of_fmap in H as (c & Hc & _).
  destruct (JS.inRange 97 122 c || JS.isDigit c || (c =? 45)) eqn:E.
  - subst c. vm_compute in E. discriminate.
  - discriminate.
Qed.

Lemma isHex_no_slash l : forallb isHex l = true -> Path.slash ∉ l.
Proof.
  intros H Hin. rewrite forallb_forall in H.
  apply list_elem_of_In in Hin. apply H in Hin. vm_compute in Hin. discriminate.
Qed.

Lemma directoryName_plain name bytes :
  plain (directoryName name (generateId bytes)).
Proof.
  unfold directoryName.
  change (js "-" ++ JS.slice0 6 (generateId bytes))
    with (45 :: JS.slice0 6 (generateId bytes)).
  assert (45 ∈ sanitize name ++ 45 :: JS.slice0 6 (generateId bytes)) as Hdash.
  { apply elem_of_app. right. left. }
  repeat split.
  - intros E. rewrite E in Hdash. inversion Hdash.
  - intros E. rewrite E in Hdash. revert Hdash. change (45 ∉ js "."). by_compute.
  - intros E. rewrite E in Hdash. revert Hdash. change (45 ∉ js ".."). by_compute.
  - intros H. apply elem_of_app in H as [H|H].
    + exact (sanitize_no_slash name H).
    + apply elem_of_cons in H as [H|H]; [discriminate|].
      revert H. apply isHex_no_slash. unfold JS.slice0, generateId.
      apply forallb_take, toHex_isHex.
Qed.

Lemma PROJECTS_DIR_normalized cfg :
  Path.isAbsolute (cwd cfg) = true ->
  normalized (PROJECTS_DIR cfg) /\ PROJECTS_DIR cfg <> [Path.slash].
Proof.
  intros Ha. unfold PROJECTS_DIR.
  rewrite resolve_relative by (exact Ha || reflexivity).
  change (Path.split (js "projects")) with [js "projects"]. simpl foldl.
  rewrite pushSegment_plain.
  2:{ repeat split; try discriminate.
      by_compute. }
  split.
  - exists (js "projects" :: segmentStack (cwd cfg)). split; [|reflexivity].
    constructor; [|apply segmentStack_plain].
    repeat split; try discriminate.
    by_compute.
  - intros E. injection E as E. simpl rev in E.
    destruct (rev (segmentStack (cwd cfg))) as [|x l]; [discriminate|].
    simpl app in E. rewrite joinSegments_cons in E by (destruct l; discriminate).
    apply app_eq_nil in E as [_ E]. discriminate.
Qed.

Lemma createProject_Ok cfg bytes params st project :
  resultOf (createProject cfg bytes params st) = Ok project ->
  project =
    Project.mk (generateId bytes) (param_name params) (param_framework params)
      (param_description params)
      (Path.join [PROJECTS_DIR cfg;
                  directoryName (param_name params) (generateId bytes)])
      (now st) /\
  projects (stateOf (createProject cfg bytes params st)) !! generateId bytes =
    Some project.
Proof.
  unfold createProject, bind. rewrite log_delivered, mkdir_withDelivered.
  destruct (mkdir_fields
              (Path.join [PROJECTS_DIR cfg;
                          directoryName (param_name params) (generateId bytes)]) st)
    as (Hmp & Hmf & Hmn).
  destruct (mkdir _ st) as [st1 [[]|e1]]; unfold resultOf, stateOf in *;
    cbn [fst snd] in *; [|discriminate].
  unfold gets, modify. cbn [fst snd now withDelivered]. rewrite Hmn.
  match goal with |- context [generateProjectFiles cfg ?p ?s] =>
    destruct (generateProjectFiles cfg p s) as [st2 [[]|e2]] eqn:Eg end;
    cbn [fst snd]; [|discriminate].
  rewrite log_delivered. unfold ret. cbn [fst snd].
  intros [= <-]. split; [reflexivity|].
  cbn [projects withDelivered].
  match type of Eg with generateProjectFiles cfg ?p ?s = _ =>
    pose proof (generateProjectFiles_keeps_projects cfg p s) as Hkeep end.
  rewrite Eg in Hkeep.
  unfold stateOf in Hkeep. cbn [fst] in Hkeep. rewrite Hkeep.
  cbn [projects withProjects]. apply lookup_insert_eq.
Qed.

(** X1. Whatever the name asked for, a project that [createProject]
    returns lives in a directory directly below the projects directory:
    its path is the projects directory, a slash, and a directory name
    without slash made of the sanitized name and six digits of the id. *)
Theorem createProject_path_is_child_of_projects_dir cfg bytes params st project :
  Path.isAbsolute (cwd cfg) = true ->
  resultOf (createProject cfg bytes params st) = Ok project ->
  Project.path project =
    PROJECTS_DIR cfg ++ Path.slash ::
      directoryName (param_name params) (generateId bytes) /\
  (Path.slash ∉ directoryName (param_name params) (generateId bytes)) /\
  Path.within (PROJECTS_DIR cfg) (Project.path project) = true /\
  projects (stateOf (createProject cfg bytes params st)) !! Project.id project =
    Some project.
Proof.
  intros Ha Hok. destruct (createProject_Ok _ _ _ _ _ Hok) as [Hp Hreg].
  destruct (PROJECTS_DIR_normalized cfg Ha) as [Hn Hroot].
  pose proof (directoryName_plain (param_name params) bytes) as Hd.
  assert (Project.path project =
            PROJECTS_DIR cfg ++ Path.slash ::
              directoryName (param_name params) (generateId bytes)) as Hpath.
  { rewrite Hp. cbn [Project.path]. apply join_plain; assumption. }
  split; [exact Hpath|]. split; [apply Hd|]. split.
  - rewrite Hpath. unfold Path.within. apply orb_true_iff. right.
    change (PROJECTS_DIR cfg ++ Path.slash ::
              directoryName (param_name params) (generateId bytes))
      with (PROJECTS_DIR cfg ++ [Path.slash] ++
              directoryName (param_name params) (generateId bytes)).
    rewrite app_assoc.
    generalize (PROJECTS_DIR cfg ++ [Path.slash]). intros l.
    induction l as [|c l IH]; simpl.
    + destruct (directoryName _ _); reflexivity.
    + rewrite Z.eqb_refl. exact IH.
  - rewrite Hp at 1. cbn [Project.id]. exact Hreg.
Qed.

Lemma createProject_path_is_child_of_projects_dir_sample :
  let params := {| param_name := js "../../etc/Passwd"; param_framework := js "react";
                   param_description := None |} in
  let project :=
    Project.mk sampleId (js "../../etc/Passwd") (js "react") None
      (js "/srv/app/projects/------etc-passwd-abc123") 0 in
  Path.isAbsolute (cwd sampleConfig) = true /\
  resultOf (createProject sampleConfig sampleBytes params (fresh ∅ ∅ 0)) = Ok project /\
  Project.path project =
    PROJECTS_DIR sampleConfig ++ Path.slash ::
      directoryName (param_name params) (generateId sampleBytes) /\
  Path.within (PROJECTS_DIR sampleConfig) (Project.path project) = true.
Proof.
  intros params project.
  assert (resultOf (createProject sampleConfig sampleBytes params (fresh ∅ ∅ 0)) =
            Ok project) as Hok by (vm_compute; reflexivity).
  split; [reflexivity|]. split; [exact Hok|].
  destruct (createProject_path_is_child_of_projects_dir sampleConfig sampleBytes
              params (fresh ∅ ∅ 0) project eq_refl Hok) as (Hpath & _ & Hin & _).
  split; [exact Hpath|exact Hin].
Defined.

Lemma writeFile_keeps_projects cfg projectId filePath content :
  keeps projects (writeFile cfg projectId filePath content).
Proof.
  unfold writeFile. apply keeps_bind; [apply keeps_gets|intros [project|]];
    [|apply keeps_throw].
  destruct (negb _); [apply keeps_throw|].
  apply keeps_bind; [apply keeps_log; reflexivity|intros _].
  apply keeps_bind; [apply keeps_mkdir; reflexivity|intros _].
  apply keeps_bind; [apply keeps_fsWriteFile; reflexivity|intros _].
  apply keeps_log; reflexivity.
Qed.

Lemma writeFile_Ok cfg st projectId project filePath content :
  projects st !! projectId = Some project ->
  resultOf (writeFile cfg projectId filePath content st) = Ok tt ->
  let fullPath := Path.resolve (cwd cfg) [Project.path project; filePath] in
  JS.startsWith fullPath (Project.path project) = true /\
  files (stateOf (writeFile cfg projectId filePath content st)) !! fullPath =
    Some content.
Proof.
  intros Hp. cbv zeta. unfold writeFile, bind, gets. cbn [fst snd]. rewrite Hp.
  destruct (JS.startsWith _ (Project.path project)); cbn [negb]; [|discriminate].
  rewrite log_delivered.
  match goal with |- context [mkdir ?d ?s] =>
    destruct (mkdir d s) as [s1 [[]|e1]] end; unfold resultOf, stateOf; cbn [fst snd];
    [|discriminate].
  unfold fsWriteFile.
  destruct (bool_decide (is_Some (dirs s1 !! _))); cbn [fst snd]; [discriminate|].
  destruct (bool_decide (is_Some (dirs s1 !! _))); cbn [fst snd]; [|discriminate].
  rewrite log_delivered. cbn [fst snd files withDelivered withFiles].
  intros _. split; [reflexivity|apply lookup_insert_eq].
Qed.

Lemma throughUtf8_wellFormed_upto n s :
  (length s <= n)%nat -> (throughUtf8 s = s <-> isWellFormed s = true).
Proof.
  revert s. induction n as [|n IH]; intros s Hn.
  { destruct s; [split; reflexivity|simpl in Hn; lia]. }
  destruct s as [|c t]; [split; reflexivity|]. simpl in Hn.
  cbn [throughUtf8 isWellFormed].
  destruct (isHighSurrogate c) eqn:Hh.
  - assert (c <> 65533) as Hc.
    { intros ->. vm_compute in Hh. discriminate. }
    destruct t as [|d t']; [split; [intros [= H]; congruence|discriminate]|].
    simpl in Hn. destruct (isLowSurrogate d) eqn:Hl; cbn [andb].
    + rewrite <- (IH t') by lia. split; [intros [= H]; exact H|intros ->; reflexivity].
    + split; [intros [= H _]; congruence|discriminate].
  - destruct (isLowSurrogate c) eqn:Hl; cbn [negb andb].
    + assert (c <> 65533) as Hc.
      { intros ->. vm_compute in Hl. discriminate. }
      split; [intros [= H _]; congruence|discriminate].
    + rewrite <- (IH t) by lia. split; [intros [= H]; exact H|intros ->; reflexivity].
Qed.

Lemma throughUtf8_wellFormed s : throughUtf8 s = s <-> isWellFormed s = true.
Proof. apply (throughUtf8_wellFormed_upto (length s)). lia. Qed.

(** X2. A file written through [writeFile] under a relative path is read
    back by [readProjectFile] under the same path, as far as UTF-8 can
    hold it: for a project whose path is absolute and in resolved form,
    when the write returns, the read changes nothing and returns the
    content written with every surrogate that has no partner replaced by
    U+FFFD.  So the read returns exactly the content written if and only
    if the content is a well-formed string. *)
Theorem readProjectFile_reads_what_writeFile_wrote
  cfg st projectId project filePath content :
  projects st !! projectId = Some project ->
  Path.isAbsolute (Project.path project) = true ->
  Path.resolve (cwd cfg) [Project.path project] = Project.path project ->
  Path.isAbsolute filePath = false ->
  resultOf (writeFile cfg projectId filePath content st) = Ok tt ->
  let written := stateOf (writeFile cfg projectId filePath content st) in
  readProjectFile cfg projectId filePath written =
    (written, Ok (throughUtf8 content)) /\
  (readProjectFile cfg projectId filePath written = (written, Ok content) <->
   isWellFormed content = true).
Proof.
  intros Hp Ha Hres Hrel Hok. cbv zeta.
  destruct (writeFile_Ok cfg st projectId project filePath content Hp Hok)
    as [Hstarts Hfile].
  assert (readProjectFile cfg projectId filePath
            (stateOf (writeFile cfg projectId filePath content st)) =
          (stateOf (writeFile cfg projectId filePath content st),
           Ok (throughUtf8 content))) as Hread.
  { unfold readProjectFile, bind, gets. cbn [fst snd].
    rewrite (writeFile_keeps_projects cfg projectId filePath content st), Hp.
    rewrite resolve_join by assumption. rewrite Hres, Hstarts. cbn [negb].
    unfold fsReadFile. rewrite Hfile. reflexivity. }
  split; [exact Hread|]. rewrite Hread, <- throughUtf8_wellFormed.
  split; [intros [= H]; exact H|intros ->; reflexivity].
Qed.

Lemma readProjectFile_reads_what_writeFile_wrote_sample :
  let project :=
    Project.mk sampleId (js "Todo") (js "react") None
      (js "/srv/app/projects/todo-abc123") 0 in
  let content := js "const mark = '" ++ [10003; 55357; 56832; 55357] ++ js "'" in
  let written :=
    stateOf (writeFile sampleConfig sampleId (js "src/./pages/../App.tsx")
               content afterCreate) in
  projects afterCreate !! sampleId = Some project /\
  (readProjectFile sampleConfig sampleId (js "src/./pages/../App.tsx") written =
     (written,
      Ok (js "const mark = '" ++ [10003; 55357; 56832; 65533] ++ js "'")) /\
   (readProjectFile sampleConfig sampleId (js "src/./pages/../App.tsx") written =
      (written, Ok content) <->
    isWellFormed content = true)) /\
  isWellFormed content = false /\
  files written !! js "/srv/app/projects/todo-abc123/src/App.tsx" = Some content.
Proof.
  intros project content written.
  assert (projects afterCreate !! sampleId = Some project) as Hp
    by (vm_compute; reflexivity).
  split; [exact Hp|]. split; [|split].
  - apply (readProjectFile_reads_what_writeFile_wrote sampleConfig afterCreate
             sampleId project (js "src/./pages/../App.tsx") content Hp);
      vm_compute; reflexivity.
  - vm_compute. reflexivity.
  - vm_compute. reflexivity.
Defined.

(** A file path that is absolute does not round-trip: [writeFile] resolves
    it on its own, [readProjectFile] joins it to the project path first. *)
Lemma absolute_file_path_is_read_elsewhere :
  let absolute := js "/srv/app/projects/todo-abc123/notes.txt" in
  let written := writeFile sampleConfig sampleId absolute (js "n") afterCreate in
  resultOf written = Ok tt /\
  files (stateOf written) !! absolute = Some (js "n") /\
  resultOf (readProjectFile sampleConfig sampleId absolute (stateOf written)) =
    Throw (FsError (js "/srv/app/projects/todo-abc123/srv/app/projects/todo-abc123/notes.txt")).
Proof. repeat split; vm_compute; reflexivity. Qed.

(** ** Sentry configuration *)

Lemma segmentStack_join_plain path seg :
  Path.isAbsolute path = true -> plain seg ->
  segmentStack (Path.join [path; seg]) = seg :: segmentStack path.
Proof.
  intros Ha Hseg. destruct (join_absolute_relative path seg Ha) as [_ ->].
  rewrite split_no_slash by apply Hseg. simpl. apply pushSegment_plain, Hseg.
Qed.

Lemma plain_literal seg :
  bool_decide (seg <> [] /\ seg <> js "." /\ seg <> js ".." /\ Path.slash ∉ seg) = true ->
  plain seg.
Proof. apply bool_decide_eq_true_1. Qed.

Lemma env_path_is_no_sentry_path path :
  Path.isAbsolute path = true ->
  Path.join [path; js ".env"] <> Path.join [path; js "src"; js "sentry.ts"] /\
  Path.join [path; js ".env"] <> Path.join [path; js "sentry.config.ts"].
Proof.
  intros Ha.
  assert (plain (js ".env")) as H1 by (apply plain_literal; vm_compute; reflexivity).
  assert (plain (js "sentry.config.ts")) as H2
    by (apply plain_literal; vm_compute; reflexivity).
  assert (Path.join [path; js "src"; js "sentry.ts"] =
            Path.join [path; js "src/sentry.ts"]) as ->.
  { destruct (isAbsolute_cons path Ha) as [rest ->]. reflexivity. }
  split; intros E; apply (f_equal segmentStack) in E.
  - rewrite segmentStack_join_plain in E by assumption.
    destruct (join_absolute_relative path (js "src/sentry.ts") Ha) as [_ E2].
    rewrite E2 in E. change (Path.split (js "src/sentry.ts"))
      with [js "src"; js "sentry.ts"] in E. simpl foldl in E.
    rewrite !pushSegment_plain in E
      by (apply plain_literal; vm_compute; reflexivity).
    discriminate.
  - rewrite !segmentStack_join_plain in E by assumption. discriminate.
Qed.

Lemma configureSentry_files projectId sentryDsn st project :
  projects st !! projectId = Some project ->
  let st' := stateOf (configureSentry projectId sentryDsn st) in
  dirs st' = dirs st /\ projects st' = projects st /\
  processes st' = processes st /\ ports st' = ports st /\
  (files st' = files st \/
   resultOf (configureSentry projectId sentryDsn st) = Ok tt) /\
  (files st' = files st \/
   files st' =
     <[Path.join [Project.path project; js ".env"] := envContent sentryDsn]> (files st)).
Proof.
  intros Hp. cbv zeta. unfold configureSentry, bind, gets. cbn [fst snd].
  rewrite Hp. rewrite log_delivered. unfold fsWriteFile.
  cbn [dirs files withDelivered].
  destruct (bool_decide (is_Some (dirs st !! _))); cbn [fst snd];
    [repeat split; auto|].
  destruct (bool_decide (is_Some (dirs st !! _))); cbn [fst snd];
    [|repeat split; auto].
  rewrite log_delivered. cbn. repeat split; auto.
Qed.

(** X3. [configureSentry] stores the DSN in the [.env] file of the
    project and in no other place: when it returns, that file holds the
    two configuration lines, and whether it returns or throws the
    [sentryConfigured] flag that [getProjectStatus] reports is what it was
    before, since the flag looks for [src/sentry.ts] and
    [sentry.config.ts]. *)
Theorem configureSentry_writes_env_and_keeps_flag st projectId project sentryDsn :
  projects st !! projectId = Some project ->
  Path.isAbsolute (Project.path project) = true ->
  let configured := configureSentry projectId sentryDsn st in
  (resultOf configured = Ok tt ->
   files (stateOf configured) !! Path.join [Project.path project; js ".env"] =
     Some (js "# Sentry Configuration" ++ [10] ++
           js "VITE_SENTRY_DSN=" ++ sentryDsn ++ [10])) /\
  ProjectStatus.sentryConfigured <$> statusOf projectId (stateOf configured) =
    ProjectStatus.sentryConfigured <$> statusOf projectId st.
Proof.
  intros Hp Ha. cbv zeta.
  destruct (configureSentry_files projectId sentryDsn st project Hp)
    as (Hd & Hpr & _ & _ & Hok & Hf).
  destruct (env_path_is_no_sentry_path (Project.path project) Ha) as [N1 N2].
  split.
  - intros Hres. revert Hres. unfold configureSentry, bind, gets. cbn [fst snd].
    rewrite Hp, log_delivered. unfold fsWriteFile.
    cbn [dirs files withDelivered].
    destruct (bool_decide (is_Some (dirs st !! _))); cbn [fst snd]; [discriminate|].
    destruct (bool_decide (is_Some (dirs st !! _))); cbn [fst snd]; [|discriminate].
    rewrite log_delivered. cbn. intros _. apply lookup_insert_eq.
  - unfold statusOf, getProjectStatus, bind, gets, ret, resultOf. cbn [fst snd].
    rewrite Hpr, Hp. cbn [fst snd fmap option_fmap option_map ProjectStatus.sentryConfigured].
    f_equal. unfold existsSync. rewrite Hd.
    destruct Hf as [-> | ->]; [reflexivity|].
    rewrite !lookup_insert_ne by assumption. reflexivity.
Qed.

Lemma configureSentry_writes_env_and_keeps_flag_sample :
  let project :=
    Project.mk sampleId (js "Todo") (js "react") None
      (js "/srv/app/projects/todo-abc123") 0 in
  let configured := configureSentry sampleId (js "https://k@o.ingest.sentry.io/1") afterCreate in
  projects afterCreate !! sampleId = Some project /\
  resultOf configured = Ok tt /\
  files (stateOf configured) !! js "/srv/app/projects/todo-abc123/.env" =
    Some (js "# Sentry Configuration" ++ [10] ++
          js "VITE_SENTRY_DSN=" ++ js "https://k@o.ingest.sentry.io/1" ++ [10]) /\
  ProjectStatus.sentryConfigured <$> statusOf sampleId (stateOf configured) = Some false.
Proof.
  intros project configured.
  assert (projects afterCreate !! sampleId = Some project) as Hp
    by (vm_compute; reflexivity).
  assert (resultOf configured = Ok tt) as Hok by (vm_compute; reflexivity).
  destruct (configureSentry_writes_env_and_keeps_flag afterCreate sampleId project
              (js "https://k@o.ingest.sentry.io/1") Hp eq_refl) as [Henv Hflag].
  split; [exact Hp|]. split; [exact Hok|]. split.
  - exact (Henv Hok).
  - fold configured in Hflag. rewrite Hflag. vm_compute. reflexivity.
Defined.

(** ** Starting, stopping and cleaning up *)


(** Without anything happening during the wait, the call is the
    [startDevServer] that runs from its entry to its return. *)
Lemma startDevServer_without_incidents projectId st :
  startDevServerAwaited [] projectId st = Some (startDevServer projectId st).
Proof.
  unfold startDevServerAwaited, startDevServerUntilWait, startDevServerAfterWait,
    startDevServer, bind, gets. simpl.
  destruct (projects st !! projectId) as [project|]; [|reflexivity].
  destruct (processes st !! projectId) as [c|]; [reflexivity|].
  destruct (allocatePort st) as [st1 [port|e]]; simpl; [|reflexivity].
  rewrite log_delivered. simpl.
  destruct (getStartCommand (Project.framework project) port) as [command args].
  simpl. rewrite !log_delivered. reflexivity.
Qed.










(** ** Status *)



(** ** Ports in use *)

Lemma usedPorts_in_range_runEvents events st :
  (forall port, port ∈ usedPorts st -> port ∈ portRange) ->
  forall port, port ∈ usedPorts (runEvents events st) -> port ∈ portRange.
Proof.
  revert st. induction events as [|e events IH]; intros st H; [exact H|].
  apply IH. clear IH. intros port.
  destruct e as [[projectId|os projectId]|child code]; simpl.
  - destruct (startDevServer_maps projectId st)
      as [(_ & _ & ->)|(p & _ & Hr & _ & _ & _ & ->)]; [apply H|].
    rewrite elem_of_union, elem_of_singleton. intros [->|Hin]; [|apply H, Hin].
    apply elem_of_portRange, Hr.
  - destruct (processes st !! projectId) as [c|] eqn:Ec.
    + destruct (stopDevServer_maps os projectId st c Ec) as (_ & _ & Hrest).
      destruct (ports st !! projectId) as [p|].
      * destruct (p =? 0); destruct Hrest as [_ ->]; [apply H|].
        rewrite elem_of_difference. intros [Hin _]. apply H, Hin.
      * destruct Hrest as [_ ->]. apply H.
    + rewrite stopDevServer_untracked by exact Ec. apply H.
  - destruct (children st !! child) as [captured|] eqn:E.
    + destruct (onClose_maps child code st captured E) as (_ & _ & ->).
      rewrite elem_of_difference. intros [Hin _]. apply H, Hin.
    + rewrite onClose_unknown by exact E. apply H.
Qed.

(** X8. Whatever is called and whichever children close, the ports in
    use are ports of the managed range 3002..3100, so never more than 99
    ports are in use. *)
Theorem usedPorts_stay_in_range st0 events :
  idle st0 ->
  let st := runEvents events st0 in
  (forall port, port ∈ usedPorts st -> 3002 <= port <= 3100) /\
  (size (usedPorts st) <= 99)%nat.
Proof.
  intros (_ & _ & Hu). cbv zeta.
  assert (forall port, port ∈ usedPorts (runEvents events st0) -> port ∈ portRange) as H.
  { apply usedPorts_in_range_runEvents. intros port. rewrite Hu.
    intros Hin. apply elem_of_empty in Hin. destruct Hin. }
  split.
  - intros port Hin. apply H, elem_of_portRange in Hin. exact Hin.
  - assert (usedPorts (runEvents events st0) ⊆ list_to_set portRange) as Hsub.
    { intros port Hin. apply elem_of_list_to_set, H, Hin. }
    apply subseteq_size in Hsub.
    rewrite size_list_to_set in Hsub by apply NoDup_seqZ.
    unfold portRange in Hsub. rewrite length_seqZ in Hsub.
    unfold PORT_RANGE_START, PORT_RANGE_END in Hsub. simpl in Hsub. lia.
Qed.

Lemma usedPorts_stay_in_range_sample :
  idle threeProjects /\
  (forall port, port ∈ usedPorts (runEvents sampleCalls threeProjects) ->
                3002 <= port <= 3100) /\
  (size (usedPorts (runEvents sampleCalls threeProjects)) <= 99)%nat.
Proof.
  split; [repeat split|].
  apply (usedPorts_stay_in_range threeProjects sampleCalls). repeat split.
Defined.

(** ** Lines of process output *)

Lemma splitOn_nonempty sep s : splitOn sep s <> [].
Proof.
  induction s as [|c s IH]; simpl; [discriminate|].
  destruct (c =? sep); [discriminate|].
  destruct (splitOn sep s); discriminate.
Qed.

Lemma removelast_cons_ne {A} (x : A) l :
  l <> [] -> removelast (x :: l) = x :: removelast l.
Proof. destruct l; [congruence|reflexivity]. Qed.

Lemma last_cons_ne {A} (x : A) l : l <> [] -> last (x :: l) = last l.
Proof. destruct l; [congruence|reflexivity]. Qed.

Lemma splitOn_app sep a b :
  splitOn sep (a ++ sep :: b) =
    removelast (splitOn sep a) ++
    [default [] (last (splitOn sep a))] ++ splitOn sep b.
Proof.
  induction a as [|c a IH].
  - simpl. rewrite Z.eqb_refl. reflexivity.
  - pose proof (splitOn_nonempty sep a) as Hne.
    change (splitOn sep ((c :: a) ++ sep :: b))
      with (if c =? sep then [] :: splitOn sep (a ++ sep :: b)
            else match splitOn sep (a ++ sep :: b) with
                 | h :: r => (c :: h) :: r
                 | [] => [[c]]
                 end).
    change (splitOn sep (c :: a))
      with (if c =? sep then [] :: splitOn sep a
            else match splitOn sep a with
                 | h :: r => (c :: h) :: r
                 | [] => [[c]]
                 end).
    rewrite IH. destruct (c =? sep).
    + rewrite removelast_cons_ne, last_cons_ne by exact Hne. reflexivity.
    + destruct (splitOn sep a) as [|h r]; [congruence|].
      destruct r as [|h2 r]; [reflexivity|].
      rewrite !removelast_cons_ne, !last_cons_ne by discriminate. reflexivity.
Qed.

Lemma splitOn_no_sep sep seg : sep ∉ seg -> splitOn sep seg = [seg].
Proof.
  induction seg as [|c seg IH]; intros H; simpl; [reflexivity|].
  rewrite not_elem_of_cons in H. destruct H as [Hc H].
  destruct (c =? sep) eqn:E; [apply Z.eqb_eq in E; congruence|].
  rewrite IH by exact H. reflexivity.
Qed.

Lemma splitOn_pieces sep s : Forall (fun seg => sep ∉ seg) (splitOn sep s).
Proof.
  induction s as [|c s IH]; simpl.
  - constructor; [apply not_elem_of_nil|constructor].
  - destruct (c =? sep) eqn:E.
    + constructor; [apply not_elem_of_nil|exact IH].
    + apply Z.eqb_neq in E. pose proof (splitOn_nonempty sep s) as Hne.
      destruct (splitOn sep s) as [|h r]; [congruence|].
      inversion IH; subst. constructor; [|assumption].
      rewrite not_elem_of_cons. split; [congruence|assumption].
Qed.

(** Splitting is undone by putting the pieces together. *)
Lemma splitOn_rebuild s :
  unlines (removelast (splitOn newline s)) ++ default [] (last (splitOn newline s)) = s.
Proof.
  induction s as [|c s IH]; [reflexivity|]. simpl splitOn.
  pose proof (splitOn_nonempty newline s) as Hne.
  destruct (c =? newline) eqn:E.
  - apply Z.eqb_eq in E. subst c.
    destruct (splitOn newline s) as [|h r]; [congruence|].
    change (removelast ([] :: h :: r)) with ([] :: removelast (h :: r)).
    rewrite last_cons_cons. unfold unlines in *. simpl. f_equal. exact IH.
  - destruct (splitOn newline s) as [|h r]; [congruence|].
    destruct r as [|h2 r].
    + simpl in *. f_equal. exact IH.
    + change (removelast ((c :: h) :: h2 :: r)) with ((c :: h) :: removelast (h2 :: r)).
      change (removelast (h :: h2 :: r)) with (h :: removelast (h2 :: r)) in IH.
      rewrite !last_cons_cons in *. unfold unlines in *. simpl in *.
      f_equal. exact IH.
Qed.

Lemma unlines_cons line lines :
  unlines (line :: lines) = line ++ newline :: unlines lines.
Proof. unfold unlines. rewrite fmap_cons. simpl. rewrite <- app_assoc. reflexivity. Qed.

Lemma unlines_app lines1 lines2 :
  unlines (lines1 ++ lines2) = unlines lines1 ++ unlines lines2.
Proof. unfold unlines. rewrite fmap_app, concat_app. reflexivity. Qed.

(** Pieces without newline are what splitting gives back. *)
Lemma splitOn_unlines lines rest :
  Forall (fun line => newline ∉ line) lines -> newline ∉ rest ->
  splitOn newline (unlines lines ++ rest) = lines ++ [rest].
Proof.
  intros Hl Hr. induction Hl as [|line lines Hline Hl IH].
  - apply splitOn_no_sep, Hr.
  - rewrite unlines_cons, <- app_assoc.
    change ((newline :: unlines lines) ++ rest) with (newline :: (unlines lines ++ rest)).
    rewrite splitOn_app, IH, splitOn_no_sep by exact Hline. reflexivity.
Qed.

Lemma removelast_snoc {A} (l : list A) x : removelast (l ++ [x]) = l.
Proof. apply removelast_last. Qed.

Lemma takeLines_facts buffer data :
  let '(lines, rest) := takeLines buffer data in
  unlines lines ++ rest = buffer ++ data /\
  Forall (fun line => newline ∉ line) lines /\ newline ∉ rest.
Proof.
  unfold takeLines. split; [apply splitOn_rebuild|].
  pose proof (splitOn_pieces newline (buffer ++ data)) as H.
  pose proof (splitOn_nonempty newline (buffer ++ data)) as Hne.
  destruct (splitOn newline (buffer ++ data)) as [|h r] using rev_ind; [congruence|].
  rewrite removelast_snoc, last_snoc. simpl.
  apply Forall_app in H as [H1 H2]. inversion H2; subst. split; assumption.
Qed.

(** The lines and the buffer are determined by the text they rebuild. *)
Lemma takeLines_rebuilt buffer data lines rest :
  buffer ++ data = unlines lines ++ rest ->
  Forall (fun line => newline ∉ line) lines -> newline ∉ rest ->
  takeLines buffer data = (lines, rest).
Proof.
  intros E F N. unfold takeLines. rewrite E.
  rewrite splitOn_unlines by assumption.
  rewrite removelast_snoc, last_snoc. reflexivity.
Qed.

Lemma takeLines_two_chunks buffer first second :
  takeLines buffer (first ++ second) =
    (fst (takeLines buffer first) ++
       fst (takeLines (snd (takeLines buffer first)) second),
     snd (takeLines (snd (takeLines buffer first)) second)).
Proof.
  pose proof (takeLines_facts buffer first) as H1.
  destruct (takeLines buffer first) as [lines1 rest1].
  destruct H1 as (E1 & F1 & N1). cbn [fst snd].
  pose proof (takeLines_facts rest1 second) as H2.
  destruct (takeLines rest1 second) as [lines2 rest2].
  destruct H2 as (E2 & F2 & N2). cbn [fst snd].
  apply takeLines_rebuilt; [|apply Forall_app; split; assumption|exact N2].
  rewrite unlines_app, <- app_assoc, E2.
  rewrite (app_assoc (unlines lines1)), E1, <- app_assoc. reflexivity.
Qed.

(** X9. The line buffering of the [data] handlers does not depend on
    where the output is cut into chunks, as long as the cut does not fall
    inside a character: when decoding two chunks one by one gives the
    text that decoding them together gives, handling the first chunk and
    then the second gives the complete lines, in order, and the remaining
    buffer that handling both as one chunk gives.  The lines and the
    buffer hold no newline, and the lines, each followed by a newline,
    and then the buffer, are exactly the text received. *)
Theorem takeLines_ignores_chunk_boundaries
  (toString : list byte -> jsstring) buffer first second :
  toString (first ++ second) = toString first ++ toString second ->
  let '(lines1, rest1) := takeLines buffer (toString first) in
  let '(lines2, rest2) := takeLines rest1 (toString second) in
  takeLines buffer (toString (first ++ second)) = (lines1 ++ lines2, rest2) /\
  unlines (lines1 ++ lines2) ++ rest2 = buffer ++ toString (first ++ second) /\
  Forall (fun line => newline ∉ line) (lines1 ++ lines2) /\ (newline ∉ rest2).
Proof.
  intros Hcut. rewrite Hcut.
  pose proof (takeLines_two_chunks buffer (toString first) (toString second)) as Htwo.
  pose proof (takeLines_facts buffer (toString first)) as H1.
  destruct (takeLines buffer (toString first)) as [lines1 rest1].
  destruct H1 as (E1 & F1 & N1). cbn [fst snd] in Htwo.
  pose proof (takeLines_facts rest1 (toString second)) as H2.
  destruct (takeLines rest1 (toString second)) as [lines2 rest2].
  destruct H2 as (E2 & F2 & N2). cbn [fst snd] in Htwo.
  split; [exact Htwo|]. split; [|split; [|exact N2]].
  - rewrite unlines_app, <- app_assoc, E2.
    rewrite (app_assoc (unlines lines1)), E1, <- app_assoc. reflexivity.
  - apply Forall_app. split; assumption.
Qed.

Lemma takeLines_ignores_chunk_boundaries_sample :
  let first := octets [226; 156; 147; 32; 114; 101] in
  let second := octets [97; 100; 121; 10; 116; 97; 105; 108] in
  utf8Decode (first ++ second) = utf8Decode first ++ utf8Decode second /\
  takeLines [] (utf8Decode first) = ([], 10003 :: js " re") /\
  takeLines (10003 :: js " re") (utf8Decode second) =
    ([10003 :: js " ready"], js "tail") /\
  takeLines [] (utf8Decode (first ++ second)) = ([10003 :: js " ready"], js "tail").
Proof.
  intros first second.
  pose proof (takeLines_ignores_chunk_boundaries utf8Decode [] first second) as H.
  assert (utf8Decode (first ++ second) = utf8Decode first ++ utf8Decode second) as Hcut
    by (vm_compute; reflexivity).
  specialize (H Hcut).
  assert (takeLines [] (utf8Decode first) = ([], 10003 :: js " re")) as E1
    by (vm_compute; reflexivity).
  assert (takeLines (10003 :: js " re") (utf8Decode second) =
            ([10003 :: js " ready"], js "tail")) as E2 by (vm_compute; reflexivity).
  rewrite E1, E2 in H. destruct H as (H & _).
  repeat split; assumption.
Defined.

Lemma logLines_returns projectId lines st :
  logLines projectId lines st = (stateOf (logLines projectId lines st), Ok tt).
Proof.
  revert st. unfold logLines. induction lines as [|line lines IH]; intros st;
    [reflexivity|].
  cbn [forEach]. unfold bind at 1 2.
  destruct (bool_decide (Classifier.cleanLogLine line = [])).
  - unfold ret at 1 2. cbn [fst snd]. apply IH.
  - rewrite log_delivered. cbn [fst snd]. apply IH.
Qed.

Lemma forEach_app {A} (l1 l2 : list A) (body : A -> M unit) st :
  forEach (l1 ++ l2) body st =
    (forEach l1 body ;; forEach l2 body) st.
Proof.
  revert st. induction l1 as [|x l1 IH]; intros st; [reflexivity|].
  change ((x :: l1) ++ l2) with (x :: (l1 ++ l2)). cbn [forEach].
  unfold bind in *. destruct (body x st) as [s [[]|e]]; [apply IH|reflexivity].
Qed.

Lemma logLines_app projectId lines1 lines2 st :
  stateOf (logLines projectId (lines1 ++ lines2) st) =
    stateOf (logLines projectId lines2 (stateOf (logLines projectId lines1 st))).
Proof.
  unfold logLines at 1. rewrite forEach_app. unfold bind.
  fold (logLines projectId lines1). rewrite logLines_returns. reflexivity.
Qed.

Lemma onDevServerText_run projectId buffer message st :
  onDevServerText projectId buffer message st =
    (stateOf (logLines projectId (fst (takeLines buffer message)) st),
     Ok (snd (takeLines buffer message))).
Proof.
  unfold onDevServerText. destruct (takeLines buffer message) as [lines rest].
  unfold bind. rewrite logLines_returns. reflexivity.
Qed.

Lemma onDevServerText_two_messages projectId buffer first second st :
  (let! rest := onDevServerText projectId buffer first in
   onDevServerText projectId rest second) st =
  onDevServerText projectId buffer (first ++ second) st.
Proof.
  unfold bind. rewrite (onDevServerText_run projectId buffer first st).
  cbv iota beta. rewrite !onDevServerText_run.
  rewrite (takeLines_two_chunks buffer first second).
  destruct (takeLines buffer first) as [lines1 rest1]. cbn [fst snd].
  destruct (takeLines rest1 second) as [lines2 rest2]. cbn [fst snd].
  rewrite logLines_app. reflexivity.
Qed.

Lemma onDevServerText_buffer projectId buffer message st :
  forall rest, resultOf (onDevServerText projectId buffer message st) = Ok rest ->
               newline ∉ rest.
Proof.
  intros rest. rewrite onDevServerText_run. unfold resultOf. cbn [snd].
  pose proof (takeLines_facts buffer message) as H.
  destruct (takeLines buffer message) as [lines rest']. cbn [snd].
  intros [= <-]. apply H.
Qed.

Lemma onDevServerText_nothing projectId buffer st :
  newline ∉ buffer -> onDevServerText projectId buffer [] st = (st, Ok buffer).
Proof.
  intros H. rewrite onDevServerText_run. unfold takeLines.
  rewrite app_nil_r, splitOn_no_sep by exact H. reflexivity.
Qed.

(** Chunk by chunk, the handler does what it would do once with the
    decoded chunks put together. *)
Lemma onDevServerChunks_texts toString projectId buffer chunks st :
  newline ∉ buffer ->
  onDevServerChunks toString projectId buffer chunks st =
    onDevServerText projectId buffer (concat (toString <$> chunks)) st.
Proof.
  revert buffer st. induction chunks as [|data chunks IH]; intros buffer st Hb.
  - simpl. symmetry. apply onDevServerText_nothing, Hb.
  - cbn [onDevServerChunks fmap list_fmap concat]. unfold onDevServerData.
    rewrite <- onDevServerText_two_messages. unfold bind.
    pose proof (onDevServerText_buffer projectId buffer (toString data) st) as Hrest.
    destruct (onDevServerText projectId buffer (toString data) st)
      as [st1 [rest|e]]; [|reflexivity].
    apply IH, Hrest. reflexivity.
Qed.

(** X10. The [data] handler of a dev server logs by lines, not by chunks,
    as long as no chunk ends inside a character: when decoding the chunks
    one by one gives the text that decoding the whole output gives, then,
    starting from the empty buffer, handling the chunks one after the
    other leaves the state and the buffer that handling the whole output
    in one call leaves.  A chunk whose text brings no newline is only
    added to the buffer: nothing is logged for it. *)
Theorem onDevServerData_logs_by_lines toString projectId chunks st :
  toString (concat chunks) = concat (toString <$> chunks) ->
  onDevServerChunks toString projectId [] chunks st =
    onDevServerData toString projectId [] (concat chunks) st /\
  (forall buffer data,
     newline ∉ buffer ++ toString data ->
     onDevServerData toString projectId buffer data st =
       (st, Ok (buffer ++ toString data))).
Proof.
  intros Hcut. split.
  - unfold onDevServerData at 1. rewrite Hcut.
    apply onDevServerChunks_texts, not_elem_of_nil.
  - intros buffer data H. unfold onDevServerData.
    rewrite onDevServerText_run. unfold takeLines.
    rewrite splitOn_no_sep by exact H. reflexivity.
Qed.

Lemma onDevServerData_logs_by_lines_sample :
  let st := stateOf (subscribeToLogs (js "alpha") 7%nat threeProjects) in
  let chunks :=
    [octets [226; 156; 147; 32; 114; 101];
     octets [97; 100; 121; 10; 69; 114; 114];
     octets [111; 114; 58; 32; 120; 10; 116; 97; 105; 108]] in
  utf8Decode (concat chunks) = concat (utf8Decode <$> chunks) /\
  (onDevServerChunks utf8Decode (js "alpha") [] chunks st =
     onDevServerData utf8Decode (js "alpha") [] (concat chunks) st /\
   (forall buffer data,
      newline ∉ buffer ++ utf8Decode data ->
      onDevServerData utf8Decode (js "alpha") buffer data st =
        (st, Ok (buffer ++ utf8Decode data)))) /\
  resultOf (onDevServerChunks utf8Decode (js "alpha") [] chunks st) = Ok (js "tail") /\
  (fun e => (LogEntry.level e, LogEntry.message e)) <$>
     deliveriesTo 7%nat
       (delivered (stateOf (onDevServerChunks utf8Decode (js "alpha") [] chunks st))) =
    [(success, 10003 :: js " ready"); (error, js "Error: x")].
Proof.
  intros st chunks. split; [vm_compute; reflexivity|].
  split; [|split; vm_compute; reflexivity].
  apply (onDevServerData_logs_by_lines utf8Decode (js "alpha") chunks st).
  vm_compute. reflexivity.
Defined.

(** A chunk that ends inside a character is decoded on its own: the check
    mark cut after its first byte comes out as three U+FFFD, and the line
    that would be logged as a success is logged as information. *)
Lemma cut_inside_a_character_changes_the_log :
  let st := stateOf (subscribeToLogs (js "alpha") 7%nat threeProjects) in
  let whole := octets [226; 156; 147; 32; 100; 111; 110; 101; 10] in
  let chunks := [octets [226]; octets [156; 147; 32; 100; 111; 110; 101; 10]] in
  concat chunks = whole /\
  utf8Decode whole = 10003 :: js " done" ++ [10] /\
  concat (utf8Decode <$> chunks) = [65533; 65533; 65533] ++ js " done" ++ [10] /\
  (fun e => (LogEntry.level e, LogEntry.message e)) <$>
     deliveriesTo 7%nat
       (delivered (stateOf (onDevServerData utf8Decode (js "alpha") [] whole st))) =
    [(success, 10003 :: js " done")] /\
  (fun e => (LogEntry.level e, LogEntry.message e)) <$>
     deliveriesTo 7%nat
       (delivered (stateOf (onDevServerChunks utf8Decode (js "alpha") [] chunks st))) =
    [(info, [65533; 65533; 65533] ++ js " done")].
Proof. repeat split; vm_compute; reflexivity. Qed.

(** ** Installing dependencies *)

Lemma forEach_returns {A} (l : list A) (body : A -> M unit) st :
  (forall x s, resultOf (body x s) = Ok tt) ->
  resultOf (forEach l body st) = Ok tt.
Proof.
  intros H. revert st. induction l as [|x l IH]; intros st; [reflexivity|].
  cbn [forEach]. unfold bind. specialize (H x st).
  destruct (body x st) as [s [[]|e]]; [apply IH|discriminate].
Qed.

Lemma maybe_log_returns projectId (skip : bool) level message st :
  resultOf ((if skip then ret tt else log projectId level message) st) = Ok tt.
Proof. destruct skip; [reflexivity|]. rewrite log_delivered. reflexivity. Qed.

(** The entries that a loop of conditional [log] calls delivers carry the
    levels the loop gives them. *)
Lemma forEach_log_levels {A} projectId (l : list A) (skip : A -> bool)
  (level : A -> Level) (message : A -> jsstring) (P : Level -> Prop) st :
  (forall x, x ∈ l -> P (level x)) ->
  exists extra,
    delivered (stateOf (forEach l (fun x =>
      if skip x then ret tt else log projectId (level x) (message x)) st)) =
      delivered st ++ extra /\
    Forall (fun d => P (LogEntry.level (snd d))) extra.
Proof.
  revert st. induction l as [|x l IH]; intros st H.
  - exists []. rewrite app_nil_r. split; [reflexivity|constructor].
  - cbn [forEach]. unfold bind, stateOf.
    destruct (skip x) eqn:E.
    + unfold ret at 1. cbn [fst snd]. apply IH. intros y Hy. apply H. right. exact Hy.
    + rewrite log_delivered.
      match goal with |- context [forEach l ?b ?s] =>
        destruct (IH s) as (extra & Hd & Hf); [intros y Hy; apply H; right; exact Hy|] end.
      unfold stateOf in Hd. rewrite Hd. cbn [delivered withDelivered].
      eexists. rewrite <- app_assoc. split; [reflexivity|].
      apply Forall_app. split; [|exact Hf].
      apply Forall_fmap, Forall_forall. intros c _. cbn. apply H. left.
Qed.

Lemma onInstallEvent_run projectId run e st :
  exists st' next,
    onInstallEvent projectId run e st = (st', Ok next) /\
    match e with
    | Data _ message =>
        output next = output run ++ message /\ settled next = settled run
    | Close code =>
        output next = output run /\
        settled next =
          settled (settle run (if bool_decide (code = Some 0)
                               then Resolved (output run)
                               else RejectedWithCode code))
    | Failure message =>
        output next = output run /\
        settled next = settled (settle run (RejectedWithError message))
    end.
Proof.
  destruct e as [[|] message|code|message]; unfold onInstallEvent.
  - destruct (takeLines (stdoutBuffer run) message) as [lines rest].
    unfold bind.
    match goal with |- context [forEach lines ?b st] =>
      pose proof (forEach_returns lines b st) as Hr;
      destruct (forEach lines b st) as [s r] end.
    unfold resultOf in Hr. cbn [snd] in Hr.
    rewrite Hr by (intros x s0; apply maybe_log_returns).
    eexists _, _. split; [reflexivity|]. split; reflexivity.
  - destruct (takeLines (stderrBuffer run) message) as [lines rest].
    unfold bind. rewrite logLines_returns.
    eexists _, _. split; [reflexivity|]. split; reflexivity.
  - destruct (bool_decide (code = Some 0)); unfold bind; rewrite log_delivered;
      eexists _, _; (split; [reflexivity|]); split; reflexivity.
  - unfold bind. rewrite log_delivered.
    eexists _, _. split; [reflexivity|]. split; reflexivity.
Qed.

Lemma onInstallEvents_data projectId run data st :
  exists st' next,
    onInstallEvents projectId run ((fun d => Data (fst d) (snd d)) <$> data) st =
      (st', Ok next) /\
    output next = output run ++ concat (snd <$> data) /\
    settled next = settled run.
Proof.
  revert run st. induction data as [|[stream message] data IH]; intros run st.
  - exists st, run. rewrite app_nil_r. repeat split.
  - rewrite fmap_cons. cbn [onInstallEvents fst snd]. unfold bind.
    destruct (onInstallEvent_run projectId run (Data stream message) st)
      as (s1 & next1 & -> & Ho & Hs).
    destruct (IH next1 s1) as (s2 & next2 & -> & Ho2 & Hs2).
    exists s2, next2. split; [reflexivity|]. rewrite Ho2, Ho, Hs2, Hs.
    rewrite fmap_cons. cbn [concat snd]. rewrite <- app_assoc. auto.
Qed.

(** Once settled, the promise keeps its settlement. *)
Lemma onInstallEvents_settled projectId run events st outcome :
  settled run = Some outcome ->
  exists st' next,
    onInstallEvents projectId run events st = (st', Ok next) /\
    settled next = Some outcome.
Proof.
  revert run st. induction events as [|e events IH]; intros run st Hs.
  - exists st, run. split; [reflexivity|exact Hs].
  - cbn [onInstallEvents]. unfold bind.
    destruct (onInstallEvent_run projectId run e st) as (s1 & next1 & -> & He).
    apply IH. destruct e as [stream message|code|message]; destruct He as [_ ->];
      [exact Hs| |]; unfold settle; cbn [settled]; rewrite Hs; reflexivity.
Qed.

Lemma onInstallEvents_app projectId run events more st :
  onInstallEvents projectId run (events ++ more) st =
    (let! next := onInstallEvents projectId run events in
     onInstallEvents projectId next more) st.
Proof.
  revert run st. induction events as [|e events IH]; intros run st; [reflexivity|].
  change ((e :: events) ++ more) with (e :: (events ++ more)).
  cbn [onInstallEvents]. unfold bind in *.
  destruct (onInstallEvent projectId run e st) as [s [next|err]]; [apply IH|reflexivity].
Qed.

Lemma installDependencies_registered projectId packageManager project st :
  projects st !! projectId = Some project ->
  exists started,
    forall events,
      resultOf (installDependencies projectId packageManager events st) =
        match resultOf (onInstallEvents projectId
                          {| output := []; stdoutBuffer := []; stderrBuffer := [];
                             settled := None |} events started) with
        | Ok run => Ok (settled run)
        | Throw e => Throw e
        end.
Proof.
  intros Hp.
  exists (stateOf (log projectId info
                     (js "Installing dependencies with " ++ packageManager ++ js "...") st)).
  intros events. unfold installDependencies, bind, gets. cbn [fst snd]. rewrite Hp.
  rewrite log_delivered. unfold stateOf at 1. cbn [fst snd].
  destruct (onInstallEvents _ _ events _) as [s [run|e]]; reflexivity.
Qed.

(** X11. How [installDependencies] ends for a registered project.  While
    the package manager only emits output, the promise stays pending.
    When it closes, the promise is resolved with all the output received,
    [stdout] and [stderr] in the order of arrival, if the exit code is 0,
    and rejected with the code otherwise; whatever the process emits after
    that does not change the settlement. *)
Theorem installDependencies_settles_on_close
  projectId packageManager project data code later st :
  projects st !! projectId = Some project ->
  let emitted := (fun d => Data (fst d) (snd d)) <$> data in
  resultOf (installDependencies projectId packageManager emitted st) = Ok None /\
  resultOf (installDependencies projectId packageManager
              (emitted ++ [Close code] ++ later) st) =
    Ok (Some (if bool_decide (code = Some 0)
              then Resolved (concat (snd <$> data))
              else RejectedWithCode code)).
Proof.
  intros Hp. cbv zeta.
  destruct (installDependencies_registered projectId packageManager project st Hp)
    as (started & Hrun).
  rewrite !Hrun. split.
  - match goal with |- context [onInstallEvents projectId ?r _ ?s] =>
      destruct (onInstallEvents_data projectId r data s) as (s1 & next & -> & _ & Hs) end.
    unfold resultOf. cbn [snd]. rewrite Hs. reflexivity.
  - rewrite onInstallEvents_app. unfold bind at 1.
    match goal with |- context [onInstallEvents projectId ?r _ ?s] =>
      destruct (onInstallEvents_data projectId r data s) as (s1 & next & -> & Ho & Hs) end.
    cbn [app onInstallEvents]. unfold bind at 1.
    destruct (onInstallEvent_run projectId next (Close code) s1)
      as (s2 & closed & -> & Ho2 & Hs2).
    unfold settle in Hs2. cbn [settled] in Hs2. rewrite Hs in Hs2.
    destruct (onInstallEvents_settled projectId closed later s2 _ Hs2)
      as (s3 & final & -> & Hfinal).
    unfold resultOf. cbn [snd]. rewrite Hfinal, Ho. reflexivity.
Qed.

Lemma installDependencies_settles_on_close_sample :
  projects threeProjects !! js "alpha" = Some (registered (js "alpha")) /\
  resultOf (installDependencies (js "alpha") (js "npm")
              [Data Stdout (js "added 12 "); Data Stderr (js "npm warn x" ++ [10]);
               Data Stdout (js "packages" ++ [10]); Close (Some 0); Close (Some 1)]
              threeProjects) =
    Ok (Some (Resolved (js "added 12 " ++ js "npm warn x" ++ [10] ++ js "packages" ++ [10]))).
Proof.
  split; [vm_compute; reflexivity|].
  destruct (installDependencies_settles_on_close (js "alpha") (js "npm")
              (registered (js "alpha"))
              [(Stdout, js "added 12 "); (Stderr, js "npm warn x" ++ [10]);
               (Stdout, js "packages" ++ [10])]
              (Some 0) [Close (Some 1)] threeProjects ltac:(vm_compute; reflexivity))
    as [_ H].
  exact H.
Defined.

(** X12. On [stdout] of the install process every line is logged at
    level [info], whatever it says: the level heuristic is applied to
    [stderr] only. *)
Theorem install_stdout_is_logged_as_info projectId run message st :
  Forall (fun d => LogEntry.level (snd d) = info)
    (newDeliveries st (stateOf (onInstallEvent projectId run (Data Stdout message) st))).
Proof.
  unfold onInstallEvent.
  destruct (takeLines (stdoutBuffer run) message) as [lines rest].
  unfold bind, stateOf.
  destruct (forEach_log_levels projectId lines
              (fun line => bool_decide (Classifier.cleanLogLine line = []))
              (fun _ => info) Classifier.cleanLogLine (fun l => l = info) st)
    as (extra & Hd & Hf); [reflexivity|].
  unfold stateOf in Hd.
  match goal with |- context [forEach lines ?b st] =>
    change (forEach lines b st) with
      (forEach lines (fun x => if bool_decide (Classifier.cleanLogLine x = [])
                               then ret tt
                               else log projectId info (Classifier.cleanLogLine x)) st) end.
  destruct (forEach lines _ st) as [s [[]|e]]; cbn [fst] in *;
    unfold ret; cbn [fst];
    rewrite (newDeliveries_app st s extra Hd); exact Hf.
Qed.

(** ** Unknown projects *)

(** X13. Every method that takes a project id looks the id up first: for
    an id that is not registered, [writeFile], [readProjectFile],
    [installDependencies], [startDevServer], [getProjectStatus] and
    [configureSentry] throw [NotFound] with that id and change nothing (no
    file, no port, no process, no log entry). *)
Theorem unknown_project_is_rejected_unchanged
  cfg st projectId filePath content packageManager events sentryDsn :
  projects st !! projectId = None ->
  writeFile cfg projectId filePath content st = (st, Throw (NotFound projectId)) /\
  readProjectFile cfg projectId filePath st = (st, Throw (NotFound projectId)) /\
  installDependencies projectId packageManager events st =
    (st, Throw (NotFound projectId)) /\
  startDevServer projectId st = (st, Throw (NotFound projectId)) /\
  getProjectStatus projectId st = (st, Throw (NotFound projectId)) /\
  configureSentry projectId sentryDsn st = (st, Throw (NotFound projectId)).
Proof.
  intros H.
  unfold writeFile, readProjectFile, installDependencies, startDevServer,
    getProjectStatus, configureSentry, bind, gets. cbn [fst snd]. rewrite H.
  repeat split.
Qed.

Lemma unknown_project_is_rejected_unchanged_sample :
  projects afterCreate !! js "abc123" = None /\
  startDevServer (js "abc123") afterCreate = (afterCreate, Throw (NotFound (js "abc123"))) /\
  getProjectStatus (js "abc123") afterCreate =
    (afterCreate, Throw (NotFound (js "abc123"))).
Proof.
  assert (projects afterCreate !! js "abc123" = None) as H by (vm_compute; reflexivity).
  split; [exact H|].
  destruct (unknown_project_is_rejected_unchanged sampleConfig afterCreate (js "abc123")
              [] [] [] [] [] H) as (_ & _ & _ & Hs & Hg & _).
  split; assumption.
Defined.

(** ** The recovery scan *)

Lemma withProjects_same st : withProjects (fun _ => projects st) st = st.
Proof. destruct st; reflexivity. Qed.

Lemma withProjects_twice r1 r2 st :
  withProjects (fun _ => r2) (withProjects (fun _ => r1) st) =
    withProjects (fun _ => r2) st.
Proof. reflexivity. Qed.

(** What one directory contributes: nothing, or a project under the id
    recovered from its name, for a directory that holds a manifest. *)
Lemma loadEntry_run cfg randomBytes entryName st :
  loadEntry cfg randomBytes entryName st = (st, Ok tt) \/
  exists project,
    loadEntry cfg randomBytes entryName st =
      (withProjects <[recoveredId entryName randomBytes := project]> st, Ok tt) /\
    Project.id project = recoveredId entryName randomBytes /\
    Project.path project = Path.join [PROJECTS_DIR cfg; entryName] /\
    is_Some (files st !! Path.join [Project.path project; js "package.json"]).
Proof.
  unfold loadEntry.
  destruct (negb (existsSync _ st)); [left; reflexivity|].
  destruct (files st !! _ ≫= parseJson cfg) as [packageJson|] eqn:E;
    [|left; reflexivity].
  destruct (dirs st !! _) as [birthtime|]; [|left; reflexivity].
  right. eexists. split; [reflexivity|]. cbn [Project.id Project.path].
  split; [reflexivity|]. split; [reflexivity|].
  destruct (files st !! _); [eauto|discriminate].
Qed.

(** X14. The start-up scan only fills the registry.  It returns normally
    and leaves processes, ports, subscriptions and the disk as they were;
    every project registered before is still registered under its id; and
    every project it registers sits in a directory directly listed in the
    projects directory that holds a [package.json], under the id recovered
    from the name of that directory. *)
Theorem loadProjectsFromDisk_only_fills_the_registry cfg random st :
  exists registry,
    loadProjectsFromDisk cfg random st =
      (withProjects (fun _ => registry) st, Ok tt) /\
    dom (projects st) ⊆ dom registry /\
    forall projectId project,
      registry !! projectId = Some project ->
      projects st !! projectId = Some project \/
      exists i entryName,
        directoryEntries (PROJECTS_DIR cfg) st !! i = Some entryName /\
        projectId = recoveredId entryName (random i) /\
        Project.id project = projectId /\
        Project.path project = Path.join [PROJECTS_DIR cfg; entryName] /\
        is_Some (files st !! Path.join [Project.path project; js "package.json"]).
Proof.
  unfold loadProjectsFromDisk.
  destruct (negb (existsSync (PROJECTS_DIR cfg) st)).
  { exists (projects st). rewrite withProjects_same. split; [reflexivity|].
    split; [reflexivity|]. auto. }
  set (entries := directoryEntries (PROJECTS_DIR cfg) st).
  assert (forall l,
            (forall x, x ∈ l -> entries !! fst x = Some (snd x)) ->
            forall reg0,
            exists registry,
              forEach l (fun '(i, entryName) => loadEntry cfg (random i) entryName)
                (withProjects (fun _ => reg0) st) =
                (withProjects (fun _ => registry) st, Ok tt) /\
              dom reg0 ⊆ dom registry /\
              forall projectId project,
                registry !! projectId = Some project ->
                reg0 !! projectId = Some project \/
                exists i entryName,
                  entries !! i = Some entryName /\
                  projectId = recoveredId entryName (random i) /\
                  Project.id project = projectId /\
                  Project.path project = Path.join [PROJECTS_DIR cfg; entryName] /\
                  is_Some (files st !! Path.join [Project.path project; js "package.json"]))
    as Hloop.
  { induction l as [|[i entryName] l IH]; intros Hl reg0.
    - exists reg0. split; [reflexivity|]. split; [reflexivity|]. auto.
    - cbn [forEach]. unfold bind.
      assert (forall x, x ∈ l -> entries !! fst x = Some (snd x)) as Hl'
        by (intros x Hx; apply Hl; right; exact Hx).
      destruct (loadEntry_run cfg (random i) entryName (withProjects (fun _ => reg0) st))
        as [->|(project & -> & Hid & Hpath & Hfile)].
      + apply IH, Hl'.
      + change (withProjects <[recoveredId entryName (random i) := project]>
                  (withProjects (fun _ => reg0) st))
          with (withProjects
                  (fun _ => <[recoveredId entryName (random i) := project]> reg0) st).
        cbn [files withProjects] in Hfile.
        destruct (IH Hl' (<[recoveredId entryName (random i) := project]> reg0))
          as (registry & Hrun & Hdom & Hfrom).
        exists registry. split; [exact Hrun|]. split.
        * etransitivity; [|exact Hdom]. rewrite dom_insert. set_solver.
        * intros k p Hk. destruct (Hfrom k p Hk) as [Hold|Hnew]; [|right; exact Hnew].
          destruct (decide (recoveredId entryName (random i) = k)) as [<-|Hne].
          -- rewrite lookup_insert_eq in Hold. injection Hold as <-.
             right. exists i, entryName. split; [apply (Hl (i, entryName)); left|].
             auto.
          -- rewrite lookup_insert_ne in Hold by exact Hne. left. exact Hold. }
  destruct (Hloop (imap (fun i entryName => (i, entryName)) entries)) with (reg0 := projects st)
    as (registry & Hrun & Hdom & Hfrom).
  { intros [i e] Hx. apply elem_of_lookup_imap in Hx as (j & y & [= -> ->] & Hy).
    exact Hy. }
  rewrite withProjects_same in Hrun. exists registry. auto.
Qed.

(** ** The client *)

Lemma sliceLast_length {A} n (l : list A) :
  (length (ClientLogs.sliceLast n l) <= n)%nat.
Proof. unfold ClientLogs.sliceLast. rewrite length_drop. lia. Qed.

Lemma sliceLast_app {A} n (l m : list A) :
  ClientLogs.sliceLast n (ClientLogs.sliceLast n l ++ m) =
    ClientLogs.sliceLast n (l ++ m).
Proof.
  unfold ClientLogs.sliceLast. rewrite !length_app, length_drop.
  destruct (Nat.le_gt_cases (length l) n) as [Hle|Hgt].
  - replace (length l - n)%nat with 0%nat by lia. rewrite drop_0.
    replace (length l - 0)%nat with (length l) by lia. reflexivity.
  - replace (length l - (length l - n) + length m - n)%nat with (length m) by lia.
    replace (length l + length m - n)%nat with ((length l - n) + length m)%nat by lia.
    rewrite <- drop_drop.
    rewrite (drop_app_le l m (length l - n)) by lia. reflexivity.
Qed.

(** X15. The log buffer of the client is a window on the log stream:
    after any number of log messages it holds the last 500 of the entries
    restored from session storage followed by the entries received, in
    their order, and so never more than 500. *)
Theorem client_keeps_the_last_500_logs {A} (saved entries : list A) :
  let logs := ClientLogs.receive (ClientLogs.initialLogs saved) entries in
  logs = ClientLogs.sliceLast 500 (saved ++ entries) /\
  (length logs <= 500)%nat /\
  (exists dropped, saved ++ entries = dropped ++ logs).
Proof.
  cbv zeta.
  assert (forall logs, ClientLogs.receive (ClientLogs.sliceLast 500 logs) entries =
                       ClientLogs.sliceLast 500 (logs ++ entries)) as H.
  { induction entries as [|e entries IH]; intros logs.
    - rewrite app_nil_r. reflexivity.
    - unfold ClientLogs.receive in *. cbn [foldl].
      unfold ClientLogs.onLogMessage at 2. unfold ClientLogs.MAX_LOGS.
      rewrite sliceLast_app, IH, <- app_assoc. reflexivity. }
  unfold ClientLogs.initialLogs, ClientLogs.MAX_LOGS. rewrite H.
  split; [reflexivity|]. split; [apply sliceLast_length|].
  exists (take (length (saved ++ entries) - 500) (saved ++ entries)).
  unfold ClientLogs.sliceLast. symmetry. apply take_drop.
Qed.

Section ReconnectFacts.
Import Client.

Lemma backoff_bounds n : 1000 <= backoff n <= 10000.
Proof.
  unfold backoff, maxReconnectDelay.
  assert (1 <= 2 ^ Z.of_nat n) by (apply Z.pow_le_mono_r with (b := 0); lia).
  lia.
Qed.

Lemma step_scheduled st e :
  (forall d, socket st = Some d -> 1000 <= d <= 10000) ->
  (forall d, socket (step st e) = Some d -> 1000 <= d <= 10000) /\
  exists extra,
    scheduled (step st e) = scheduled st ++ extra /\
    Forall (fun d => 1000 <= d <= 10000) extra /\
    (isCleanup st = true -> extra = [] /\ isCleanup (step st e) = true).
Proof.
  intros Hs. destruct e as [throws| | |]; simpl.
  - unfold connect. destruct (isCleanup st) eqn:Ec.
    + split; [exact Hs|]. exists []. rewrite app_nil_r. auto.
    + destruct throws; simpl.
      * split; [exact Hs|]. eexists. split; [reflexivity|]. split; [|discriminate].
        constructor; [apply backoff_bounds|constructor].
      * split; [intros d [= <-]; apply backoff_bounds|].
        exists []. rewrite app_nil_r. split; [reflexivity|]. split; [constructor|discriminate].
  - unfold onopen. destruct (socket st) as [d|] eqn:E; simpl.
    + split; [intros d' [= <-]; apply Hs; reflexivity|].
      exists []. rewrite app_nil_r. auto.
    + split; [rewrite E; discriminate|]. exists []. rewrite app_nil_r. auto.
  - unfold onclose. destruct (socket st) as [d|] eqn:E; simpl.
    + destruct (isCleanup st) eqn:Ec; simpl.
      * split; [discriminate|]. exists []. rewrite app_nil_r. auto.
      * split; [discriminate|]. eexists. split; [reflexivity|]. split; [|discriminate].
        constructor; [apply Hs; reflexivity|constructor].
    + split; [rewrite E; discriminate|]. exists []. rewrite app_nil_r. auto.
  - split; [exact Hs|]. exists []. rewrite app_nil_r. auto.
Qed.

Lemma run_scheduled events st :
  (forall d, socket st = Some d -> 1000 <= d <= 10000) ->
  exists extra,
    scheduled (run events st) = scheduled st ++ extra /\
    Forall (fun d => 1000 <= d <= 10000) extra /\
    (isCleanup st = true -> extra = []).
Proof.
  revert st. induction events as [|e events IH]; intros st Hs.
  - exists []. rewrite app_nil_r. auto.
  - destruct (step_scheduled st e Hs) as (Hs' & extra1 & E1 & F1 & C1).
    destruct (IH (step st e) Hs') as (extra2 & E2 & F2 & C2).
    exists (extra1 ++ extra2). unfold run in *. cbn [foldl].
    rewrite E2, E1, <- app_assoc. split; [reflexivity|].
    split; [apply Forall_app; auto|].
    intros Hc. destruct (C1 Hc) as [-> Hc']. rewrite (C2 Hc'). reflexivity.
Qed.

(** X16. Whatever happens to the socket, the client waits at least one
    and at most ten seconds before each reconnect (after the first
    connection, which is made half a second after mounting); and once the
    effect is cleaned up, no further connection is scheduled whatever
    happens then. *)
Theorem reconnects_are_bounded_and_end_with_cleanup events later :
  let st := run events mounted in
  (exists delays,
     scheduled st = 500 :: delays /\
     Forall (fun d => 1000 <= d <= 10000) delays) /\
  scheduled (run later (cleanup st)) = scheduled st.
Proof.
  cbv zeta. split.
  - destruct (run_scheduled events mounted) as (extra & E & F & _); [discriminate|].
    exists extra. rewrite E. auto.
  - assert (forall d, socket (cleanup (run events mounted)) = Some d ->
                      1000 <= d <= 10000) as Hs.
    { destruct (step_scheduled (run events mounted) Cleanup) as [H _]; [|exact H].
      clear. induction events as [|e events IH] using rev_ind; [discriminate|].
      unfold run in *. rewrite foldl_app. cbn [foldl].
      apply step_scheduled. exact IH. }
    destruct (run_scheduled later (cleanup (run events mounted)) Hs)
      as (extra & E & _ & C).
    rewrite E, C by reflexivity. rewrite app_nil_r. reflexivity.
Qed.

End ReconnectFacts.

(** ** More on the classifier *)

Section MoreClassifierFacts.
Import Classifier.

Lemma startsWith_app p y : JS.startsWith (p ++ y) p = true.
Proof.
  induction p as [|c p IH]; [destruct y; reflexivity|].
  simpl. rewrite Z.eqb_refl. exact IH.
Qed.

Lemma includes_app x p y : JS.includes (x ++ p ++ y) p = true.
Proof.
  induction x as [|c x IH].
  - change ([] ++ p ++ y) with (p ++ y).
    destruct (p ++ y) eqn:E; cbn [JS.includes]; rewrite <- ?E;
      rewrite startsWith_app; reflexivity.
  - change ((c :: x) ++ p ++ y) with (c :: (x ++ p ++ y)).
    cbn [JS.includes]. rewrite IH. apply orb_true_r.
Qed.

Lemma toLowerCase_app a b : JS.toLowerCase (a ++ b) = JS.toLowerCase a ++ JS.toLowerCase b.
Proof. unfold JS.toLowerCase. apply fmap_app. Qed.

(** X17. A line that contains one of the words [error], [failed],
    [exception], [fatal] or [cannot find], in any mix of upper-case and
    lower-case ASCII letters and anywhere in the line, is given the level
    [error], whatever else the line says. *)
Theorem error_words_make_an_error_line before word after keyword :
  keyword ∈ [js "error"; js "failed"; js "exception"; js "fatal"; js "cannot find"] ->
  JS.toLowerCase word = keyword ->
  detectLogLevel (before ++ word ++ after) = error.
Proof.
  intros Hk Hw. apply detectLogLevel_error.
  rewrite !toLowerCase_app, Hw. unfold isError.
  repeat (apply elem_of_cons in Hk as [->|Hk];
          [rewrite includes_app; rewrite ?orb_true_r; reflexivity|]).
  inversion Hk.
Qed.

Lemma error_words_make_an_error_line_sample :
  js "error" ∈ [js "error"; js "failed"; js "exception"; js "fatal"; js "cannot find"] /\
  JS.toLowerCase (js "ERROR") = js "error" /\
  detectLogLevel (10003 :: js " compiled successfully, 0 " ++ js "ERROR" ++ js "s") = error.
Proof.
  split; [left|]. split; [reflexivity|].
  apply (error_words_make_an_error_line (10003 :: js " compiled successfully, 0 ")
           (js "ERROR") (js "s") (js "error")); [left|reflexivity].
Defined.

Lemma dropWhile_suffix f s : exists p, s = p ++ JS.dropWhile f s.
Proof.
  induction s as [|c s [p IH]]; [exists []; reflexivity|]. simpl.
  destruct (f c); [exists (c :: p); simpl; congruence|exists []; reflexivity].
Qed.

Lemma dropWhile_head f s c r : JS.dropWhile f s = c :: r -> f c = false.
Proof.
  induction s as [|x s IH]; simpl; [discriminate|].
  destruct (f x) eqn:E; [exact IH|]. intros [= <- _]. exact E.
Qed.

Lemma trim_shape s :
  (forall x, x ∈ JS.trim s -> x ∈ s) /\
  (forall x, head (JS.trim s) = Some x -> JS.isSpace x = false) /\
  (forall x, last (JS.trim s) = Some x -> JS.isSpace x = false).
Proof.
  unfold JS.trim.
  destruct (dropWhile_suffix JS.isSpace s) as [p Hp].
  set (d := JS.dropWhile JS.isSpace s) in *.
  destruct (dropWhile_suffix JS.isSpace (rev d)) as [q Hq].
  set (w := JS.dropWhile JS.isSpace (rev d)) in *.
  assert (d = rev w ++ rev q) as Hd.
  { rewrite <- rev_app_distr, <- Hq, rev_involutive. reflexivity. }
  split; [|split].
  - intros x Hx. rewrite Hp, Hd. apply elem_of_app. right.
    apply elem_of_app. left. exact Hx.
  - intros x Hx. destruct (rev w) as [|c r] eqn:E; [discriminate|].
    injection Hx as ->. apply (dropWhile_head JS.isSpace s x (r ++ rev q)).
    fold d. rewrite Hd. reflexivity.
  - intros x Hx. destruct w as [|c r] eqn:E; [discriminate|].
    simpl rev in Hx. rewrite last_snoc in Hx. injection Hx as ->.
    apply (dropWhile_head JS.isSpace (rev d) x r). exact E.
Qed.

(** X18. What [cleanLogLine] returns is either empty, and the line is
    then passed over, or a message of at least two code units that has no
    carriage return and neither begins nor ends with white space. *)
Theorem cleanLogLine_returns_a_trimmed_message line :
  let cleaned := cleanLogLine line in
  (cleaned = [] \/ (2 <= length cleaned)%nat) /\
  (13 ∉ cleaned) /\
  (forall x, head cleaned = Some x -> JS.isSpace x = false) /\
  (forall x, last cleaned = Some x -> JS.isSpace x = false).
Proof.
  cbv zeta. split; [|split; [|split]];
    unfold cleanLogLine;
    match goal with |- context [JS.trim ?s] => set (raw := s) end;
    destruct (trim_shape raw) as (Hin & Hhead & Hlast);
    destruct (bool_decide (JS.trim raw = [])); try (left; reflexivity);
    try apply not_elem_of_nil; try discriminate;
    destruct (length (JS.trim raw) <? 2)%nat eqn:El; try (left; reflexivity);
    try apply not_elem_of_nil; try discriminate;
    destruct (re_spinner (JS.trim raw)); try (left; reflexivity);
    try apply not_elem_of_nil; try discriminate; try assumption.
  - right. apply Nat.ltb_ge in El. exact El.
  - intros H13. apply Hin in H13. subst raw.
    apply list_elem_of_filter in H13 as [H13 _]. apply H13. reflexivity.
Qed.

End MoreClassifierFacts.

(** ** The WebSocket sessions *)

Lemma elem_of_subscribers_subscribe st projectId callback q l :
  l ∈ subscribers (stateOf (subscribeToLogs projectId callback st)) q <->
  (q = projectId /\ l = callback) \/ l ∈ subscribers st q.
Proof.
  destruct (decide (q = projectId)) as [->|Hne].
  - rewrite subscribers_subscribe, elem_of_union, elem_of_singleton. tauto.
  - rewrite subscribers_subscribe_other by congruence. tauto.
Qed.

Lemma subscribers_unsubscribe_other st projectId other callback :
  other <> projectId ->
  subscribers (stateOf (unsubscribeFromLogs other callback st)) projectId =
    subscribers st projectId.
Proof.
  intros Hne. unfold unsubscribeFromLogs, modify, subscribers. simpl.
  destruct (logSubscriptions st !! other) as [s|] eqn:E; simpl; [|reflexivity].
  rewrite lookup_insert_ne by exact Hne. reflexivity.
Qed.

Lemma elem_of_subscribers_unsubscribe st projectId callback q l :
  l ∈ subscribers (stateOf (unsubscribeFromLogs projectId callback st)) q <->
  l ∈ subscribers st q /\ ~ (q = projectId /\ l = callback).
Proof.
  destruct (decide (q = projectId)) as [->|Hne].
  - rewrite subscribers_unsubscribe, elem_of_difference, elem_of_singleton. tauto.
  - rewrite subscribers_unsubscribe_other by congruence. tauto.
Qed.

(** The two updates of a map of subscriber sets, read at any key. *)
Lemma added_lookup `{Countable K} (m : gmap K (gset Listener)) k callback k' :
  default ∅
    (alter (union {[callback]}) k
       (if m !! k is Some _ then m else <[k := ∅]> m) !! k') =
  if decide (k' = k) then {[callback]} ∪ default ∅ (m !! k) else default ∅ (m !! k').
Proof.
  destruct (decide (k' = k)) as [->|Hne].
  - destruct (m !! k) as [subs|] eqn:E.
    + rewrite lookup_alter_eq, E. reflexivity.
    + rewrite lookup_alter_eq, lookup_insert_eq. reflexivity.
  - destruct (m !! k) as [subs|] eqn:E.
    + rewrite lookup_alter_ne by congruence. reflexivity.
    + rewrite lookup_alter_ne, lookup_insert_ne by congruence. reflexivity.
Qed.

Lemma removed_lookup `{Countable K} (m : gmap K (gset Listener)) k callback k' :
  default ∅
    (match m !! k with
     | Some subscribers => <[k := subscribers ∖ {[callback]}]> m
     | None => m
     end !! k') =
  if decide (k' = k) then default ∅ (m !! k) ∖ {[callback]} else default ∅ (m !! k').
Proof.
  destruct (decide (k' = k)) as [->|Hne].
  - destruct (m !! k) as [subs|] eqn:E.
    + rewrite lookup_insert_eq. reflexivity.
    + rewrite E. simpl. symmetry. apply empty_difference_L.
  - destruct (m !! k) as [subs|] eqn:E; [|reflexivity].
    rewrite lookup_insert_ne by congruence. reflexivity.
Qed.

Section SessionFacts.
Import Session.

Lemma subscribe_frame projectId callback srv :
  wsClients (subscribe projectId callback srv) = wsClients srv /\
  sockets (subscribe projectId callback srv) = sockets srv /\
  callbacks (subscribe projectId callback srv) = callbacks srv.
Proof. destruct projectId; repeat split. Qed.

Lemma unsubscribe_frame projectId callback srv :
  wsClients (unsubscribe projectId callback srv) = wsClients srv /\
  sockets (unsubscribe projectId callback srv) = sockets srv /\
  callbacks (unsubscribe projectId callback srv) = callbacks srv.
Proof. destruct projectId; repeat split. Qed.

Lemma subscribersOf_setClient ws clientData srv q :
  subscribersOf (setClient ws clientData srv) q = subscribersOf srv q.
Proof. destruct q; reflexivity. Qed.

Lemma subscribersOf_newCallback srv q :
  subscribersOf (newCallback srv) q = subscribersOf srv q.
Proof. destruct q; reflexivity. Qed.

Lemma subscribersOf_deleteClient ws srv q :
  subscribersOf (deleteClient ws srv) q = subscribersOf srv q.
Proof. destruct q; reflexivity. Qed.

Lemma elem_of_subscribersOf_subscribe srv projectId callback q l :
  l ∈ subscribersOf (subscribe projectId callback srv) q <->
  (q = projectId /\ l = callback) \/ l ∈ subscribersOf srv q.
Proof.
  destruct projectId as [s|v], q as [s'|v']; cbn [subscribe subscribersOf projectManager otherKeys].
  - rewrite elem_of_subscribers_subscribe.
    split; (intros [[E ->]|H]; [left; split; [congruence|reflexivity]|right; exact H]).
  - split; [intros H; right; exact H|intros [[E _]|H]; [discriminate|exact H]].
  - split; [intros H; right; exact H|intros [[E _]|H]; [discriminate|exact H]].
  - rewrite added_lookup. destruct (decide (v' = v)) as [->|Hne].
    + rewrite elem_of_union, elem_of_singleton.
      split; (intros [H|H]; [left|right; exact H]);
        [split; [reflexivity|exact H]|apply H].
    + split; [intros H; right; exact H|intros [[E' _]|H]; [congruence|exact H]].
Qed.

Lemma elem_of_subscribersOf_unsubscribe srv projectId callback q l :
  l ∈ subscribersOf (unsubscribe projectId callback srv) q <->
  l ∈ subscribersOf srv q /\ ~ (q = projectId /\ l = callback).
Proof.
  destruct projectId as [s|v], q as [s'|v'];
    cbn [unsubscribe subscribersOf projectManager otherKeys].
  - rewrite elem_of_subscribers_unsubscribe.
    split; intros [H1 H2]; (split; [exact H1|]); intros [E ->]; apply H2;
      (split; [congruence|reflexivity]).
  - split; [intros H; split; [exact H|intros [E _]; discriminate]|intros [H _]; exact H].
  - split; [intros H; split; [exact H|intros [E _]; discriminate]|intros [H _]; exact H].
  - rewrite removed_lookup. destruct (decide (v' = v)) as [->|Hne].
    + rewrite elem_of_difference, elem_of_singleton.
      split; intros [H1 H2]; (split; [exact H1|]).
      * intros [_ ->]. apply H2. reflexivity.
      * intros ->. apply H2. split; reflexivity.
    + split; [intros H; split; [exact H|intros [E' _]; congruence]|intros [H _]; exact H].
Qed.

Lemma bound_subscription projectId callback :
  isTruthy projectId = true ->
  bound (subscription projectId callback) = Some (projectId, callback).
Proof. intros H. unfold bound, subscription. simpl. rewrite H. reflexivity. Qed.

Lemma bound_truthy clientData projectId callback :
  bound clientData = Some (projectId, callback) -> isTruthy projectId = true.
Proof.
  unfold bound. destruct (ws_callback clientData); [|discriminate].
  destruct (ws_projectId clientData) as [p|]; [|discriminate].
  destruct (isTruthy p) eqn:E; [|discriminate]. intros [= <- _]. exact E.
Qed.

Lemma tidy_listening st : logSubscriptions st = ∅ -> tidy (listening st).
Proof.
  intros Hs. split; simpl.
  - intros ws cd H. rewrite lookup_empty in H. discriminate.
  - intros p l H. destruct p as [s|v]; simpl in H.
    + unfold subscribers in H. rewrite Hs, lookup_empty in H.
      simpl in H. apply not_elem_of_empty in H. destruct H.
    + rewrite lookup_empty in H. simpl in H. apply not_elem_of_empty in H. destruct H.
  - intros ws1 ws2 cd1 cd2 l H. rewrite lookup_empty in H. discriminate.
Qed.

Lemma tidy_onConnection srv : tidy srv -> tidy (onConnection srv).
Proof.
  intros [He Hs Ho].
  assert (forall q, subscribersOf (onConnection srv) q = subscribersOf srv q) as Hsame
    by (intros []; reflexivity).
  split; cbn [onConnection wsClients sockets callbacks].
  - intros ws cd H. destruct (decide (sockets srv = ws)) as [<-|Hne].
    + rewrite lookup_insert_eq in H. injection H as <-. split; [lia|left; reflexivity].
    + rewrite lookup_insert_ne in H by exact Hne.
      destruct (He ws cd H) as [Hlt Hcd]. split; [lia|].
      destruct Hcd as [Hcd|(p & l & Hcd & Hp & Hl & Hin)]; [left; exact Hcd|right].
      exists p, l. rewrite Hsame. repeat split; assumption.
  - intros p l H. rewrite Hsame in H. destruct (Hs p l H) as [ws Hws]. exists ws.
    rewrite lookup_insert_ne; [exact Hws|].
    intros <-. apply He in Hws as [Hlt _]. lia.
  - intros ws1 ws2 cd1 cd2 l H1 H2 Hc1 Hc2.
    destruct (decide (sockets srv = ws1)) as [<-|Hne1].
    { rewrite lookup_insert_eq in H1. injection H1 as <-. discriminate. }
    destruct (decide (sockets srv = ws2)) as [<-|Hne2].
    { rewrite lookup_insert_eq in H2. injection H2 as <-. discriminate. }
    rewrite lookup_insert_ne in H1, H2 by assumption.
    exact (Ho ws1 ws2 cd1 cd2 l H1 H2 Hc1 Hc2).
Qed.

Lemma tidy_published srv projectId level message :
  tidy srv -> tidy (step srv (Published projectId level message)).
Proof.
  intros [He Hs Ho].
  assert (forall q, subscribersOf (step srv (Published projectId level message)) q =
                    subscribersOf srv q) as Hsame.
  { intros [s|v]; [|reflexivity]. simpl. apply log_subscribers. }
  split; cbn [step wsClients sockets callbacks].
  - intros ws cd H. destruct (He ws cd H) as [Hlt Hcd]. split; [exact Hlt|].
    destruct Hcd as [Hcd|(p & l & Hcd & Hp & Hl & Hin)]; [left; exact Hcd|right].
    exists p, l. rewrite Hsame. repeat split; assumption.
  - intros p l H. rewrite Hsame in H. exact (Hs p l H).
  - exact Ho.
Qed.

(** The server once the previous subscription of an entry is dropped. *)
Lemma unsubscribed_entry srv ws clientData :
  tidy srv -> wsClients srv !! ws = Some clientData ->
  let unsubscribed :=
    match bound clientData with
    | Some (previous, callback) => unsubscribe previous callback srv
    | None => srv
    end in
  wsClients unsubscribed = wsClients srv /\
  sockets unsubscribed = sockets srv /\
  callbacks unsubscribed = callbacks srv /\
  forall q l,
    l ∈ subscribersOf unsubscribed q <->
    l ∈ subscribersOf srv q /\ clientData <> subscription q l.
Proof.
  intros [He Hs Ho] Hws. cbv zeta.
  destruct (He ws clientData Hws) as [_ [->|(p & c & -> & Hp & _ & Hin)]].
  - simpl. repeat split; try tauto. discriminate.
  - rewrite bound_subscription by exact Hp.
    destruct (unsubscribe_frame p c srv) as (-> & -> & ->).
    split; [reflexivity|split; [reflexivity|split; [reflexivity|]]].
    intros q l. rewrite elem_of_subscribersOf_unsubscribe.
    split; intros [H1 H2]; (split; [exact H1|]).
    + intros E. apply H2. unfold subscription in E. injection E as -> ->.
      split; reflexivity.
    + intros [-> ->]. apply H2. reflexivity.
Qed.

Lemma tidy_onMessage srv ws data :
  namesProject (OnMessage ws data) -> tidy srv -> tidy (onMessage ws data srv).
Proof.
  intros Hn Ht. destruct data as [projectId|]; [|exact Ht].
  unfold onMessage. destruct (wsClients srv !! ws) as [clientData|] eqn:Hws; [|exact Ht].
  pose proof (unsubscribed_entry srv ws clientData Ht Hws) as Hun. cbv zeta in Hun.
  set (unsubscribed := match bound clientData with
                       | Some (previous, callback) => unsubscribe previous callback srv
                       | None => srv
                       end) in *.
  destruct Hun as (Hw & Hsock & Hcb & Hun).
  destruct Ht as [He Hs Ho].
  simpl in Hn.
  set (next := setClient ws _ _).
  assert (forall q l, l ∈ subscribersOf next q <->
            (q = projectId /\ l = callbacks srv) \/
            (l ∈ subscribersOf srv q /\ clientData <> subscription q l)) as Hsub.
  { intros q l. unfold next. rewrite subscribersOf_setClient.
    rewrite elem_of_subscribersOf_subscribe, subscribersOf_newCallback, Hun.
    reflexivity. }
  assert (wsClients next =
            <[ws := subscription projectId (callbacks srv)]> (wsClients srv)) as Hwn.
  { unfold next, setClient. cbn [wsClients].
    destruct (subscribe_frame projectId (callbacks srv) (newCallback unsubscribed))
      as (-> & _ & _). cbn [newCallback wsClients]. rewrite Hw. reflexivity. }
  assert (sockets next = sockets srv) as Hsn.
  { unfold next, setClient. cbn [sockets].
    destruct (subscribe_frame projectId (callbacks srv) (newCallback unsubscribed))
      as (_ & -> & _). cbn [newCallback sockets]. exact Hsock. }
  assert (callbacks next = S (callbacks srv)) as Hcn.
  { unfold next, setClient. cbn [callbacks].
    destruct (subscribe_frame projectId (callbacks srv) (newCallback unsubscribed))
      as (_ & _ & ->). cbn [newCallback callbacks]. rewrite Hcb. reflexivity. }
  clearbody next.
  split; rewrite ?Hwn, ?Hsn, ?Hcn.
  - intros ws' cd H. destruct (decide (ws = ws')) as [<-|Hne].
    + rewrite lookup_insert_eq in H. injection H as <-.
      split; [apply (He ws clientData Hws)|right].
      exists projectId, (callbacks srv). repeat split; [exact Hn|lia|].
      apply Hsub. left. split; reflexivity.
    + rewrite lookup_insert_ne in H by exact Hne.
      destruct (He ws' cd H) as [Hlt Hcd]. split; [exact Hlt|].
      destruct Hcd as [Hcd|(p & l & -> & Hp' & Hl & Hin)]; [left; exact Hcd|right].
      exists p, l. repeat split; [exact Hp'|lia|].
      apply Hsub. right. split; [exact Hin|].
      intros ->. apply Hne. exact (Ho ws ws' _ _ l Hws H eq_refl eq_refl).
  - intros p l H. apply Hsub in H as [[-> ->]|[H Hcd]].
    + exists ws. apply lookup_insert_eq.
    + destruct (Hs p l H) as [ws' Hws'].
      exists ws'. rewrite lookup_insert_ne; [exact Hws'|].
      intros <-. rewrite Hws in Hws'. injection Hws' as ->. apply Hcd. reflexivity.
  - assert (forall ws' cd, ws <> ws' -> wsClients srv !! ws' = Some cd ->
                           ws_callback cd <> Some (callbacks srv)) as Hfresh.
    { intros ws' cd Hne H Hc.
      destruct (He ws' cd H) as [_ [->|(p & l & -> & _ & Hl & _)]]; [discriminate|].
      injection Hc as ->. lia. }
    intros ws1 ws2 cd1 cd2 l H1 H2 Hc1 Hc2.
    destruct (decide (ws = ws1)) as [<-|Hne1]; destruct (decide (ws = ws2)) as [<-|Hne2];
      [reflexivity| | |].
    + rewrite lookup_insert_eq in H1. injection H1 as <-.
      rewrite lookup_insert_ne in H2 by exact Hne2.
      simpl in Hc1. injection Hc1 as <-. destruct (Hfresh ws2 cd2 Hne2 H2 Hc2).
    + rewrite lookup_insert_eq in H2. injection H2 as <-.
      rewrite lookup_insert_ne in H1 by exact Hne1.
      simpl in Hc2. injection Hc2 as <-. destruct (Hfresh ws1 cd1 Hne1 H1 Hc1).
    + rewrite lookup_insert_ne in H1, H2 by assumption.
      exact (Ho ws1 ws2 cd1 cd2 l H1 H2 Hc1 Hc2).
Qed.

Lemma tidy_onClose srv ws : tidy srv -> tidy (onClose ws srv).
Proof.
  intros Ht. unfold onClose.
  destruct (wsClients srv !! ws) as [clientData|] eqn:Hws.
  - pose proof (unsubscribed_entry srv ws clientData Ht Hws) as Hun. cbv zeta in Hun.
    set (unsubscribed := match bound clientData with
                         | Some (previous, callback) => unsubscribe previous callback srv
                         | None => srv
                         end) in *.
    destruct Hun as (Hw & Hsock & Hcb & Hun).
    destruct Ht as [He Hs Ho].
    split; cbn [deleteClient wsClients sockets callbacks]; rewrite ?Hw, ?Hsock, ?Hcb.
    + intros ws' cd H. apply lookup_delete_Some in H as [Hne H].
      destruct (He ws' cd H) as [Hlt Hcd]. split; [exact Hlt|].
      destruct Hcd as [Hcd|(p & l & -> & Hp' & Hl & Hin)]; [left; exact Hcd|right].
      exists p, l. repeat split; [exact Hp'|exact Hl|].
      rewrite subscribersOf_deleteClient. apply Hun. split; [exact Hin|].
      intros ->. apply Hne. exact (Ho ws ws' _ _ l Hws H eq_refl eq_refl).
    + intros p l H. rewrite subscribersOf_deleteClient in H.
      apply Hun in H as [H Hcd]. destruct (Hs p l H) as [ws' Hws'].
      exists ws'. apply lookup_delete_Some. split; [|exact Hws'].
      intros <-. rewrite Hws in Hws'. injection Hws' as ->. apply Hcd. reflexivity.
    + intros ws1 ws2 cd1 cd2 l H1 H2.
      apply lookup_delete_Some in H1 as [_ H1]. apply lookup_delete_Some in H2 as [_ H2].
      exact (Ho ws1 ws2 cd1 cd2 l H1 H2).
  - unfold deleteClient. rewrite delete_id by exact Hws. destruct srv; exact Ht.
Qed.

Lemma tidy_run events srv :
  Forall namesProject events -> tidy srv -> tidy (run events srv).
Proof.
  intros Hall. revert srv. induction Hall as [|e events He _ IH]; intros srv Ht; [exact Ht|].
  apply IH. destruct e as [|ws data|ws|projectId level message].
  - apply tidy_onConnection, Ht.
  - apply tidy_onMessage; assumption.
  - apply tidy_onClose, Ht.
  - apply tidy_published, Ht.
Qed.

(** X19. As long as every subscription request names a project (the
    [projectId] it carries, a string or any other value, is truthy), the
    subscriptions of the hub are exactly the bindings of the connections
    that are open: a callback is subscribed under a key if and only if
    the entry of some socket in [wsClients] holds this key and this
    callback, and no callback is held by two sockets.  So a connection
    has at most one subscription, and the callbacks of a closed or
    re-bound connection are subscribed nowhere. *)
Theorem subscriptions_are_the_bindings_of_open_sockets st events :
  logSubscriptions st = ∅ ->
  Forall Session.namesProject events ->
  let srv := Session.run events (Session.listening st) in
  (forall projectId callback,
     callback ∈ Session.subscribersOf srv projectId <->
     exists ws, Session.wsClients srv !! ws =
                  Some (Session.subscription projectId callback)) /\
  (forall projectId callback,
     callback ∈ subscribers (Session.projectManager srv) projectId <->
     exists ws, Session.wsClients srv !! ws =
                  Some (Session.subscription (Session.Str projectId) callback)) /\
  (forall ws1 ws2 clientData1 clientData2 callback,
     Session.wsClients srv !! ws1 = Some clientData1 ->
     Session.wsClients srv !! ws2 = Some clientData2 ->
     Session.ws_callback clientData1 = Some callback ->
     Session.ws_callback clientData2 = Some callback ->
     ws1 = ws2).
Proof.
  intros Hs Hall srv.
  destruct (tidy_run events (listening st) Hall (tidy_listening st Hs)) as [He Hsub Ho].
  assert (forall projectId callback,
            callback ∈ subscribersOf srv projectId <->
            exists ws, wsClients srv !! ws = Some (subscription projectId callback)) as H.
  { intros p l. split; [apply Hsub|].
    intros [ws Hws]. destruct (He ws _ Hws) as [_ [Hcd|(p' & l' & Hcd & _ & _ & Hin)]].
    - discriminate.
    - injection Hcd as -> ->. exact Hin. }
  split; [exact H|]. split; [|exact Ho].
  intros s l. exact (H (Str s) l).
Qed.

Lemma subscriptions_are_the_bindings_of_open_sockets_sample :
  let events :=
    [Session.Connection; Session.Connection;
     Session.OnMessage 0%nat (Session.Subscribe (Session.Str (js "a1b2c3")));
     Session.OnMessage 1%nat (Session.Subscribe (Session.Str (js "a1b2c3")));
     Session.OnMessage 0%nat
       (Session.Subscribe (Session.NonStr {| Session.truthy := true; Session.which := 7 |}));
     Session.OnMessage 0%nat (Session.Subscribe (Session.Str (js "d4e5f6")));
     Session.Published (js "a1b2c3") info (js "ready");
     Session.OnClose 1%nat] in
  let srv := Session.run events (Session.listening (fresh ∅ ∅ 0)) in
  (forall projectId callback,
     callback ∈ Session.subscribersOf srv projectId <->
     exists ws, Session.wsClients srv !! ws =
                  Some (Session.subscription projectId callback)) /\
  (forall projectId callback,
     callback ∈ subscribers (Session.projectManager srv) projectId <->
     exists ws, Session.wsClients srv !! ws =
                  Some (Session.subscription (Session.Str projectId) callback)) /\
  (forall ws1 ws2 clientData1 clientData2 callback,
     Session.wsClients srv !! ws1 = Some clientData1 ->
     Session.wsClients srv !! ws2 = Some clientData2 ->
     Session.ws_callback clientData1 = Some callback ->
     Session.ws_callback clientData2 = Some callback ->
     ws1 = ws2).
Proof.
  intros events.
  apply (subscriptions_are_the_bindings_of_open_sockets (fresh ∅ ∅ 0) events).
  - reflexivity.
  - repeat constructor.
Defined.

Lemma falsy_key_subscribers_grow srv e projectId l :
  isTruthy projectId = false ->
  l ∈ subscribersOf srv projectId ->
  l ∈ subscribersOf (step srv e) projectId.
Proof.
  intros Hf H.
  assert (forall clientData,
            l ∈ subscribersOf
                  (match bound clientData with
                   | Some (previous, callback) => unsubscribe previous callback srv
                   | None => srv
                   end) projectId) as Hun.
  { intros cd. destruct (bound cd) as [[previous callback]|] eqn:E; [|exact H].
    apply elem_of_subscribersOf_unsubscribe. split; [exact H|].
    intros [-> _]. apply bound_truthy in E. congruence. }
  destruct e as [|ws data|ws|p level message]; cbn [step].
  - destruct projectId; exact H.
  - destruct data as [requested|]; [|exact H]. unfold onMessage.
    destruct (wsClients srv !! ws) as [cd|]; [|exact H].
    rewrite subscribersOf_setClient. apply elem_of_subscribersOf_subscribe. right.
    rewrite subscribersOf_newCallback. apply Hun.
  - unfold onClose. rewrite subscribersOf_deleteClient.
    destruct (wsClients srv !! ws) as [cd|]; [apply Hun|exact H].
  - destruct projectId as [s|v]; [|exact H]. simpl. rewrite log_subscribers. exact H.
Qed.

(** X20. A subscription request whose [projectId] is falsy (the empty
    string, or a request without [projectId], or with [null], [false] or
    [0]) is accepted like any other, but its callback is never
    unsubscribed: it stays in the hub whatever happens afterwards, also
    when the socket subscribes again or closes.  For the empty string the
    callback stays among the subscribers that the manager keeps under
    that string. *)
Theorem empty_project_id_is_never_unsubscribed srv ws clientData events :
  Session.wsClients srv !! ws = Some clientData ->
  Session.callbacks srv ∈
    subscribers
      (Session.projectManager
         (Session.run events
            (Session.onMessage ws (Session.Subscribe (Session.Str [])) srv))) [] /\
  (forall projectId,
     Session.isTruthy projectId = false ->
     Session.callbacks srv ∈
       Session.subscribersOf
         (Session.run events (Session.onMessage ws (Session.Subscribe projectId) srv))
         projectId).
Proof.
  intros Hws.
  assert (forall projectId,
            isTruthy projectId = false ->
            callbacks srv ∈
              subscribersOf (run events (onMessage ws (Subscribe projectId) srv))
                projectId) as Hall.
  { intros projectId Hf.
    assert (callbacks srv ∈
              subscribersOf (onMessage ws (Subscribe projectId) srv) projectId) as H.
    { unfold onMessage. rewrite Hws. rewrite subscribersOf_setClient.
      apply elem_of_subscribersOf_subscribe. left. split; reflexivity. }
    revert H. generalize (onMessage ws (Subscribe projectId) srv) as srv'.
    generalize (callbacks srv) as l. clear -Hf.
    induction events as [|e events IH]; intros l srv' H; [exact H|].
    apply IH, falsy_key_subscribers_grow; assumption. }
  split; [exact (Hall (Str []) eq_refl)|exact Hall].
Qed.

Lemma empty_project_id_is_never_unsubscribed_sample :
  let srv := Session.run [Session.Connection] (Session.listening (fresh ∅ ∅ 0)) in
  let later :=
    [Session.OnMessage 0%nat (Session.Subscribe (Session.Str (js "a1b2c3")));
     Session.OnClose 0%nat] in
  let srv' :=
    Session.run later
      (Session.onMessage 0%nat (Session.Subscribe (Session.Str [])) srv) in
  Session.wsClients srv !! 0%nat =
    Some {| Session.ws_projectId := None; Session.ws_callback := None |} /\
  Session.wsClients srv' = ∅ /\
  (Session.callbacks srv ∈ subscribers (Session.projectManager srv') [] /\
   (forall projectId,
      Session.isTruthy projectId = false ->
      Session.callbacks srv ∈
        Session.subscribersOf
          (Session.run later
             (Session.onMessage 0%nat (Session.Subscribe projectId) srv))
          projectId)).
Proof.
  intros srv later srv'. split; [reflexivity|]. split; [by_compute|].
  exact (empty_project_id_is_never_unsubscribed srv 0%nat _ later eq_refl).
Defined.

End SessionFacts.

(** ** Listing, and starting what was recovered *)

(** X21. [listProjects] never throws and changes nothing: it answers
    with one status for each entry of the registry, and the id of every
    registered project is among them. *)
Theorem listProjects_answers_for_every_project st :
  exists statuses,
    listProjects st = (st, Ok statuses) /\
    length statuses = size (projects st) /\
    (forall projectId project,
       projects st !! projectId = Some project ->
       Project.id project ∈ ProjectStatus.id <$> statuses).
Proof.
  destruct (mapM_getProjectStatus (elements (dom (projects st))) st)
    as (statuses & Hm & Hf).
  { intros k Hk. apply elem_of_elements, elem_of_dom in Hk. exact Hk. }
  assert (listProjects st = (st, Ok statuses)) as Hl.
  { unfold listProjects, bind, gets. simpl. exact Hm. }
  exists statuses. split; [exact Hl|]. split.
  - rewrite <- (Forall2_length _ _ _ Hf). rewrite <- size_dom. reflexivity.
  - intros projectId project Hp.
    destruct (listProjects_shows_registered projectId project st Hp) as (s' & Hs' & Hin).
    rewrite Hl in Hs'. injection Hs' as <-. exact Hin.
Qed.

(** X22. The framework that the recovery scan detects is one of the five
    that [getStartCommand] knows, so the dev server of a recovered project
    is always started with [--port] and its port as the last two
    arguments: the default command, which passes no port, is not reached. *)
Theorem recovered_framework_is_started_on_its_port packageJson port :
  detectFramework packageJson ∈
    [js "react"; js "vue"; js "svelte"; js "angular"; js "laravel"] /\
  exists before,
    snd (getStartCommand (detectFramework packageJson) port) =
      before ++ [js "--port"; showPort (Some port)].
Proof.
  unfold detectFramework.
  repeat match goal with
         | |- context [if truthyDep ?d ?k then _ else _] => destruct (truthyDep d k)
         end.
  all: split; [by_compute|].
  1-3, 6: exists [js "run"; js "dev"; js "--"]; reflexivity.
  - exists [js "start"; js "--"]; reflexivity.
  - exists [js "artisan"; js "serve"]; reflexivity.
Qed.

Lemma joinSegments_app a b :
  a <> [] -> b <> [] ->
  Path.joinSegments (a ++ b) = Path.joinSegments a ++ Path.slash :: Path.joinSegments b.
Proof.
  intros Ha Hb. induction a as [|x a IH]; [congruence|].
  destruct a as [|y a].
  - simpl app. rewrite joinSegments_cons by exact Hb. reflexivity.
  - change ((x :: y :: a) ++ b) with (x :: ((y :: a) ++ b)).
    rewrite joinSegments_cons by discriminate.
    rewrite IH by discriminate.
    rewrite (joinSegments_cons x (y :: a)) by discriminate.
    rewrite <- app_assoc. reflexivity.
Qed.

Lemma startsWith_prefix s p : JS.startsWith s p = true -> exists rest, s = p ++ rest.
Proof.
  revert s. induction p as [|a p IH]; intros s H; [exists s; reflexivity|].
  destruct s as [|b s]; [discriminate|]. simpl in H.
  apply andb_true_iff in H as [Hab H]. apply Z.eqb_eq in Hab as ->.
  destruct (IH s H) as [rest ->]. exists rest. reflexivity.
Qed.

Lemma joinSegments_relative segs :
  Forall plain segs -> Path.isAbsolute (Path.joinSegments segs) = false.
Proof.
  intros H. destruct H as [|seg segs (Hne & _ & _ & Hs) _]; [reflexivity|].
  destruct seg as [|c seg]; [congruence|].
  assert (c <> Path.slash) as Hc by (intros ->; apply Hs; left).
  destruct segs; simpl; apply Z.eqb_neq, Hc.
Qed.

(** Resolving plain segments against a normalized path appends them. *)
Lemma resolve_plain_segments cwd path segs :
  normalized path -> path <> [Path.slash] -> segs <> [] -> Forall plain segs ->
  Path.resolve cwd [path; Path.joinSegments segs] =
    path ++ Path.slash :: Path.joinSegments segs.
Proof.
  intros (stack & Hplain & Hp) Hroot Hne Hsegs.
  assert (stack <> []) as Hstack.
  { intros ->. apply Hroot. subst. reflexivity. }
  assert (Path.isAbsolute path = true) as Ha by (subst; reflexivity).
  rewrite resolve_relative by (exact Ha || apply joinSegments_relative, Hsegs).
  rewrite (normalized_segmentStack path stack Hplain Hp).
  rewrite split_joinSegments by (exact Hne || apply plain_no_slash, Hsegs).
  rewrite foldl_pushSegment_plain by exact Hsegs.
  rewrite rev_app_distr, rev_involutive.
  rewrite joinSegments_app; [subst; reflexivity| |exact Hne].
  intros E. apply Hstack. apply (f_equal (@rev _)) in E.
  rewrite rev_involutive in E. exact E.
Qed.

Lemma listProjectFiles_elem projectPath st relative :
  relative ∈ listProjectFiles projectPath st <->
  is_Some (files st !! (projectPath ++ Path.slash :: relative)) /\
  Forall (fun seg => seg ∉ skippedNames) (Path.split relative).
Proof.
  unfold listProjectFiles. rewrite list_elem_of_omap. split.
  - intros (p & Hp & Hf). apply elem_of_elements, elem_of_dom in Hp.
    destruct (JS.startsWith p (projectPath ++ [Path.slash])) eqn:Es; [|discriminate].
    destruct (forallb _ _) eqn:Ef; [|discriminate]. injection Hf as <-.
    apply startsWith_prefix in Es as [rest ->].
    rewrite <- app_assoc in *. simpl app in *.
    change (S (length projectPath)) with (1 + length projectPath)%nat in *.
    rewrite Nat.add_comm in *.
    rewrite drop_app_add in *. simpl drop in *. rewrite drop_0 in *.
    split; [exact Hp|].
    apply Forall_forall. intros seg Hseg.
    rewrite forallb_forall in Ef. apply list_elem_of_In in Hseg.
    apply Ef in Hseg. apply bool_decide_eq_true_1 in Hseg. exact Hseg.
  - intros [Hp Hf]. exists (projectPath ++ Path.slash :: relative). split.
    + apply elem_of_elements, elem_of_dom, Hp.
    + change (projectPath ++ Path.slash :: relative)
        with (projectPath ++ [Path.slash] ++ relative).
      rewrite app_assoc. rewrite startsWith_app.
      change (S (length projectPath)) with (1 + length projectPath)%nat.
      rewrite Nat.add_comm. rewrite <- app_assoc.
      rewrite drop_app_add. simpl drop. rewrite drop_0.
      assert (forallb (fun seg => bool_decide (seg ∉ skippedNames)) (Path.split relative)
              = true) as ->; [|reflexivity].
      apply forallb_forall. intros seg Hseg. apply list_elem_of_In in Hseg.
      rewrite Forall_forall in Hf. apply bool_decide_eq_true_2, Hf, Hseg.
Qed.

(** X23. A file written through [writeFile] shows in the status of its
    project: for a project whose path is normalized and a relative path
    made of plain segments, once [writeFile] has returned,
    [getProjectStatus] answers, and the path is among the listed files
    exactly when none of its segments is [node_modules], [.git], [dist]
    or [build]. *)
Theorem written_file_is_listed_unless_skipped
  cfg st projectId project segs content :
  projects st !! projectId = Some project ->
  normalized (Project.path project) ->
  Project.path project <> [Path.slash] ->
  segs <> [] -> Forall plain segs ->
  resultOf (writeFile cfg projectId (Path.joinSegments segs) content st) = Ok tt ->
  let written := stateOf (writeFile cfg projectId (Path.joinSegments segs) content st) in
  exists status,
    getProjectStatus projectId written = (written, Ok status) /\
    (Path.joinSegments segs ∈ ProjectStatus.files status <->
     Forall (fun seg => seg ∉ skippedNames) segs).
Proof.
  intros Hp Hnorm Hroot Hne Hsegs Hok. cbv zeta.
  destruct (writeFile_Ok cfg st projectId project _ content Hp Hok) as [_ Hfile].
  rewrite resolve_plain_segments in Hfile by assumption.
  set (written := stateOf (writeFile cfg projectId (Path.joinSegments segs) content st)) in *.
  assert (projects written !! projectId = Some project) as Hp'.
  { unfold written. rewrite writeFile_keeps_projects. exact Hp. }
  eexists. split.
  - unfold getProjectStatus, bind, gets, ret. cbn [fst snd]. rewrite Hp'. reflexivity.
  - cbn [ProjectStatus.files]. rewrite listProjectFiles_elem.
    rewrite split_joinSegments by (exact Hne || apply plain_no_slash, Hsegs).
    rewrite Hfile. split; [intros [_ H]; exact H|intros H; split; [eauto|exact H]].
Qed.

Lemma written_file_is_listed_unless_skipped_sample :
  let project :=
    Project.mk sampleId (js "Todo") (js "react") None
      (js "/srv/app/projects/todo-abc123") 0 in
  let cfg := {| cwd := js "/srv/app"; reactTemplate := []; parseJson := fun _ => None |} in
  let st :=
    withProjects <[sampleId := project]>
      (fresh {[js "/srv/app/projects/todo-abc123" := 0]} ∅ 0) in
  let written :=
    stateOf (writeFile cfg sampleId (Path.joinSegments [js "src"; js "App.tsx"])
               (js "export {}") st) in
  exists status,
    getProjectStatus sampleId written = (written, Ok status) /\
    (Path.joinSegments [js "src"; js "App.tsx"] ∈ ProjectStatus.files status <->
     Forall (fun seg => seg ∉ skippedNames) [js "src"; js "App.tsx"]).
Proof.
  intros project cfg st.
  apply (written_file_is_listed_unless_skipped cfg st sampleId project
           [js "src"; js "App.tsx"] (js "export {}")).
  - reflexivity.
  - exists [js "todo-abc123"; js "projects"; js "app"; js "srv"]. split; [|reflexivity].
    repeat constructor; by_compute.
  - discriminate.
  - discriminate.
  - repeat constructor; by_compute.
  - vm_compute. reflexivity.
Defined.
